(** * clue-analytics-backend: a shallow embedding of the HTTP handlers

    The repository holds four versions of one Express server:
    - [src/unnamed/part_002]: the feed proxy alone;
    - [src/unnamed/part_000]: feed proxy, SQLite store, rate limiting,
      basic authentication (module [SqliteServer]);
    - [src/unnamed/part_001]: the same plus SendGrid notification mails
      sent without waiting for them (module [SqliteMailServer]);
    - [src/server.js]: Firebase realtime database plus SendGrid mails that
      are awaited (module [FirebaseServer]).

    Each request is handled in one step: a handler is a function from the
    request, the environment's answers (clock, network, store faults, mail
    provider) and the server state to a response and the next state. *)

From Stdlib Require Import ZArith String Ascii List Bool Lia.
From Stdlib Require Import Sorting.Permutation Sorting.Sorted.
From stdpp Require Import base option list gmap strings sorting.

Set Warnings "-register-all".

Local Open Scope Z_scope.
Local Open Scope string_scope.
Local Open Scope list_scope.

(** ** JavaScript values *)

(** A JavaScript string is a sequence of code units; here the code units of
    the Latin-1 range, one [ascii] each.  Numbers carry their integer value:
    the handlers only test them for truthiness and type. *)
Inductive jsval : Type :=
| JUndefined
| JNull
| JBool (b : bool)
| JNum (n : Z)
| JStr (s : string)
| JArr (xs : list jsval)
| JObj (fields : list (string * jsval)).

(** [!!v]: ToBoolean. *)
Definition truthy (v : jsval) : bool :=
  match v with
  | JUndefined | JNull => false
  | JBool b => b
  | JNum n => negb (Z.eqb n 0)
  | JStr s => negb (String.eqb s "")
  | JArr _ | JObj _ => true
  end.

(** [typeof v === 'string'] *)
Definition is_string (v : jsval) : bool :=
  match v with JStr _ => true | _ => false end.

(** Property read [o.k] on a value that has properties: [undefined] when
    the property is missing.  [JSON.parse] keeps the last of several equal
    keys.  Reading a property of [undefined] or [null] throws; the handlers
    guard their reads with [destructurable] below. *)
Fixpoint assoc_last (k : string) (fs : list (string * jsval)) : option jsval :=
  match fs with
  | [] => None
  | (k', v) :: fs' =>
      match assoc_last k fs' with
      | Some w => Some w
      | None => if String.eqb k k' then Some v else None
      end
  end.

Definition js_get (o : jsval) (k : string) : jsval :=
  match o with
  | JObj fs => default JUndefined (assoc_last k fs)
  | _ => JUndefined
  end.

(** ** Characters and strings *)

(** [\s] and [String.prototype.trim] use the same set: WhiteSpace and
    LineTerminator; in the Latin-1 range these are TAB, LF, VT, FF, CR,
    SPACE and NBSP. *)
Definition is_js_space (c : ascii) : bool :=
  match c with
  | "009" | "010" | "011" | "012" | "013" | " " | "160" => true
  | _ => false
  end%char.

Definition chars (s : string) : list ascii := list_ascii_of_string s.
Definition of_chars (l : list ascii) : string := string_of_list_ascii l.

(** [s.split(',')] *)
Fixpoint split_on (sep : ascii) (l : list ascii) : list (list ascii) :=
  match l with
  | [] => [[]]
  | c :: l' =>
      if Ascii.eqb c sep then [] :: split_on sep l'
      else match split_on sep l' with
           | [] => [[c]]
           | seg :: segs => (c :: seg) :: segs
           end
  end.

(** [s.trim()] *)
Fixpoint trim_start (l : list ascii) : list ascii :=
  match l with
  | [] => []
  | c :: l' => if is_js_space c then trim_start l' else l
  end.

Definition trim_end (l : list ascii) : list ascii := rev (trim_start (rev l)).

Definition trim (l : list ascii) : list ascii := trim_end (trim_start l).

(** [s.includes(needle)] *)
Fixpoint starts_with (needle l : list ascii) : bool :=
  match needle, l with
  | [], _ => true
  | _ :: _, [] => false
  | a :: needle', b :: l' => Ascii.eqb a b && starts_with needle' l'
  end.

Fixpoint includes_chars (needle l : list ascii) : bool :=
  starts_with needle l ||
  match l with
  | [] => false
  | _ :: l' => includes_chars needle l'
  end.

Definition includes (s needle : string) : bool :=
  includes_chars (chars needle) (chars s).

(** ** Regular expressions *)

(** The fragment of the regular expression syntax that the handlers use:
    character classes, concatenation and repetition.  A pattern anchored
    with [^] and [$] and tested without flags accepts a string exactly when
    the whole string belongs to the language of the pattern. *)
Inductive regex : Type :=
| RVoid
| REps
| RClass (p : ascii -> bool)
| RAlt (r1 r2 : regex)
| RCat (r1 r2 : regex)
| RStar (r : regex).

Definition RPlus (r : regex) : regex := RCat r (RStar r).
Definition RChar (c : ascii) : regex := RClass (Ascii.eqb c).

Fixpoint nullable (r : regex) : bool :=
  match r with
  | RVoid => false
  | REps => true
  | RClass _ => false
  | RAlt r1 r2 => nullable r1 || nullable r2
  | RCat r1 r2 => nullable r1 && nullable r2
  | RStar _ => true
  end.

Fixpoint deriv (c : ascii) (r : regex) : regex :=
  match r with
  | RVoid => RVoid
  | REps => RVoid
  | RClass p => if p c then REps else RVoid
  | RAlt r1 r2 => RAlt (deriv c r1) (deriv c r2)
  | RCat r1 r2 =>
      if nullable r1 then RAlt (RCat (deriv c r1) r2) (deriv c r2)
      else RCat (deriv c r1) r2
  | RStar r1 => RCat (deriv c r1) (RStar r1)
  end.

Fixpoint accepts (r : regex) (l : list ascii) : bool :=
  match l with
  | [] => nullable r
  | c :: l' => accepts (deriv c r) l'
  end.

(** [re.test(s)] for an anchored pattern [re]. *)
Definition regex_test (r : regex) (s : string) : bool := accepts r (chars s).

(** [[^\s@]] *)
Definition not_space_or_at (c : ascii) : bool :=
  negb (is_js_space c) && negb (Ascii.eqb c "@").

(** [/^[^\s@]+@[^\s@]+\.[^\s@]+$/] *)
Definition emailRegex : regex :=
  RCat (RPlus (RClass not_space_or_at))
    (RCat (RChar "@")
       (RCat (RPlus (RClass not_space_or_at))
          (RCat (RChar ".") (RPlus (RClass not_space_or_at))))).

(** ** Requests and responses *)

(** What [auth(req)] of the basic-auth package extracts from the
    Authorization header; [None] when the header is missing or malformed. *)
Record credentials : Type := { cred_name : string; cred_pass : string }.

(** The parts of an Express request the handlers read.  [req_body] is
    [req.body] as [express.json()] leaves it: the parsed value, or
    [undefined] where the parser sets none. *)
Record request : Type := {
  req_ip : string;
  req_forwarded_for : option string;
  req_auth : option credentials;
  req_query_url : option string;
  req_body : jsval
}.

(** What the handler hands to [res]: [res.json(v)] serialises [v] as JSON,
    [res.send(v)] writes [v] as it is.  [ErrorPage] is the page of Express's
    own error handler, which answers when a handler throws outside its [try]
    block. *)
Inductive resp_body : Type :=
| Json (v : jsval)
| Send (v : jsval)
| ErrorPage.

(** [status] is the code the handler chose: the argument of [res.status],
    200 when it calls none.  Express writes that code on the status line
    except for [res.send(n)] with a number [n]: Express 4 takes [n] itself as
    the status code there, Express 5 sends [n] as JSON under the code
    chosen. *)
Record response : Type := {
  status : Z;
  headers : list (string * string);
  body : resp_body
}.

(** The value handed to [res.json] or [res.send]; the error page carries
    none. *)
Definition payload (r : response) : jsval :=
  match body r with Json v => v | Send v => v | ErrorPage => JUndefined end.

(** [res.json(v)] *)
Definition res_json (v : jsval) : response :=
  {| status := 200; headers := []; body := Json v |}.

(** [res.send(v)] with no [res.status] before it. *)
Definition res_send (v : jsval) : response :=
  {| status := 200; headers := []; body := Send v |}.

(** [res.status(code).json({ error: msg })] *)
Definition res_error (code : Z) (msg : string) : response :=
  {| status := code; headers := []; body := Json (JObj [("error", JStr msg)]) |}.

(** [res.status(200).json({ message: msg })] *)
Definition res_message (msg : string) : response :=
  {| status := 200; headers := []; body := Json (JObj [("message", JStr msg)]) |}.

(** ** The feed cache (node-cache with [stdTTL: 3600]) *)

Definition stdTTL : Z := 3600.

(** A stored value with the instant, in milliseconds, after which it is
    stale; [0] would mean that it never is. *)
Record cache_entry : Type := { ce_value : jsval; ce_expires : Z }.

Definition stale (now : Z) (e : cache_entry) : bool :=
  negb (Z.eqb (ce_expires e) 0) && Z.ltb (ce_expires e) now.

(** [cache.get(key)]: [undefined] on a miss; a stale entry is deleted. *)
Definition cache_get (now : Z) (key : string) (c : gmap string cache_entry)
  : jsval * gmap string cache_entry :=
  match c !! key with
  | Some e => if stale now e then (JUndefined, delete key c) else (ce_value e, c)
  | None => (JUndefined, c)
  end.

(** [cache.set(key, value)] *)
Definition cache_set (now : Z) (key : string) (v : jsval) (c : gmap string cache_entry)
  : gmap string cache_entry :=
  <[key := {| ce_value := v; ce_expires := now + stdTTL * 1000 |}]> c.

(** ** GET /fetch-feed (the same text in all four files) *)

(** The answer of the origin to [axios.get]: the response data and the
    instant at which it arrived, or the message of the error thrown. *)
Inductive fetch_result : Type :=
| FetchOk (data : jsval) (arrived : Z)
| FetchErr (msg : string).

Record outbound_call : Type := { call_url : string; call_user_agent : string }.

Definition user_agent : string := "Mozilla/5.0 (compatible; ClueAnalyticsBot/1.0)".

Definition axios_get (url : string) : outbound_call :=
  {| call_url := url; call_user_agent := user_agent |}.

Record feed_outcome : Type := {
  feed_response : response;
  feed_cache : gmap string cache_entry;
  feed_calls : list outbound_call
}.

Definition fetch_feed (net : string -> fetch_result) (now : Z) (req : request)
    (c : gmap string cache_entry) : feed_outcome :=
  match req_query_url req with
  | None =>
      {| feed_response := res_error 400 "URL parameter is required";
         feed_cache := c; feed_calls := [] |}
  | Some url =>
      if negb (truthy (JStr url)) then
        {| feed_response := res_error 400 "URL parameter is required";
           feed_cache := c; feed_calls := [] |}
      else
        let (cachedFeed, c1) := cache_get now url c in
        if truthy cachedFeed then
          {| feed_response := res_json cachedFeed; feed_cache := c1; feed_calls := [] |}
        else
          match net url with
          | FetchOk feedData arrived =>
              {| feed_response := res_send feedData;
                 feed_cache := cache_set arrived url feedData c1;
                 feed_calls := [axios_get url] |}
          | FetchErr msg =>
              {| feed_response := res_error 500 ("Failed to fetch feed: " +:+ msg);
                 feed_cache := c1;
                 feed_calls := [axios_get url] |}
          end
  end.

(** ** Basic authentication middleware *)

Definition dquote : string := String "034"%char "".

Definition unauthorized : response :=
  {| status := 401;
     headers := [("WWW-Authenticate",
                  "Basic realm=" +:+ dquote +:+ "Clue Analytics Admin" +:+ dquote)];
     body := Json (JObj [("error", JStr "Unauthorized")]) |}.

(** The guard of [authenticate]: [true] when the request is let through. *)
Definition credentials_ok (apiKey : string) (user : option credentials) : bool :=
  match user with
  | None => false
  | Some u => String.eqb (cred_name u) "admin" && String.eqb (cred_pass u) apiKey
  end.

(** [app.get(path, authenticate, handler)] *)
Definition authenticate {S : Type} (apiKey : string) (req : request)
    (handler : S -> response * S) (s : S) : response * S :=
  if credentials_ok apiKey (req_auth req) then handler s else (unauthorized, s).

(** ** Rate limiting *)

Record limiter : Type := {
  windowMs : Z;
  max : Z;
  message : string
}.

Definition subscribeLimiter : limiter :=
  {| windowMs := 15 * 60 * 1000;
     max := 10;
     message := "Too many subscription attempts from this IP, please try again later." |}.

Definition contactLimiter : limiter :=
  {| windowMs := 15 * 60 * 1000;
     max := 5;
     message := "Too many contact messages from this IP, please try again later." |}.

(** [keyGenerator] of [src/server.js]:
    [forwardedFor ? forwardedFor.split(',')[0].trim() : req.ip]. *)
Definition keyGenerator (req : request) : string :=
  match req_forwarded_for req with
  | Some forwardedFor =>
      if truthy (JStr forwardedFor)
      then of_chars (trim (hd [] (split_on "," (chars forwardedFor))))
      else req_ip req
  | None => req_ip req
  end.

(** [keyGenerator] of the two SQLite files: every segment is trimmed, then
    the first one is taken. *)
Definition keyGenerator_sqlite (req : request) : string :=
  match req_forwarded_for req with
  | Some forwardedFor =>
      if truthy (JStr forwardedFor)
      then of_chars (hd [] (map trim (split_on "," (chars forwardedFor))))
      else req_ip req
  | None => req_ip req
  end.

(** Modelled from the spec: the window store of the express-rate-limit
    package, which is not part of the repository.  The spec describes a
    per-route sliding window: a rolling interval of [windowMs] over which the
    requests let through for one client key are counted, and outright
    rejection, with a throttling status and the fixed message, once [max] of
    them lie in the interval.  The store keeps, for each key, the instants of
    the requests it let through. *)
Definition in_window (l : limiter) (now t : Z) : bool := Z.ltb (now - windowMs l) t.

Definition window_count (l : limiter) (now : Z) (hits : list Z) : Z :=
  Z.of_nat (length (filter (fun t => in_window l now t = true) hits)).

Definition limiter_admit (l : limiter) (now : Z) (key : string)
    (store : gmap string (list Z)) : bool * gmap string (list Z) :=
  let hits := default [] (store !! key) in
  if Z.ltb (window_count l now hits) (max l)
  then (true, <[key := now :: hits]> store)
  else (false, store).

Definition too_many_requests (l : limiter) : response :=
  {| status := 429; headers := []; body := Send (JStr (message l)) |}.

(** [app.post(path, limiter, handler)]: the limiter runs before the handler
    and answers in its place when the key is over its limit. *)
Definition rate_limited {S : Type} (l : limiter) (key : request -> string)
    (now : Z) (req : request) (handler : S -> response * S)
    (store : gmap string (list Z)) (s : S)
  : response * S * gmap string (list Z) :=
  let (admitted, store') := limiter_admit l now (key req) store in
  if admitted
  then let (r, s') := handler s in (r, s', store')
  else (too_many_requests l, s, store').

(** A run of the limiter alone over a sequence of requests, each with its
    arrival instant and client key; the decisions are returned in order. *)
Fixpoint limiter_run (l : limiter) (reqs : list (Z * string))
    (store : gmap string (list Z)) : list bool * gmap string (list Z) :=
  match reqs with
  | [] => ([], store)
  | (now, key) :: reqs' =>
      let (d, store1) := limiter_admit l now key store in
      let (ds, store2) := limiter_run l reqs' store1 in
      (d :: ds, store2)
  end.

(** The instants of the requests of [key] that were let through. *)
Fixpoint admitted_at (key : string) (reqs : list (Z * string)) (ds : list bool) : list Z :=
  match reqs, ds with
  | (t, k) :: reqs', d :: ds' =>
      if d && String.eqb k key then t :: admitted_at key reqs' ds'
      else admitted_at key reqs' ds'
  | _, _ => []
  end.

(** ** Notification mails (SendGrid) *)

(** A message handed to [sgMail.send]; its HTML text is left out. *)
Record mail : Type := { mail_to : string; mail_from : string; mail_subject : string }.

Definition sender : string := "jinkaproject97@gmail.com".

Definition subscriberMsg (email : string) : mail :=
  {| mail_to := email; mail_from := sender;
     mail_subject := "Thank You for Subscribing to Clue Analytics!" |}.

Definition adminMsg (adminEmail : string) : mail :=
  {| mail_to := adminEmail; mail_from := sender;
     mail_subject := "New Contact Message from Clue Analytics" |}.

(** The mails the provider accepted so far, after a send that either went
    through ([None]) or was refused with an error message. *)
Definition sgMail_send (send_error : option string) (m : mail) (outbox : list mail)
  : list mail :=
  match send_error with
  | None => outbox ++ [m]
  | Some _ => outbox
  end.

(** ** Request validation (the same text in the three files with a store) *)

(** The guard [!v || typeof v !== 'string'] and, past it, the string. *)
Definition required_string (v : jsval) : option string :=
  if negb (truthy v) || negb (is_string v) then None
  else match v with JStr s => Some s | _ => None end.

Inductive validated (A : Type) : Type :=
| Rejected (r : response)
| Accepted (a : A).
Arguments Rejected {A} r.
Arguments Accepted {A} a.

(** The checks at the head of the [/subscribe] handler. *)
Definition validate_subscribe (body : jsval) : validated string :=
  match required_string (js_get body "email") with
  | None => Rejected (res_error 400 "Email is required and must be a string")
  | Some email =>
      if negb (regex_test emailRegex email)
      then Rejected (res_error 400 "Invalid email address")
      else Accepted email
  end.

(** The checks at the head of the [/contact] handler. *)
Definition validate_contact (body : jsval) : validated (string * string * string) :=
  match required_string (js_get body "name") with
  | None => Rejected (res_error 400 "Name is required and must be a string")
  | Some name =>
      match required_string (js_get body "email") with
      | None => Rejected (res_error 400 "Email is required and must be a string")
      | Some email =>
          match required_string (js_get body "message") with
          | None => Rejected (res_error 400 "Message is required and must be a string")
          | Some message =>
              if negb (regex_test emailRegex email)
              then Rejected (res_error 400 "Invalid email address")
              else Accepted (name, email, message)
          end
      end
  end.

(** [const { email } = req.body] and [const { name, email, message } =
    req.body]: destructuring [undefined] or [null] throws a TypeError.
    [express.json()] of Express 4 always leaves an object in [req.body];
    Express 5 leaves it [undefined] when the request has no JSON body. *)
Definition destructurable (body : jsval) : bool :=
  match body with
  | JUndefined | JNull => false
  | _ => true
  end.

(** The answer to a request whose handler threw outside its [try] block:
    the handlers are [async], Express 5 passes the rejection to its default
    error handler, which answers 500 with its own page. *)
Definition uncaught : response :=
  {| status := 500; headers := []; body := ErrorPage |}.

(** The head of the [/subscribe] handler: the destructuring, which stands
    before the [try] block, then the checks. *)
Definition read_subscribe (body : jsval) : validated string :=
  if destructurable body then validate_subscribe body else Rejected uncaught.

(** The head of the [/contact] handler. *)
Definition read_contact (body : jsval) : validated (string * string * string) :=
  if destructurable body then validate_contact body else Rejected uncaught.

(** ** The SQLite store *)

Module Sqlite.

(** Rows of the two tables.  [CURRENT_TIMESTAMP] has a resolution of one
    second; a timestamp is the number of seconds it denotes. *)
Record subscriber_row : Type := {
  sub_id : Z;
  sub_email : string;
  subscribed_at : Z
}.

Record message_row : Type := {
  msg_id : Z;
  msg_name : string;
  msg_email : string;
  msg_message : string;
  sent_at : Z
}.

(** Both tables in row order, each with the last AUTOINCREMENT value. *)
Record db : Type := {
  subscribers : list subscriber_row;
  subscribers_seq : Z;
  messages : list message_row;
  messages_seq : Z
}.

Definition empty : db :=
  {| subscribers := []; subscribers_seq := 0; messages := []; messages_seq := 0 |}.

Definition current_timestamp (now : Z) : Z := now / 1000.

Definition unique_failed : string :=
  "SQLITE_CONSTRAINT: UNIQUE constraint failed: subscribers.email".

Definition email_stored (email : string) (d : db) : bool :=
  existsb (fun r => String.eqb (sub_email r) email) (subscribers d).

(** [INSERT INTO subscribers (email) VALUES (?)] on a table whose [email]
    column is [UNIQUE].  [fault] is an error of the engine that has nothing
    to do with the row (busy, I/O); the result is the error message or the
    new database. *)
Definition insert_subscriber (fault : option string) (now : Z) (email : string)
    (d : db) : string + db :=
  match fault with
  | Some msg => inl msg
  | None =>
      if email_stored email d then inl unique_failed
      else
        let id := subscribers_seq d + 1 in
        inr {| subscribers :=
                 subscribers d ++
                 [{| sub_id := id; sub_email := email;
                     subscribed_at := current_timestamp now |}];
               subscribers_seq := id;
               messages := messages d;
               messages_seq := messages_seq d |}
  end.

(** [INSERT INTO messages (name, email, message) VALUES (?, ?, ?)] *)
Definition insert_message (fault : option string) (now : Z)
    (name email message : string) (d : db) : string + db :=
  match fault with
  | Some msg => inl msg
  | None =>
      let id := messages_seq d + 1 in
      inr {| subscribers := subscribers d;
             subscribers_seq := subscribers_seq d;
             messages :=
               messages d ++
               [{| msg_id := id; msg_name := name; msg_email := email;
                   msg_message := message; sent_at := current_timestamp now |}];
             messages_seq := id |}
  end.

Definition newer_subscriber (a b : subscriber_row) : Prop :=
  subscribed_at b <= subscribed_at a.

Definition newer_message (a b : message_row) : Prop :=
  sent_at b <= sent_at a.

#[global] Instance newer_subscriber_dec : RelDecision newer_subscriber.
Proof. intros a b. unfold newer_subscriber. apply _. Defined.

#[global] Instance newer_message_dec : RelDecision newer_message.
Proof. intros a b. unfold newer_message. apply _. Defined.

(** [SELECT * FROM subscribers ORDER BY subscribed_at DESC]; SQL leaves
    the order of rows with equal timestamps open, the sort here fixes one. *)
Definition select_subscribers (fault : option string) (d : db)
  : string + list subscriber_row :=
  match fault with
  | Some msg => inl msg
  | None => inr (merge_sort newer_subscriber (subscribers d))
  end.

(** [SELECT * FROM messages ORDER BY sent_at DESC] *)
Definition select_messages (fault : option string) (d : db)
  : string + list message_row :=
  match fault with
  | Some msg => inl msg
  | None => inr (merge_sort newer_message (messages d))
  end.

Definition subscriber_json (r : subscriber_row) : jsval :=
  JObj [("id", JNum (sub_id r)); ("email", JStr (sub_email r));
        ("subscribed_at", JNum (subscribed_at r))].

Definition message_json (r : message_row) : jsval :=
  JObj [("id", JNum (msg_id r)); ("name", JStr (msg_name r));
        ("email", JStr (msg_email r)); ("message", JStr (msg_message r));
        ("sent_at", JNum (sent_at r))].

End Sqlite.

(** ** [src/unnamed/part_000]: SQLite, no mail *)

Module SqliteServer.

(** [/subscribe]: the head, then the callback of [stmt.run]; [fault] is
    the error the engine hands to that callback for a reason other than the
    constraint. *)
Definition subscribe (fault : option string) (now : Z) (req : request)
    (d : Sqlite.db) : response * Sqlite.db :=
  match read_subscribe (req_body req) with
  | Rejected r => (r, d)
  | Accepted email =>
      match Sqlite.insert_subscriber fault now email d with
      | inl err =>
          if includes err "UNIQUE constraint failed"
          then (res_error 409 "Email already subscribed", d)
          else (res_error 500 "Failed to subscribe", d)
      | inr d' => (res_message "Successfully subscribed!", d')
      end
  end.

Definition contact (fault : option string) (now : Z) (req : request)
    (d : Sqlite.db) : response * Sqlite.db :=
  match read_contact (req_body req) with
  | Rejected r => (r, d)
  | Accepted (name, email, message) =>
      match Sqlite.insert_message fault now name email message d with
      | inl _ => (res_error 500 "Failed to send message", d)
      | inr d' => (res_message "Message sent successfully!", d')
      end
  end.

Definition listSubscribers (fault : option string) (d : Sqlite.db)
  : response * Sqlite.db :=
  match Sqlite.select_subscribers fault d with
  | inl _ => (res_error 500 "Failed to retrieve subscribers", d)
  | inr rows => (res_json (JArr (map Sqlite.subscriber_json rows)), d)
  end.

Definition listMessages (fault : option string) (d : Sqlite.db)
  : response * Sqlite.db :=
  match Sqlite.select_messages fault d with
  | inl _ => (res_error 500 "Failed to retrieve messages", d)
  | inr rows => (res_json (JArr (map Sqlite.message_json rows)), d)
  end.

(** The routes with their middleware. *)
Definition post_subscribe (fault : option string) (now : Z) (req : request) :=
  rate_limited subscribeLimiter keyGenerator_sqlite now req (subscribe fault now req).

Definition post_contact (fault : option string) (now : Z) (req : request) :=
  rate_limited contactLimiter keyGenerator_sqlite now req (contact fault now req).

Definition get_subscribers (apiKey : string) (fault : option string) (req : request) :=
  authenticate apiKey req (listSubscribers fault).

Definition get_messages (apiKey : string) (fault : option string) (req : request) :=
  authenticate apiKey req (listMessages fault).

End SqliteServer.

(** ** [src/unnamed/part_001]: SQLite, mails sent without waiting *)

Module SqliteMailServer.

(** The state is the database and the mails accepted by the provider.
    [send_error] is the outcome of [sgMail.send]: the handler attaches
    [.then] and [.catch] to it and answers without waiting. *)
Definition subscribe (fault send_error : option string) (now : Z) (req : request)
    (s : Sqlite.db * list mail) : response * (Sqlite.db * list mail) :=
  let (d, outbox) := s in
  match read_subscribe (req_body req) with
  | Rejected r => (r, s)
  | Accepted email =>
      match Sqlite.insert_subscriber fault now email d with
      | inl err =>
          if includes err "UNIQUE constraint failed"
          then (res_error 409 "Email already subscribed", s)
          else (res_error 500 "Failed to subscribe", s)
      | inr d' =>
          let outbox' := sgMail_send send_error (subscriberMsg email) outbox in
          (res_message "Successfully subscribed!", (d', outbox'))
      end
  end.

Definition contact (adminEmail : string) (fault send_error : option string) (now : Z)
    (req : request) (s : Sqlite.db * list mail) : response * (Sqlite.db * list mail) :=
  let (d, outbox) := s in
  match read_contact (req_body req) with
  | Rejected r => (r, s)
  | Accepted (name, email, message) =>
      match Sqlite.insert_message fault now name email message d with
      | inl _ => (res_error 500 "Failed to send message", s)
      | inr d' =>
          let outbox' := sgMail_send send_error (adminMsg adminEmail) outbox in
          (res_message "Message sent successfully!", (d', outbox'))
      end
  end.

Definition listSubscribers (fault : option string) (s : Sqlite.db * list mail)
  : response * (Sqlite.db * list mail) :=
  match Sqlite.select_subscribers fault (fst s) with
  | inl _ => (res_error 500 "Failed to retrieve subscribers", s)
  | inr rows => (res_json (JArr (map Sqlite.subscriber_json rows)), s)
  end.

Definition listMessages (fault : option string) (s : Sqlite.db * list mail)
  : response * (Sqlite.db * list mail) :=
  match Sqlite.select_messages fault (fst s) with
  | inl _ => (res_error 500 "Failed to retrieve messages", s)
  | inr rows => (res_json (JArr (map Sqlite.message_json rows)), s)
  end.

Definition post_subscribe (fault send_error : option string) (now : Z) (req : request) :=
  rate_limited subscribeLimiter keyGenerator_sqlite now req
    (subscribe fault send_error now req).

Definition post_contact (adminEmail : string) (fault send_error : option string)
    (now : Z) (req : request) :=
  rate_limited contactLimiter keyGenerator_sqlite now req
    (contact adminEmail fault send_error now req).

Definition get_subscribers (apiKey : string) (fault : option string) (req : request) :=
  authenticate apiKey req (listSubscribers fault).

Definition get_messages (apiKey : string) (fault : option string) (req : request) :=
  authenticate apiKey req (listMessages fault).

End SqliteMailServer.

(** ** The Firebase realtime database *)

Module Firebase.

(** The value written under a pushed key; [new Date().toISOString()] is
    kept as the instant in milliseconds it prints. *)
Record subscriber_data : Type := { email : string; subscribed_at : Z }.

Record message_data : Type := {
  msg_name : string;
  msg_email : string;
  msg_message : string;
  sent_at : Z
}.

(** The children of the two references in key order, the order in which a
    snapshot lists them.  A push key starts with the clock reading of the
    client that makes it, and keys made at one reading grow; the key is
    modelled by its rank among the keys of a process whose clock does not go
    back between two pushes. *)
Record db : Type := {
  subscribers : list (Z * subscriber_data);
  messages : list (Z * message_data);
  next_key : Z
}.

Definition empty : db := {| subscribers := []; messages := []; next_key := 0 |}.

(** [db.ref('subscribers').push()] followed by [ref.set(data)]; [fault] is
    the error with which the write is rejected, if it is.  The new key sorts
    after the stored ones as long as the clock has not gone back since they
    were made; a key made at a lower reading would sort before them. *)
Definition push_subscriber (fault : option string) (data : subscriber_data) (d : db)
  : string + db :=
  match fault with
  | Some msg => inl msg
  | None =>
      inr {| subscribers := subscribers d ++ [(next_key d, data)];
             messages := messages d;
             next_key := next_key d + 1 |}
  end.

(** [db.ref('messages').push()] followed by [ref.set(data)], with the same
    proviso on the clock. *)
Definition push_message (fault : option string) (data : message_data) (d : db)
  : string + db :=
  match fault with
  | Some msg => inl msg
  | None =>
      inr {| subscribers := subscribers d;
             messages := messages d ++ [(next_key d, data)];
             next_key := next_key d + 1 |}
  end.

(** [({ id, ...data })] for one entry of [Object.entries(snapshot.val())] *)
Definition subscriber_json (entry : Z * subscriber_data) : jsval :=
  let (id, data) := entry in
  JObj [("id", JNum id); ("email", JStr (email data));
        ("subscribed_at", JNum (subscribed_at data))].

Definition message_json (entry : Z * message_data) : jsval :=
  let (id, data) := entry in
  JObj [("id", JNum id); ("name", JStr (msg_name data));
        ("email", JStr (msg_email data)); ("message", JStr (msg_message data));
        ("sent_at", JNum (sent_at data))].

(** [snapshot.val() ? Object.entries(snapshot.val()).map(f) : []]: the value
    of a reference without children is [null]. *)
Definition entries {A : Type} (f : Z * A -> jsval) (children : list (Z * A)) : jsval :=
  match children with
  | [] => JArr []
  | _ :: _ => JArr (map f children)
  end.

End Firebase.

(** ** [src/server.js]: Firebase, mails awaited *)

Module FirebaseServer.

(** The write and the send are awaited in one [try] block: the answer is
    given after both, and an error of either reaches the [catch]. *)
Definition subscribe (fault send_error : option string) (now : Z) (req : request)
    (s : Firebase.db * list mail) : response * (Firebase.db * list mail) :=
  let (d, outbox) := s in
  match read_subscribe (req_body req) with
  | Rejected r => (r, s)
  | Accepted email =>
      match Firebase.push_subscriber fault
              {| Firebase.email := email; Firebase.subscribed_at := now |} d with
      | inl _ => (res_error 500 "Failed to subscribe", s)
      | inr d' =>
          match send_error with
          | Some _ => (res_error 500 "Failed to subscribe", (d', outbox))
          | None =>
              (res_message "Successfully subscribed!",
               (d', sgMail_send None (subscriberMsg email) outbox))
          end
      end
  end.

Definition contact (adminEmail : string) (fault send_error : option string) (now : Z)
    (req : request) (s : Firebase.db * list mail) : response * (Firebase.db * list mail) :=
  let (d, outbox) := s in
  match read_contact (req_body req) with
  | Rejected r => (r, s)
  | Accepted (name, email, message) =>
      match Firebase.push_message fault
              {| Firebase.msg_name := name; Firebase.msg_email := email;
                 Firebase.msg_message := message; Firebase.sent_at := now |} d with
      | inl _ => (res_error 500 "Failed to send message", s)
      | inr d' =>
          match send_error with
          | Some _ => (res_error 500 "Failed to send message", (d', outbox))
          | None =>
              (res_message "Message sent successfully!",
               (d', sgMail_send None (adminMsg adminEmail) outbox))
          end
      end
  end.

(** [fault] is the error with which [once('value')] is rejected, if it is. *)
Definition listSubscribers (fault : option string) (s : Firebase.db * list mail)
  : response * (Firebase.db * list mail) :=
  match fault with
  | Some _ => (res_error 500 "Failed to retrieve subscribers", s)
  | None =>
      (res_json (Firebase.entries Firebase.subscriber_json (Firebase.subscribers (fst s))), s)
  end.

Definition listMessages (fault : option string) (s : Firebase.db * list mail)
  : response * (Firebase.db * list mail) :=
  match fault with
  | Some _ => (res_error 500 "Failed to retrieve messages", s)
  | None =>
      (res_json (Firebase.entries Firebase.message_json (Firebase.messages (fst s))), s)
  end.

Definition post_subscribe (fault send_error : option string) (now : Z) (req : request) :=
  rate_limited subscribeLimiter keyGenerator now req
    (subscribe fault send_error now req).

Definition post_contact (adminEmail : string) (fault send_error : option string)
    (now : Z) (req : request) :=
  rate_limited contactLimiter keyGenerator now req
    (contact adminEmail fault send_error now req).

Definition get_subscribers (apiKey : string) (fault : option string) (req : request) :=
  authenticate apiKey req (listSubscribers fault).

Definition get_messages (apiKey : string) (fault : option string) (req : request) :=
  authenticate apiKey req (listMessages fault).

End FirebaseServer.

(** ** Reference notions used by the statements *)

(** The language of a pattern. *)
Inductive matches : regex -> list ascii -> Prop :=
| matches_eps : matches REps []
| matches_class p c : p c = true -> matches (RClass p) [c]
| matches_alt_l r1 r2 l : matches r1 l -> matches (RAlt r1 r2) l
| matches_alt_r r1 r2 l : matches r2 l -> matches (RAlt r1 r2) l
| matches_cat r1 r2 l1 l2 :
    matches r1 l1 -> matches r2 l2 -> matches (RCat r1 r2) (l1 ++ l2)
| matches_star_nil r : matches (RStar r) []
| matches_star_more r l1 l2 :
    matches r l1 -> matches (RStar r) l2 -> matches (RStar r) (l1 ++ l2).

Definition no_space (l : list ascii) : Prop :=
  Forall (fun c => is_js_space c = false) l.

(** An address shape: a local part that is not empty and has no white
    space, one ["@"] that separates it from the domain, and a domain without
    white space that is dotted in the sense of [dotted]. *)
Definition address_shape (dotted : list ascii -> Prop) (s : string) : Prop :=
  exists local domain : list ascii,
    chars s = local ++ "@"%char :: domain /\
    local <> [] /\ no_space local /\
    ("@"%char ∉ local) /\ ("@"%char ∉ domain) /\
    no_space domain /\ dotted domain.

(** The shape in the words of the specification: the domain contains a dot. *)
Definition permissive_shape : string -> Prop :=
  address_shape (fun domain => "."%char ∈ domain).

(** A dot with at least one character on each side of it. *)
Definition inner_dot (domain : list ascii) : Prop :=
  exists a b : list ascii, domain = a ++ "."%char :: b /\ a <> [] /\ b <> [].

Definition permissive_shape_inner_dot : string -> Prop :=
  address_shape inner_dot.

(** Every character of [l] is in the class [p]. *)
Definition all_in (p : ascii -> bool) (l : list ascii) : Prop :=
  Forall (fun c => p c = true) l.

(** The instants at which the store let requests of [key] through. *)
Definition hits_of (store : gmap string (list Z)) (key : string) : list Z :=
  default [] (store !! key).

(** The number of instants of [hits] in the window of length [windowMs l]
    that starts at [w]. *)
Definition count_from (l : limiter) (w : Z) (hits : list Z) : Z :=
  Z.of_nat (length (filter (fun t => w <= t < w + windowMs l) hits)).

(** No window holds more than [max l] of the instants. *)
Definition window_ok (l : limiter) (hits : list Z) : Prop :=
  forall w, count_from l w hits <= max l.

(** A route answers a request whose key has used up its window with the
    limiter's rejection, whatever the request carries, and changes nothing. *)
Definition throttled_route {S : Type} (l : limiter) (key : request -> string)
    (route : Z -> request -> gmap string (list Z) -> S ->
             response * S * gmap string (list Z)) : Prop :=
  forall now req store s,
    max l <= window_count l now (hits_of store (key req)) ->
    route now req store s = (too_many_requests l, s, store).

(** The first comma-separated segment of a header value. *)
Definition first_segment (h first : list ascii) : Prop :=
  exists rest, h = first ++ rest /\ (","%char ∉ first) /\
               (rest = [] \/ exists r, rest = ","%char :: r).

(** A body field that is missing or is not a string. *)
Definition not_a_string (body : jsval) (k : string) : Prop :=
  is_string (js_get body k) = false.

(** The body carries an email string that fails the shape check. *)
Definition malformed_email (body : jsval) : Prop :=
  exists s, js_get body "email" = JStr s /\ regex_test emailRegex s = false.

(** What the unique insert gives a subscribe handler over the SQLite store:
    a valid email that is not stored is stored once and answered 200; one
    that is stored is answered 409 and nothing is written; an engine error
    that is not the constraint is answered 500; no email is ever stored
    twice. *)
Definition subscribes_uniquely
    (subscribe : option string -> Z -> request -> Sqlite.db -> response * Sqlite.db)
  : Prop :=
  forall now req d email,
    validate_subscribe (req_body req) = Accepted email ->
    (Sqlite.email_stored email d = false ->
       exists row,
         Sqlite.sub_email row = email /\
         status (subscribe None now req d).1 = 200 /\
         Sqlite.subscribers (subscribe None now req d).2 = Sqlite.subscribers d ++ [row] /\
         Sqlite.email_stored email (subscribe None now req d).2 = true) /\
    (Sqlite.email_stored email d = true ->
       subscribe None now req d = (res_error 409 "Email already subscribed", d)) /\
    (forall err, includes err "UNIQUE constraint failed" = false ->
       subscribe (Some err) now req d = (res_error 500 "Failed to subscribe", d)) /\
    (forall fault,
       NoDup (map Sqlite.sub_email (Sqlite.subscribers d)) ->
       NoDup (map Sqlite.sub_email (Sqlite.subscribers (subscribe fault now req d).2))).

(** A listing over the SQLite store answers 200 with all rows of the
    table, newer rows before older ones. *)
Definition lists_newest_first {R : Type} (newer : R -> R -> Prop) (json : R -> jsval)
    (table : list R) (answer : response) : Prop :=
  exists rows,
    answer = res_json (JArr (map json rows)) /\
    rows ≡ₚ table /\
    StronglySorted newer rows.

(** Sample requests. *)
Definition feed_request (url : option string) : request :=
  {| req_ip := "203.0.113.7"; req_forwarded_for := None; req_auth := None;
     req_query_url := url; req_body := JObj [] |}.

Definition post_request (forwarded_for : option string) (body : jsval) : request :=
  {| req_ip := "203.0.113.7"; req_forwarded_for := forwarded_for; req_auth := None;
     req_query_url := None; req_body := body |}.

Definition admin_request (user : option credentials) : request :=
  {| req_ip := "203.0.113.7"; req_forwarded_for := None; req_auth := user;
     req_query_url := None; req_body := JObj [] |}.

Definition email_body (email : string) : jsval := JObj [("email", JStr email)].

Definition contact_body (name email message : string) : jsval :=
  JObj [("name", JStr name); ("email", JStr email); ("message", JStr message)].

(** ** CORS middleware *)

(** The headers the first [app.use] sets on every response before the
    routes run (the three files with a store). *)
Definition cors_headers : list (string * string) :=
  [("Access-Control-Allow-Origin", "*");
   ("Access-Control-Allow-Headers",
    "Origin, X-Requested-With, Content-Type, Accept, Authorization");
   ("Access-Control-Allow-Methods", "GET, POST, OPTIONS")].

(** The same middleware in [src/unnamed/part_002]. *)
Definition cors_headers_feed_only : list (string * string) :=
  [("Access-Control-Allow-Origin", "*");
   ("Access-Control-Allow-Headers", "Origin, X-Requested-With, Content-Type, Accept")].

(** A response of a route, with the headers set ahead of it. *)
Definition cors (r : response) : response :=
  {| status := status r; headers := cors_headers ++ headers r; body := body r |}.

(** ** Start-up checks *)

(** The outcome of loading the file: [process.exit(code)] or the constants
    the routes close over. *)
Inductive startup (A : Type) : Type :=
| Exit (code : Z)
| Started (config : A).
Arguments Exit {A} code.
Arguments Started {A} config.

(** [process.env.NAME]: a string, or [undefined] when the variable is not set. *)
Definition env_get (env : gmap string string) (name : string) : jsval :=
  match env !! name with
  | Some v => JStr v
  | None => JUndefined
  end.

(** [process.env.PORT || fallback] *)
Definition port_or (fallback : Z) (env : gmap string string) : jsval :=
  if truthy (env_get env "PORT") then env_get env "PORT" else JNum fallback.

Record sqlite_config : Type := { sq_apiKey : string; sq_PORT : jsval }.

Record mail_config : Type := {
  cfg_apiKey : string;
  cfg_sendgridApiKey : string;
  cfg_adminEmail : string;
  cfg_PORT : jsval
}.

(** [src/unnamed/part_000]: [if (!apiKey) process.exit(1)]. *)
Definition startup_sqlite (env : gmap string string) : startup sqlite_config :=
  match env_get env "API_KEY" with
  | JStr apiKey =>
      if negb (truthy (JStr apiKey)) then Exit 1
      else Started {| sq_apiKey := apiKey; sq_PORT := port_or 10000 env |}
  | _ => Exit 1
  end.

(** [src/unnamed/part_001] and [src/server.js]: the three checks of the
    environment in the order of the file, each ending the process with
    code 1.  Opening the database file, and in [src/server.js] loading the
    service-account file, are not part of it. *)
Definition startup_mail (env : gmap string string) : startup mail_config :=
  match env_get env "API_KEY" with
  | JStr apiKey =>
      if negb (truthy (JStr apiKey)) then Exit 1
      else
        match env_get env "SENDGRID_API_KEY" with
        | JStr sendgridApiKey =>
            if negb (truthy (JStr sendgridApiKey)) then Exit 1
            else
              match env_get env "ADMIN_EMAIL" with
              | JStr adminEmail =>
                  if negb (truthy (JStr adminEmail)) then Exit 1
                  else Started {| cfg_apiKey := apiKey;
                                  cfg_sendgridApiKey := sendgridApiKey;
                                  cfg_adminEmail := adminEmail;
                                  cfg_PORT := port_or 10000 env |}
              | _ => Exit 1
              end
        | _ => Exit 1
        end
  | _ => Exit 1
  end.

(** ** The servers as a whole *)

(** One request to one of the five routes, with what the environment
    answers while it is handled: the origin of the feed, an error of the
    store, an error of the mail provider (looked at by the servers that send
    mail), the clock. *)
Inductive event : Type :=
| FetchFeed (net : string -> fetch_result) (now : Z) (req : request)
| Subscribe (fault send_error : option string) (now : Z) (req : request)
| Contact (fault send_error : option string) (now : Z) (req : request)
| ListSubscribers (fault : option string) (req : request)
| ListMessages (fault : option string) (req : request).

Definition is_subscribe (ev : event) : bool :=
  match ev with Subscribe _ _ _ _ => true | _ => false end.

Definition is_contact (ev : event) : bool :=
  match ev with Contact _ _ _ _ => true | _ => false end.

(** The process state of [src/unnamed/part_000]: the feed cache, the open
    database and the stores of the two limiters. *)
Record state : Type := {
  st_feeds : gmap string cache_entry;
  st_db : Sqlite.db;
  st_subscribe_hits : gmap string (list Z);
  st_contact_hits : gmap string (list Z)
}.

(** The same for the two servers that send mail, over the store [D], with
    the mails the provider accepted. *)
Record mail_state (D : Type) : Type := {
  ms_feeds : gmap string cache_entry;
  ms_db : D;
  ms_outbox : list mail;
  ms_subscribe_hits : gmap string (list Z);
  ms_contact_hits : gmap string (list Z)
}.
Arguments ms_feeds {D} _.
Arguments ms_db {D} _.
Arguments ms_outbox {D} _.
Arguments ms_subscribe_hits {D} _.
Arguments ms_contact_hits {D} _.

Module SqliteApp.

Definition step (apiKey : string) (ev : event) (st : state) : response * state :=
  match ev with
  | FetchFeed net now req =>
      let o := fetch_feed net now req (st_feeds st) in
      (cors (feed_response o),
       {| st_feeds := feed_cache o; st_db := st_db st;
          st_subscribe_hits := st_subscribe_hits st;
          st_contact_hits := st_contact_hits st |})
  | Subscribe fault _ now req =>
      let '(r, d, hits) :=
        SqliteServer.post_subscribe fault now req (st_subscribe_hits st) (st_db st) in
      (cors r,
       {| st_feeds := st_feeds st; st_db := d;
          st_subscribe_hits := hits; st_contact_hits := st_contact_hits st |})
  | Contact fault _ now req =>
      let '(r, d, hits) :=
        SqliteServer.post_contact fault now req (st_contact_hits st) (st_db st) in
      (cors r,
       {| st_feeds := st_feeds st; st_db := d;
          st_subscribe_hits := st_subscribe_hits st; st_contact_hits := hits |})
  | ListSubscribers fault req =>
      let (r, d) := SqliteServer.get_subscribers apiKey fault req (st_db st) in
      (cors r,
       {| st_feeds := st_feeds st; st_db := d;
          st_subscribe_hits := st_subscribe_hits st;
          st_contact_hits := st_contact_hits st |})
  | ListMessages fault req =>
      let (r, d) := SqliteServer.get_messages apiKey fault req (st_db st) in
      (cors r,
       {| st_feeds := st_feeds st; st_db := d;
          st_subscribe_hits := st_subscribe_hits st;
          st_contact_hits := st_contact_hits st |})
  end.

Fixpoint run (apiKey : string) (evs : list event) (st : state) : list response * state :=
  match evs with
  | [] => ([], st)
  | ev :: evs' =>
      let (r, st1) := step apiKey ev st in
      let (rs, st2) := run apiKey evs' st1 in
      (r :: rs, st2)
  end.

End SqliteApp.

Module SqliteMailApp.

Definition step (apiKey adminEmail : string) (ev : event) (st : mail_state Sqlite.db)
  : response * mail_state Sqlite.db :=
  match ev with
  | FetchFeed net now req =>
      let o := fetch_feed net now req (ms_feeds st) in
      (cors (feed_response o),
       {| ms_feeds := feed_cache o; ms_db := ms_db st; ms_outbox := ms_outbox st;
          ms_subscribe_hits := ms_subscribe_hits st;
          ms_contact_hits := ms_contact_hits st |})
  | Subscribe fault send_error now req =>
      let '(r, (d, outbox), hits) :=
        SqliteMailServer.post_subscribe fault send_error now req
          (ms_subscribe_hits st) (ms_db st, ms_outbox st) in
      (cors r,
       {| ms_feeds := ms_feeds st; ms_db := d; ms_outbox := outbox;
          ms_subscribe_hits := hits; ms_contact_hits := ms_contact_hits st |})
  | Contact fault send_error now req =>
      let '(r, (d, outbox), hits) :=
        SqliteMailServer.post_contact adminEmail fault send_error now req
          (ms_contact_hits st) (ms_db st, ms_outbox st) in
      (cors r,
       {| ms_feeds := ms_feeds st; ms_db := d; ms_outbox := outbox;
          ms_subscribe_hits := ms_subscribe_hits st; ms_contact_hits := hits |})
  | ListSubscribers fault req =>
      let '(r, (d, outbox)) :=
        SqliteMailServer.get_subscribers apiKey fault req (ms_db st, ms_outbox st) in
      (cors r,
       {| ms_feeds := ms_feeds st; ms_db := d; ms_outbox := outbox;
          ms_subscribe_hits := ms_subscribe_hits st;
          ms_contact_hits := ms_contact_hits st |})
  | ListMessages fault req =>
      let '(r, (d, outbox)) :=
        SqliteMailServer.get_messages apiKey fault req (ms_db st, ms_outbox st) in
      (cors r,
       {| ms_feeds := ms_feeds st; ms_db := d; ms_outbox := outbox;
          ms_subscribe_hits := ms_subscribe_hits st;
          ms_contact_hits := ms_contact_hits st |})
  end.

Fixpoint run (apiKey adminEmail : string) (evs : list event) (st : mail_state Sqlite.db)
  : list response * mail_state Sqlite.db :=
  match evs with
  | [] => ([], st)
  | ev :: evs' =>
      let (r, st1) := step apiKey adminEmail ev st in
      let (rs, st2) := run apiKey adminEmail evs' st1 in
      (r :: rs, st2)
  end.

End SqliteMailApp.

Module FirebaseApp.

Definition step (apiKey adminEmail : string) (ev : event) (st : mail_state Firebase.db)
  : response * mail_state Firebase.db :=
  match ev with
  | FetchFeed net now req =>
      let o := fetch_feed net now req (ms_feeds st) in
      (cors (feed_response o),
       {| ms_feeds := feed_cache o; ms_db := ms_db st; ms_outbox := ms_outbox st;
          ms_subscribe_hits := ms_subscribe_hits st;
          ms_contact_hits := ms_contact_hits st |})
  | Subscribe fault send_error now req =>
      let '(r, (d, outbox), hits) :=
        FirebaseServer.post_subscribe fault send_error now req
          (ms_subscribe_hits st) (ms_db st, ms_outbox st) in
      (cors r,
       {| ms_feeds := ms_feeds st; ms_db := d; ms_outbox := outbox;
          ms_subscribe_hits := hits; ms_contact_hits := ms_contact_hits st |})
  | Contact fault send_error now req =>
      let '(r, (d, outbox), hits) :=
        FirebaseServer.post_contact adminEmail fault send_error now req
          (ms_contact_hits st) (ms_db st, ms_outbox st) in
      (cors r,
       {| ms_feeds := ms_feeds st; ms_db := d; ms_outbox := outbox;
          ms_subscribe_hits := ms_subscribe_hits st; ms_contact_hits := hits |})
  | ListSubscribers fault req =>
      let '(r, (d, outbox)) :=
        FirebaseServer.get_subscribers apiKey fault req (ms_db st, ms_outbox st) in
      (cors r,
       {| ms_feeds := ms_feeds st; ms_db := d; ms_outbox := outbox;
          ms_subscribe_hits := ms_subscribe_hits st;
          ms_contact_hits := ms_contact_hits st |})
  | ListMessages fault req =>
      let '(r, (d, outbox)) :=
        FirebaseServer.get_messages apiKey fault req (ms_db st, ms_outbox st) in
      (cors r,
       {| ms_feeds := ms_feeds st; ms_db := d; ms_outbox := outbox;
          ms_subscribe_hits := ms_subscribe_hits st;
          ms_contact_hits := ms_contact_hits st |})
  end.

Fixpoint run (apiKey adminEmail : string) (evs : list event) (st : mail_state Firebase.db)
  : list response * mail_state Firebase.db :=
  match evs with
  | [] => ([], st)
  | ev :: evs' =>
      let (r, st1) := step apiKey adminEmail ev st in
      let (rs, st2) := run apiKey adminEmail evs' st1 in
      (r :: rs, st2)
  end.

End FirebaseApp.

(** ** Notions used by the statements about whole runs *)

(** How many of the requests selected by [want] were answered [code]. *)
Fixpoint answered (want : event -> bool) (code : Z) (evs : list event)
    (rs : list response) : nat :=
  match evs, rs with
  | ev :: evs', r :: rs' =>
      (if want ev && Z.eqb (status r) code then 1 else 0)%nat
      + answered want code evs' rs'
  | _, _ => 0%nat
  end.

(** The instants of the requests selected by [want] that came from the
    client [key] and were answered by the handler of their route, not by the
    rejection of its limiter. *)
Fixpoint let_through (want : event -> bool) (key_of : request -> string) (key : string)
    (evs : list event) (rs : list response) : list Z :=
  match evs, rs with
  | ev :: evs', r :: rs' =>
      match ev with
      | Subscribe _ _ now req | Contact _ _ now req =>
          if want ev && String.eqb (key_of req) key && negb (Z.eqb (status r) 429)
          then now :: let_through want key_of key evs' rs'
          else let_through want key_of key evs' rs'
      | _ => let_through want key_of key evs' rs'
      end
  | _, _ => []
  end.

(** The stores of the two limiters hold no window with more than the limit. *)
Definition hits_ok (subscribe_hits contact_hits : gmap string (list Z)) : Prop :=
  (forall k, window_ok subscribeLimiter (hits_of subscribe_hits k)) /\
  (forall k, window_ok contactLimiter (hits_of contact_hits k)).

(** The state of the mail server of [part_001] seen without its outbox. *)
Definition forget_outbox (st : mail_state Sqlite.db) : state :=
  {| st_feeds := ms_feeds st; st_db := ms_db st;
     st_subscribe_hits := ms_subscribe_hits st;
     st_contact_hits := ms_contact_hits st |}.

(** Keys that grow along the list and stay under [bound]. *)
Definition keys_ok (bound : Z -> Prop) (keys : list Z) : Prop :=
  StronglySorted Z.lt keys /\ Forall bound keys.

(** What every database written by the SQLite servers satisfies: row ids
    grow along each table and do not exceed the table's sequence value, no
    email is subscribed twice, and every stored field went through the
    validation of its handler. *)
Definition sqlite_db_ok (d : Sqlite.db) : Prop :=
  keys_ok (fun id => id <= Sqlite.subscribers_seq d) (map Sqlite.sub_id (Sqlite.subscribers d)) /\
  keys_ok (fun id => id <= Sqlite.messages_seq d) (map Sqlite.msg_id (Sqlite.messages d)) /\
  NoDup (map Sqlite.sub_email (Sqlite.subscribers d)) /\
  Forall (fun r => regex_test emailRegex (Sqlite.sub_email r) = true) (Sqlite.subscribers d) /\
  Forall (fun r => regex_test emailRegex (Sqlite.msg_email r) = true /\
                   Sqlite.msg_name r <> "" /\ Sqlite.msg_message r <> "")
    (Sqlite.messages d).

(** What every value written by the Firebase server satisfies: every stored
    field went through the validation of its handler. *)
Definition firebase_fields_ok (d : Firebase.db) : Prop :=
  Forall (fun c => regex_test emailRegex (Firebase.email c.2) = true) (Firebase.subscribers d) /\
  Forall (fun c => regex_test emailRegex (Firebase.msg_email c.2) = true /\
                   Firebase.msg_name c.2 <> "" /\ Firebase.msg_message c.2 <> "")
    (Firebase.messages d).

(** The clock readings of the requests never go back, starting at [from]. *)
Fixpoint clock_ordered (from : Z) (evs : list event) : Prop :=
  match evs with
  | [] => True
  | FetchFeed _ now _ :: evs' => from <= now /\ clock_ordered now evs'
  | Subscribe _ _ now _ :: evs' => from <= now /\ clock_ordered now evs'
  | Contact _ _ now _ :: evs' => from <= now /\ clock_ordered now evs'
  | ListSubscribers _ _ :: evs' => clock_ordered from evs'
  | ListMessages _ _ :: evs' => clock_ordered from evs'
  end.

(** Every mail is the notice to the admin address or the confirmation of an
    address that is among [emails]. *)
Definition mails_accounted (adminEmail : string) (emails : list string)
    (outbox : list mail) : Prop :=
  Forall (fun m => m = adminMsg adminEmail \/
                   exists email, email ∈ emails /\ m = subscriberMsg email) outbox.

(** The state of a server that has just started on an empty store. *)
Definition initial_state : state :=
  {| st_feeds := ∅; st_db := Sqlite.empty; st_subscribe_hits := ∅; st_contact_hits := ∅ |}.

Definition initial_mail_state {D : Type} (d : D) : mail_state D :=
  {| ms_feeds := ∅; ms_db := d; ms_outbox := [];
     ms_subscribe_hits := ∅; ms_contact_hits := ∅ |}.

(** Instants that never go back along the list and are not after [clock]. *)
Definition times_ok (clock : Z) (times : list Z) : Prop :=
  StronglySorted Z.le times /\ Forall (fun t => t <= clock) times.

(** The children of both references carry timestamps in the order of their
    keys, none after [clock]. *)
Definition firebase_times_ok (clock : Z) (d : Firebase.db) : Prop :=
  times_ok clock (map (fun c => Firebase.subscribed_at c.2) (Firebase.subscribers d)) /\
  times_ok clock (map (fun c => Firebase.sent_at c.2) (Firebase.messages d)).

(** The addresses stored as subscribers. *)
Definition sqlite_emails (d : Sqlite.db) : list string :=
  map Sqlite.sub_email (Sqlite.subscribers d).

Definition firebase_emails (d : Firebase.db) : list string :=
  map (fun c => Firebase.email c.2) (Firebase.subscribers d).





(** * Properties *)

(** ** The email pattern on sample addresses *)

Example emailRegex_plain : regex_test emailRegex "a@b.com" = true.
Proof. reflexivity. Qed.
Example emailRegex_no_at : regex_test emailRegex "not-an-email" = false.
Proof. reflexivity. Qed.
Example emailRegex_subdomain : regex_test emailRegex "jo.e@mail.example.org" = true.
Proof. reflexivity. Qed.
Example emailRegex_space : regex_test emailRegex "a b@c.d" = false.
Proof. reflexivity. Qed.
Example emailRegex_leading_dot : regex_test emailRegex "a@.com" = false.
Proof. reflexivity. Qed.
Example emailRegex_trailing_dot : regex_test emailRegex "a@b." = false.
Proof. reflexivity. Qed.
Example emailRegex_two_ats : regex_test emailRegex "a@b@c.d" = false.
Proof. reflexivity. Qed.

(** ** The matcher decides the language of the pattern *)

Section RegexCorrect.

Lemma matches_nil_nullable r : matches r [] -> nullable r = true.
Proof.
  intros H. remember [] as l eqn:El.
  induction H as [| | | | r1 r2 l1 l2 H1 IH1 H2 IH2 | |]; simpl; try done.
  - rewrite IHmatches by done. done.
  - rewrite IHmatches by done. apply orb_true_r.
  - apply app_eq_nil in El as [-> ->].
    rewrite IH1, IH2 by done. done.
Qed.

Lemma nullable_matches_nil r : nullable r = true -> matches r [].
Proof.
  induction r as [| | p | r1 IH1 r2 IH2 | r1 IH1 r2 IH2 | r IH]; simpl; intros H.
  - done.
  - constructor.
  - done.
  - apply orb_true_iff in H as [H | H]; [apply matches_alt_l | apply matches_alt_r]; auto.
  - apply andb_true_iff in H as [H1 H2].
    change (@nil ascii) with (@nil ascii ++ []). constructor; auto.
  - constructor.
Qed.

(** A repetition that matches a string starting with [c] starts with an
    iteration that is not empty. *)
Lemma matches_star_cons r c l :
  matches (RStar r) (c :: l) ->
  exists l1 l2, l = l1 ++ l2 /\ matches r (c :: l1) /\ matches (RStar r) l2.
Proof.
  intros H. remember (RStar r) as r' eqn:Er. remember (c :: l) as l' eqn:El.
  revert l El.
  induction H as [| | | | | | r0 l1 l2 H1 _ H2 IH2]; intros k El; try done.
  injection Er as ->.
  destruct l1 as [| c1 l1]; simpl in El.
  - apply IH2; done.
  - injection El as -> <-. exists l1, l2. done.
Qed.

Lemma matches_cat_inv r1 r2 l :
  matches (RCat r1 r2) l ->
  exists l1 l2, l = l1 ++ l2 /\ matches r1 l1 /\ matches r2 l2.
Proof. intros H. inversion H; subst. eauto. Qed.

Lemma matches_alt_inv r1 r2 l :
  matches (RAlt r1 r2) l -> matches r1 l \/ matches r2 l.
Proof. intros H. inversion H; subst; auto. Qed.

Lemma matches_class_inv p l :
  matches (RClass p) l -> exists c, l = [c] /\ p c = true.
Proof. intros H. inversion H; subst. eauto. Qed.

Lemma matches_cat_cons c r1 r2 l1 l2 :
  matches r1 (c :: l1) -> matches r2 l2 -> matches (RCat r1 r2) (c :: l1 ++ l2).
Proof. intros H1 H2. change (c :: l1 ++ l2) with ((c :: l1) ++ l2). by constructor. Qed.

Lemma deriv_matches c r l : matches (deriv c r) l <-> matches r (c :: l).
Proof.
  revert l.
  induction r as [| | p | r1 IH1 r2 IH2 | r1 IH1 r2 IH2 | r IH]; simpl; intros l.
  - split; inversion 1.
  - split; inversion 1.
  - destruct (p c) eqn:Hp; split; intros H.
    + inversion H; subst. by constructor.
    + apply matches_class_inv in H as (c' & [= -> ->] & _). constructor.
    + inversion H.
    + apply matches_class_inv in H as (c' & [= -> ->] & Hc). congruence.
  - split; intros [H | H]%matches_alt_inv;
      (apply matches_alt_l, IH1, H) || (apply matches_alt_r, IH2, H).
  - assert (Hcat : forall k, matches (RCat (deriv c r1) r2) k ->
                              matches (RCat r1 r2) (c :: k)).
    { intros k (l1 & l2 & -> & Ha & Hb)%matches_cat_inv.
      apply matches_cat_cons; [by apply IH1 | done]. }
    assert (Hinv : forall k, matches (RCat r1 r2) (c :: k) ->
                              matches (RCat (deriv c r1) r2) k \/
                              (matches r1 [] /\ matches r2 (c :: k))).
    { intros k (l1 & l2 & Hl & Ha & Hb)%matches_cat_inv.
      destruct l1 as [| c1 l1]; simpl in Hl.
      - right. subst. done.
      - injection Hl as -> ->. left. constructor; [by apply IH1 | done]. }
    destruct (nullable r1) eqn:Hn; split; intros H.
    + apply matches_alt_inv in H as [H | H]; [by apply Hcat |].
      change (c :: l) with ([] ++ c :: l). constructor.
      * by apply nullable_matches_nil.
      * by apply IH2.
    + apply Hinv in H as [H | [_ H]].
      * by apply matches_alt_l.
      * by apply matches_alt_r, IH2.
    + by apply Hcat.
    + apply Hinv in H as [H | [H _]]; [done |].
      apply matches_nil_nullable in H. congruence.
  - split; intros H.
    + apply matches_cat_inv in H as (l1 & l2 & -> & Ha & Hb).
      change (c :: l1 ++ l2) with ((c :: l1) ++ l2).
      constructor; [by apply IH | done].
    + apply matches_star_cons in H as (l1 & l2 & -> & Ha & Hb).
      constructor; [by apply IH | done].
Qed.

Lemma accepts_matches r l : accepts r l = true <-> matches r l.
Proof.
  revert r. induction l as [| c l IH]; intros r; simpl.
  - split; [apply nullable_matches_nil | apply matches_nil_nullable].
  - rewrite IH. apply deriv_matches.
Qed.

End RegexCorrect.

(** ** The language of [emailRegex] *)

Section EmailShape.

Lemma matches_star_class p l : matches (RStar (RClass p)) l <-> all_in p l.
Proof.
  split.
  - intros H. remember (RStar (RClass p)) as r eqn:Er.
    induction H as [| | | | | | r0 l1 l2 H1 _ H2 IH2]; try done.
    + constructor.
    + injection Er as ->.
      apply matches_class_inv in H1 as (c & -> & Hc).
      constructor; [done | by apply IH2].
  - induction 1 as [| c l Hc _ IH].
    + constructor.
    + change (c :: l) with ([c] ++ l). constructor; [by constructor | done].
Qed.

Lemma matches_plus_class p l :
  matches (RPlus (RClass p)) l <-> l <> [] /\ all_in p l.
Proof.
  unfold RPlus. split.
  - intros (l1 & l2 & -> & (c & -> & Hc)%matches_class_inv & H2)%matches_cat_inv.
    split; [done |]. constructor; [done | by apply matches_star_class].
  - intros [Hne Hall]. destruct Hall as [| c l Hc Hall]; [done |].
    change (c :: l) with ([c] ++ l).
    constructor; [by constructor | by apply matches_star_class].
Qed.

Lemma matches_char c l : matches (RChar c) l <-> l = [c].
Proof.
  unfold RChar. split.
  - intros (c' & -> & Hc)%matches_class_inv.
    apply Ascii.eqb_eq in Hc. by subst.
  - intros ->. constructor. apply Ascii.eqb_refl.
Qed.

Lemma matches_emailRegex l :
  matches emailRegex l <->
  exists x a b,
    l = x ++ "@"%char :: a ++ "."%char :: b /\
    (x <> [] /\ all_in not_space_or_at x) /\
    (a <> [] /\ all_in not_space_or_at a) /\
    (b <> [] /\ all_in not_space_or_at b).
Proof.
  unfold emailRegex. split.
  - intros (x & l1 & -> & Hx & H1)%matches_cat_inv.
    apply matches_cat_inv in H1 as (at_ & l2 & -> & Hat & H2).
    apply matches_cat_inv in H2 as (a & l3 & -> & Ha & H3).
    apply matches_cat_inv in H3 as (dot & b & -> & Hdot & Hb).
    apply matches_char in Hat as ->. apply matches_char in Hdot as ->.
    apply matches_plus_class in Hx, Ha, Hb.
    exists x, a, b. done.
  - intros (x & a & b & -> & Hx & Ha & Hb).
    apply matches_plus_class in Hx, Ha, Hb.
    constructor; [done |].
    change ("@"%char :: a ++ "."%char :: b) with (["@"%char] ++ a ++ ["."%char] ++ b).
    constructor; [by apply matches_char |].
    constructor; [done |].
    constructor; [by apply matches_char | done].
Qed.

Lemma not_space_or_at_true c :
  not_space_or_at c = true <-> is_js_space c = false /\ c <> "@"%char.
Proof.
  unfold not_space_or_at.
  rewrite andb_true_iff, !negb_true_iff, Ascii.eqb_neq. done.
Qed.

Lemma all_in_not_space_or_at l :
  all_in not_space_or_at l <-> no_space l /\ ("@"%char ∉ l).
Proof.
  unfold all_in, no_space. rewrite !Forall_forall. split.
  - intros H. split.
    + intros c Hc. by apply not_space_or_at_true, H.
    + intros Hat. apply H, not_space_or_at_true in Hat as [_ Hne]. done.
  - intros [Hs Hat] c Hc. apply not_space_or_at_true. split.
    + by apply Hs.
    + intros ->. done.
Qed.

End EmailShape.

(** C7 (as amended).  An email string passes the validation of the
    subscribe and contact handlers exactly when it has a local part that is
    not empty and free of white space, a single separating at-sign, and a
    domain free of white space with a dot that is neither its first nor its
    last character. *)
Theorem emailRegex_test_iff_inner_dot_shape (s : string) :
  regex_test emailRegex s = true <-> permissive_shape_inner_dot s.
Proof.
  unfold regex_test, permissive_shape_inner_dot, address_shape.
  rewrite accepts_matches, matches_emailRegex. split.
  - intros (x & a & b & Hs & [Hx Hxall] & [Ha Haall] & [Hb Hball]).
    apply all_in_not_space_or_at in Hxall as [Hxs Hxat].
    apply all_in_not_space_or_at in Haall as [Has Haat].
    apply all_in_not_space_or_at in Hball as [Hbs Hbat].
    exists x, (a ++ "."%char :: b). repeat split; try done.
    + rewrite elem_of_app, elem_of_cons. intros [? | [? | ?]]; done.
    + apply Forall_app. split; [done |]. constructor; done.
    + exists a, b. done.
  - intros (x & d & Hs & Hx & Hxs & Hxat & Hdat & Hds & a & b & -> & Ha & Hb).
    apply Forall_app in Hds as [Has Hbs]. apply Forall_cons in Hbs as [_ Hbs].
    rewrite elem_of_app, elem_of_cons in Hdat.
    exists x, a, b. repeat split; try done; apply all_in_not_space_or_at; split; try done.
    + intros ?. apply Hdat. by left.
    + intros ?. apply Hdat. right. by right.
Qed.

(** The address ["a@.com"] has the shape the specification words describe,
    with a domain that contains a dot, and the pattern rejects it. *)
Lemma emailRegex_rejects_leading_dot_domain :
  ~ (regex_test emailRegex "a@.com" = true <-> permissive_shape "a@.com").
Proof.
  intros [_ H].
  assert (Hshape : permissive_shape "a@.com").
  { exists ["a"%char], (chars ".com"). repeat split.
    - done.
    - by constructor.
    - intros Hin%list_elem_of_In. simpl in Hin. by destruct Hin.
    - intros Hin%list_elem_of_In. simpl in Hin. by destruct Hin as [?|[?|[?|[?|?]]]].
    - repeat constructor.
    - apply list_elem_of_In. simpl. by left. }
  apply H in Hshape. vm_compute in Hshape. done.
Qed.

(** ** The feed proxy *)

Section Feed.

Lemma cache_get_subseteq now key (c : gmap string cache_entry) :
  (cache_get now key c).2 ⊆ c.
Proof.
  unfold cache_get. destruct (c !! key) as [e |]; [| done].
  destruct (stale now e); [apply delete_subseteq | done].
Qed.


Lemma fetch_feed_calls_cases net now req c :
  feed_calls (fetch_feed net now req c) = [] \/
  exists url, req_query_url req = Some url /\
              truthy (JStr url) = true /\
              truthy (cache_get now url c).1 = false /\
              feed_calls (fetch_feed net now req c) = [axios_get url].
Proof.
  unfold fetch_feed. destruct (req_query_url req) as [url |]; [| by left].
  destruct (truthy (JStr url)) eqn:Hu; simpl; [| by left].
  destruct (cache_get now url c) as [v c1] eqn:Hg. simpl.
  destruct (truthy v) eqn:Hv; [by left |].
  right. exists url. repeat split; try done.
  - by rewrite Hg.
  - by destruct (net url).
Qed.

Lemma fetch_feed_miss net now req c url :
  req_query_url req = Some url ->
  feed_calls (fetch_feed net now req c) <> [] ->
  fetch_feed net now req c =
    match net url with
    | FetchOk feedData arrived =>
        {| feed_response := res_send feedData;
           feed_cache := cache_set arrived url feedData (cache_get now url c).2;
           feed_calls := [axios_get url] |}
    | FetchErr msg =>
        {| feed_response := res_error 500 ("Failed to fetch feed: " +:+ msg);
           feed_cache := (cache_get now url c).2;
           feed_calls := [axios_get url] |}
    end.
Proof.
  unfold fetch_feed. intros -> Hcalls.
  destruct (truthy (JStr url)); simpl in *; [| done].
  destruct (cache_get now url c) as [v c1].
  destruct (truthy v); simpl in *; [done |].
  by destruct (net url).
Qed.

End Feed.

(** C8.  A request without a [url] parameter is answered 400 without an
    outbound call and without touching the cache; when the outbound fetch
    fails the answer is 500, the cache gains no entry, and the request made
    exactly one call; no request makes more than one. *)
Theorem fetch_feed_error_paths net now req (c : gmap string cache_entry) :
  (req_query_url req = None ->
     status (feed_response (fetch_feed net now req c)) = 400 /\
     feed_calls (fetch_feed net now req c) = [] /\
     feed_cache (fetch_feed net now req c) = c) /\
  (forall url msg,
     req_query_url req = Some url ->
     feed_calls (fetch_feed net now req c) <> [] ->
     net url = FetchErr msg ->
     status (feed_response (fetch_feed net now req c)) = 500 /\
     feed_calls (fetch_feed net now req c) = [axios_get url] /\
     feed_cache (fetch_feed net now req c) ⊆ c) /\
  (length (feed_calls (fetch_feed net now req c)) <= 1)%nat.
Proof.
  split; [| split].
  - intros Hurl. unfold fetch_feed. rewrite Hurl. done.
  - intros url msg Hurl Hcalls Hnet.
    rewrite (fetch_feed_miss _ _ _ _ _ Hurl Hcalls), Hnet. simpl.
    repeat split. apply cache_get_subseteq.
  - destruct (fetch_feed_calls_cases net now req c) as [-> | (url & _ & _ & _ & ->)];
      simpl; lia.
Qed.

Lemma fetch_feed_error_paths_witness :
  let net := fun _ : string => FetchErr "timeout of 1000ms exceeded" in
  let req := feed_request (Some "https://example.com/rss.xml") in
  status (feed_response (fetch_feed net 5000 req ∅)) = 500 /\
  feed_calls (fetch_feed net 5000 req ∅) = [axios_get "https://example.com/rss.xml"] /\
  feed_cache (fetch_feed net 5000 req ∅) ⊆ ∅.
Proof.
  intros net req.
  apply (proj1 (proj2 (fetch_feed_error_paths net 5000 req ∅))
           "https://example.com/rss.xml" "timeout of 1000ms exceeded").
  - reflexivity.
  - vm_compute. discriminate.
  - reflexivity.
Defined.



(** The answer served from the cache goes out through [res.json] where the
    answer of the fetch went out through [res.send]: the feed text that the
    first request received as it came from the origin, the second receives
    as a JSON string. *)
Example fetch_feed_hit_sent_as_json :
  let net := fun _ : string => FetchOk (JStr "<rss></rss>") 1200 in
  let req := feed_request (Some "https://example.com/rss.xml") in
  let o1 := fetch_feed net 1000 req ∅ in
  let o2 := fetch_feed net 60000 req (feed_cache o1) in
  feed_response o1 = res_send (JStr "<rss></rss>") /\
  feed_response o2 = res_json (JStr "<rss></rss>") /\
  feed_calls o2 = [] /\
  feed_response o2 <> feed_response o1.
Proof. vm_compute. repeat split. discriminate. Qed.


(** ** The rate limiter *)

Section Limiter.

Variable l : limiter.

Lemma filter_length_le (P Q : Z -> Prop) `{!forall x, Decision (P x)}
    `{!forall x, Decision (Q x)} (hits : list Z) :
  (forall x, P x -> Q x) ->
  (length (filter P hits) <= length (filter Q hits))%nat.
Proof.
  intros HPQ. induction hits as [| t hits IH]; [done |].
  rewrite !filter_cons. destruct (decide (P t)) as [HP | HP], (decide (Q t)) as [HQ | HQ];
    simpl; try lia.
  by apply HPQ in HP.
Qed.

Lemma admit_window_ok now hits :
  window_ok l hits ->
  window_count l now hits < max l ->
  window_ok l (now :: hits).
Proof.
  intros Hok Hlt w. unfold count_from. rewrite filter_cons.
  destruct (decide (w <= now < w + windowMs l)) as [Hin | Hout]; [| apply Hok].
  simpl. unfold window_count, in_window in Hlt.
  assert (length (filter (fun t : Z => (w <= t < w + windowMs l)%Z) hits) <=
          length (filter (fun t : Z => Z.ltb (now - windowMs l)%Z t = true) hits))%nat.
  { apply filter_length_le. intros t Ht. apply Z.ltb_lt. lia. }
  lia.
Qed.

Lemma limiter_admit_hits now key k store :
  hits_of (limiter_admit l now key store).2 k =
  if (limiter_admit l now key store).1 && String.eqb key k
  then now :: hits_of store k
  else hits_of store k.
Proof.
  unfold limiter_admit, hits_of.
  destruct (Z.ltb (window_count l now (default [] (store !! key))) (max l)); simpl; [| done].
  destruct (String.eqb_spec key k) as [-> | Hne].
  - by rewrite lookup_insert_eq.
  - by rewrite lookup_insert_ne.
Qed.

Lemma limiter_admit_ok now key store :
  (forall k, window_ok l (hits_of store k)) ->
  forall k, window_ok l (hits_of (limiter_admit l now key store).2 k).
Proof.
  intros Hok k. rewrite limiter_admit_hits.
  destruct (limiter_admit l now key store).1 eqn:Hd; simpl; [| done].
  destruct (String.eqb_spec key k) as [-> | Hne]; [| done].
  apply admit_window_ok; [done |].
  unfold limiter_admit in Hd. fold (hits_of store k) in Hd.
  destruct (Z.ltb (window_count l now (hits_of store k)) (max l)) eqn:Hlt; [| done].
  by apply Z.ltb_lt.
Qed.

Lemma limiter_run_ok reqs store :
  (forall k, window_ok l (hits_of store k)) ->
  forall k, window_ok l (hits_of (limiter_run l reqs store).2 k).
Proof.
  revert store. induction reqs as [| [now key] reqs IH]; intros store Hok; [done |].
  simpl. pose proof (limiter_admit_ok now key store Hok) as Hok1.
  destruct (limiter_admit l now key store) as [d store1]. simpl in Hok1.
  specialize (IH store1 Hok1).
  destruct (limiter_run l reqs store1) as [ds store2]. done.
Qed.

Lemma limiter_run_hits reqs store k :
  hits_of (limiter_run l reqs store).2 k ≡ₚ
  admitted_at k reqs (limiter_run l reqs store).1 ++ hits_of store k.
Proof.
  revert store. induction reqs as [| [now key] reqs IH]; intros store; [done |].
  simpl. pose proof (limiter_admit_hits now key k store) as Hh.
  destruct (limiter_admit l now key store) as [d store1]. simpl in Hh.
  specialize (IH store1).
  destruct (limiter_run l reqs store1) as [ds store2]. simpl in *.
  rewrite IH, Hh.
  destruct (d && String.eqb key k); [| done].
  simpl. by rewrite Permutation_middle.
Qed.

Lemma limiter_run_window reqs key w :
  0 <= max l ->
  count_from l w (admitted_at key reqs (limiter_run l reqs ∅).1) <= max l.
Proof.
  intros Hmax.
  assert (Hok : window_ok l (hits_of (limiter_run l reqs ∅).2 key)).
  { apply limiter_run_ok. intros k w'. unfold hits_of, count_from.
    rewrite lookup_empty. simpl. done. }
  specialize (Hok w). unfold count_from in *.
  rewrite limiter_run_hits in Hok.
  unfold hits_of in Hok. rewrite lookup_empty in Hok. simpl in Hok.
  by rewrite app_nil_r in Hok.
Qed.

Lemma rate_limited_over_limit {S : Type} key now req (handler : S -> response * S)
    store s :
  max l <= window_count l now (hits_of store (key req)) ->
  rate_limited l key now req handler store s = (too_many_requests l, s, store).
Proof.
  intros Hover. unfold rate_limited, limiter_admit. fold (hits_of store (key req)).
  replace (Z.ltb (window_count l now (hits_of store (key req))) (max l)) with false
    by (symmetry; apply Z.ltb_ge; lia).
  done.
Qed.

End Limiter.

(** ** The client key *)

Section ClientKey.

Lemma split_on_not_nil sep l : split_on sep l <> [].
Proof.
  destruct l as [| c l]; simpl; [done |].
  destruct (Ascii.eqb c sep); [done |]. by destruct (split_on sep l).
Qed.

Lemma hd_split_on_first_segment l :
  first_segment l (hd [] (split_on "," l)).
Proof.
  induction l as [| c l (rest & Hl & Hnotin & Hrest)]; simpl.
  - exists []. repeat split; [apply not_elem_of_nil | by left].
  - destruct (Ascii.eqb_spec c ","%char) as [-> | Hne]; simpl.
    + exists (","%char :: l). repeat split; [apply not_elem_of_nil | right; eauto].
    + pose proof (split_on_not_nil ","%char l) as Hnil.
      destruct (split_on ","%char l) as [| seg segs]; [done |]. simpl in *.
      exists rest. repeat split; [simpl; congruence | | done].
      rewrite elem_of_cons. intros [? | ?]; [by subst | done].
Qed.

Lemma keyGenerator_sqlite_agrees req : keyGenerator_sqlite req = keyGenerator req.
Proof.
  unfold keyGenerator_sqlite, keyGenerator.
  destruct (req_forwarded_for req) as [h |]; [| done].
  destruct (truthy (JStr h)); [| done].
  by destruct (split_on ","%char (chars h)).
Qed.

Lemma truthy_string s : s <> "" -> truthy (JStr s) = true.
Proof. intros Hs. simpl. apply negb_true_iff, String.eqb_neq. done. Qed.

End ClientKey.

(** Eleven subscription requests of one client within eleven seconds: the
    first ten are let through and the eleventh is not. *)
Example eleventh_subscription_rejected :
  (limiter_run subscribeLimiter
     (map (fun i => (i * 1000, "198.51.100.4")) [0; 1; 2; 3; 4; 5; 6; 7; 8; 9; 10]) ∅).1
  = [true; true; true; true; true; true; true; true; true; true; false].
Proof. vm_compute. reflexivity. Qed.

(** Once the window has passed the client is let through again. *)
Example subscription_after_window :
  (limiter_run subscribeLimiter
     (map (fun i => (i * 1000, "198.51.100.4")) [0; 1; 2; 3; 4; 5; 6; 7; 8; 9; 10; 901]) ∅).1
  = [true; true; true; true; true; true; true; true; true; true; false; true].
Proof. vm_compute. reflexivity. Qed.

Example keyGenerator_forwarded :
  keyGenerator (post_request (Some " 198.51.100.4 , 10.0.0.1") (JObj [])) = "198.51.100.4".
Proof. reflexivity. Qed.

Example keyGenerator_direct :
  keyGenerator (post_request None (JObj [])) = "203.0.113.7".
Proof. reflexivity. Qed.

(** ** Validation *)

Section Validation.

Lemma required_string_not_a_string body k :
  not_a_string body k -> required_string (js_get body k) = None.
Proof.
  unfold not_a_string, required_string. intros ->.
  by rewrite orb_true_r.
Qed.

Lemma required_string_Some v s : required_string v = Some s -> v = JStr s.
Proof.
  unfold required_string.
  destruct (negb (truthy v) || negb (is_string v)); [done |].
  destruct v; try done. by intros [= ->].
Qed.

Lemma validate_subscribe_rejects body :
  not_a_string body "email" \/ malformed_email body ->
  exists r, validate_subscribe body = Rejected r /\ status r = 400.
Proof.
  unfold validate_subscribe. intros [Hns | (s & Hs & Hre)].
  - rewrite (required_string_not_a_string _ _ Hns). eauto.
  - destruct (required_string (js_get body "email")) as [e |] eqn:He; [| eauto].
    apply required_string_Some in He. rewrite Hs in He. injection He as <-.
    rewrite Hre. simpl. eauto.
Qed.

Lemma validate_contact_rejects body :
  not_a_string body "name" \/ not_a_string body "email" \/
  not_a_string body "message" \/ malformed_email body ->
  exists r, validate_contact body = Rejected r /\ status r = 400.
Proof.
  unfold validate_contact. intros H.
  destruct (required_string (js_get body "name")) as [name |] eqn:Hn; [| eauto].
  destruct (required_string (js_get body "email")) as [email |] eqn:He; [| eauto].
  destruct (required_string (js_get body "message")) as [message |] eqn:Hm; [| eauto].
  destruct H as [H | [H | [H | (s & Hs & Hre)]]].
  - rewrite (required_string_not_a_string _ _ H) in Hn. done.
  - rewrite (required_string_not_a_string _ _ H) in He. done.
  - rewrite (required_string_not_a_string _ _ H) in Hm. done.
  - apply required_string_Some in He. rewrite Hs in He. injection He as <-.
    rewrite Hre. simpl. eauto.
Qed.

Lemma read_subscribe_parsed body :
  destructurable body = true -> read_subscribe body = validate_subscribe body.
Proof. unfold read_subscribe. by intros ->. Qed.

Lemma read_contact_parsed body :
  destructurable body = true -> read_contact body = validate_contact body.
Proof. unfold read_contact. by intros ->. Qed.

Lemma read_subscribe_thrown body :
  destructurable body = false -> read_subscribe body = Rejected uncaught.
Proof. unfold read_subscribe. by intros ->. Qed.

Lemma read_contact_thrown body :
  destructurable body = false -> read_contact body = Rejected uncaught.
Proof. unfold read_contact. by intros ->. Qed.

(** The checks let no body through on which the destructuring throws. *)
Lemma validate_subscribe_parsed body email :
  validate_subscribe body = Accepted email -> destructurable body = true.
Proof. by destruct body. Qed.

Lemma validate_contact_parsed body a :
  validate_contact body = Accepted a -> destructurable body = true.
Proof. by destruct body. Qed.

Lemma read_subscribe_Accepted body email :
  read_subscribe body = Accepted email <-> validate_subscribe body = Accepted email.
Proof.
  split.
  - unfold read_subscribe. by destruct (destructurable body).
  - intros H. by rewrite (read_subscribe_parsed _ (validate_subscribe_parsed _ _ H)).
Qed.

Lemma read_contact_Accepted body a :
  read_contact body = Accepted a <-> validate_contact body = Accepted a.
Proof.
  split.
  - unfold read_contact. by destruct (destructurable body).
  - intros H. by rewrite (read_contact_parsed _ (validate_contact_parsed _ _ H)).
Qed.

Lemma read_subscribe_Rejected body r :
  read_subscribe body = Rejected r ->
  validate_subscribe body = Rejected r \/ r = uncaught.
Proof.
  unfold read_subscribe. destruct (destructurable body); [by left |].
  intros [= <-]. by right.
Qed.

Lemma read_subscribe_rejects body r :
  read_subscribe body = Rejected r -> status r = 400 \/ status r = 500.
Proof.
  unfold read_subscribe, validate_subscribe.
  destruct (destructurable body); [| intros [= <-]; by right].
  destruct (required_string (js_get body "email")) as [e |].
  - destruct (regex_test emailRegex e); simpl; [done |]. intros [= <-]. by left.
  - intros [= <-]. by left.
Qed.

Lemma read_contact_rejects body r :
  read_contact body = Rejected r -> status r = 400 \/ status r = 500.
Proof.
  unfold read_contact, validate_contact.
  destruct (destructurable body); [| intros [= <-]; by right].
  destruct (required_string (js_get body "name")); [| intros [= <-]; by left].
  destruct (required_string (js_get body "email")) as [e |]; [| intros [= <-]; by left].
  destruct (required_string (js_get body "message")); [| intros [= <-]; by left].
  destruct (regex_test emailRegex e); simpl; [done |]. intros [= <-]. by left.
Qed.

Lemma read_contact_Rejected body r :
  read_contact body = Rejected r ->
  validate_contact body = Rejected r \/ r = uncaught.
Proof.
  unfold read_contact. destruct (destructurable body); [by left |].
  intros [= <-]. by right.
Qed.

End Validation.

(** X19.  On a body that can be destructured, a subscribe request whose
    email is missing, is not a string or fails the shape check, and a
    contact request with a missing or non-string name, email or message or
    with an email that fails the shape check, is answered 400 by the handler
    of each of the three servers, and the handler leaves the store (and the
    outbox) as it was.  On a body that cannot be destructured ([undefined],
    [null]) the handler throws before its checks: the answer is the error
    page with 500, and the store (and the outbox) is as it was. *)
Theorem invalid_input_rejected adminEmail fault send_error now req :
  (destructurable (req_body req) = true ->
   (not_a_string (req_body req) "email" \/ malformed_email (req_body req) ->
    (forall d,
       status (SqliteServer.subscribe fault now req d).1 = 400 /\
       (SqliteServer.subscribe fault now req d).2 = d) /\
    (forall s,
       status (SqliteMailServer.subscribe fault send_error now req s).1 = 400 /\
       (SqliteMailServer.subscribe fault send_error now req s).2 = s) /\
    (forall s,
       status (FirebaseServer.subscribe fault send_error now req s).1 = 400 /\
       (FirebaseServer.subscribe fault send_error now req s).2 = s)) /\
   (not_a_string (req_body req) "name" \/ not_a_string (req_body req) "email" \/
    not_a_string (req_body req) "message" \/ malformed_email (req_body req) ->
    (forall d,
       status (SqliteServer.contact fault now req d).1 = 400 /\
       (SqliteServer.contact fault now req d).2 = d) /\
    (forall s,
       status (SqliteMailServer.contact adminEmail fault send_error now req s).1 = 400 /\
       (SqliteMailServer.contact adminEmail fault send_error now req s).2 = s) /\
    (forall s,
       status (FirebaseServer.contact adminEmail fault send_error now req s).1 = 400 /\
       (FirebaseServer.contact adminEmail fault send_error now req s).2 = s))) /\
  (destructurable (req_body req) = false ->
   (forall d,
      SqliteServer.subscribe fault now req d = (uncaught, d) /\
      SqliteServer.contact fault now req d = (uncaught, d)) /\
   (forall s,
      SqliteMailServer.subscribe fault send_error now req s = (uncaught, s) /\
      SqliteMailServer.contact adminEmail fault send_error now req s = (uncaught, s)) /\
   (forall s,
      FirebaseServer.subscribe fault send_error now req s = (uncaught, s) /\
      FirebaseServer.contact adminEmail fault send_error now req s = (uncaught, s))).
Proof.
  split.
  - intros Hd. split.
    + intros (r & Hr & H400)%validate_subscribe_rejects.
      unfold SqliteServer.subscribe, SqliteMailServer.subscribe, FirebaseServer.subscribe.
      rewrite (read_subscribe_parsed _ Hd), Hr. repeat split; try done; by destruct s.
    + intros (r & Hr & H400)%validate_contact_rejects.
      unfold SqliteServer.contact, SqliteMailServer.contact, FirebaseServer.contact.
      rewrite (read_contact_parsed _ Hd), Hr. repeat split; try done; by destruct s.
  - intros Hd.
    unfold SqliteServer.subscribe, SqliteMailServer.subscribe, FirebaseServer.subscribe,
      SqliteServer.contact, SqliteMailServer.contact, FirebaseServer.contact.
    rewrite (read_subscribe_thrown _ Hd), (read_contact_thrown _ Hd).
    repeat split; by destruct s.
Qed.

(** C5.  A POST to [/subscribe] that carries no JSON body, as Express 5
    hands it to the handler: [req.body] is [undefined], so the email is
    missing, and the destructuring throws before the checks are reached.
    The answer is the error page with 500 and not the 400 of the checks;
    nothing is written. *)
Theorem subscribe_without_body_answered_500 :
  let req := post_request None JUndefined in
  not_a_string (req_body req) "email" /\
  SqliteServer.subscribe None 1000 req Sqlite.empty = (uncaught, Sqlite.empty) /\
  status (SqliteServer.subscribe None 1000 req Sqlite.empty).1 = 500 /\
  status (SqliteServer.subscribe None 1000 req Sqlite.empty).1 <> 400 /\
  status (FirebaseServer.contact "admin@example.com" None None 1000 req
            (Firebase.empty, [])).1 = 500.
Proof. vm_compute. repeat split. discriminate. Qed.

Example subscribe_not_an_email :
  SqliteServer.subscribe None 1000 (post_request None (email_body "not-an-email")) Sqlite.empty
  = (res_error 400 "Invalid email address", Sqlite.empty).
Proof. reflexivity. Qed.

Example subscribe_numeric_email :
  SqliteServer.subscribe None 1000 (post_request None (JObj [("email", JNum 7)])) Sqlite.empty
  = (res_error 400 "Email is required and must be a string", Sqlite.empty).
Proof. reflexivity. Qed.

Example contact_without_message :
  FirebaseServer.contact "admin@example.com" None None 1000
    (post_request None (JObj [("name", JStr "A"); ("email", JStr "a@b.com")]))
    (Firebase.empty, [])
  = (res_error 400 "Message is required and must be a string", (Firebase.empty, [])).
Proof. reflexivity. Qed.

Lemma invalid_input_rejected_witness :
  let req := post_request None (email_body "not-an-email") in
  status (SqliteServer.subscribe None 1000 req Sqlite.empty).1 = 400 /\
  (SqliteServer.subscribe None 1000 req Sqlite.empty).2 = Sqlite.empty /\
  status (FirebaseServer.contact "admin@example.com" None None 1000 req
            (Firebase.empty, [])).1 = 400.
Proof.
  intros req.
  destruct (invalid_input_rejected "admin@example.com" None None 1000 req) as [Hparsed _].
  destruct Hparsed as [Hsub Hcon]; [reflexivity |].
  destruct Hsub as (Hs & _ & _).
  { right. exists "not-an-email". split; reflexivity. }
  destruct Hcon as (_ & _ & Hf).
  { left. reflexivity. }
  destruct (Hs Sqlite.empty) as [H1 H2].
  destruct (Hf (Firebase.empty, [])) as [H3 _].
  split; [exact H1 | split; [exact H2 | exact H3]].
Defined.

(** ** The admin endpoints *)

Section Admin.

Lemma credentials_ok_iff apiKey user :
  credentials_ok apiKey user = true <->
  user = Some {| cred_name := "admin"; cred_pass := apiKey |}.
Proof.
  unfold credentials_ok. destruct user as [[name pass] |]; simpl; [| done].
  rewrite andb_true_iff, !String.eqb_eq. split.
  - intros [-> ->]. done.
  - intros [= -> ->]. done.
Qed.

Lemma authenticate_refuses {S : Type} apiKey req (handler : S -> response * S) s :
  req_auth req <> Some {| cred_name := "admin"; cred_pass := apiKey |} ->
  authenticate apiKey req handler s = (unauthorized, s).
Proof.
  intros Hne. unfold authenticate.
  destruct (credentials_ok apiKey (req_auth req)) eqn:Hok; [| done].
  by apply credentials_ok_iff in Hok.
Qed.

Lemma authenticate_passes {S : Type} apiKey req (handler : S -> response * S) s :
  req_auth req = Some {| cred_name := "admin"; cred_pass := apiKey |} ->
  authenticate apiKey req handler s = handler s.
Proof.
  intros Heq. unfold authenticate.
  by rewrite (proj2 (credentials_ok_iff apiKey (req_auth req)) Heq).
Qed.

End Admin.

(** C6.  A request for the subscribers or the messages whose credentials
    are absent, or are anything but the user [admin] with the server's key
    as password, gets the fixed 401 answer: the same answer for every content
    of the store, and the store is left as it was. *)
Theorem unauthorized_listing_refused apiKey fault req :
  req_auth req <> Some {| cred_name := "admin"; cred_pass := apiKey |} ->
  status unauthorized = 401 /\
  payload unauthorized = JObj [("error", JStr "Unauthorized")] /\
  (forall d,
     SqliteServer.get_subscribers apiKey fault req d = (unauthorized, d) /\
     SqliteServer.get_messages apiKey fault req d = (unauthorized, d)) /\
  (forall s,
     SqliteMailServer.get_subscribers apiKey fault req s = (unauthorized, s) /\
     SqliteMailServer.get_messages apiKey fault req s = (unauthorized, s)) /\
  (forall s,
     FirebaseServer.get_subscribers apiKey fault req s = (unauthorized, s) /\
     FirebaseServer.get_messages apiKey fault req s = (unauthorized, s)).
Proof.
  intros Hne. repeat split; by apply authenticate_refuses.
Qed.

Lemma unauthorized_listing_refused_witness :
  let req := admin_request (Some {| cred_name := "admin"; cred_pass := "guess" |}) in
  let d := (SqliteServer.subscribe None 1000 (post_request None (email_body "a@b.com"))
              Sqlite.empty).2 in
  SqliteServer.get_subscribers "s3cret" None req d = (unauthorized, d).
Proof.
  intros req d.
  destruct (unauthorized_listing_refused "s3cret" None req) as (_ & _ & H & _).
  - discriminate.
  - apply H.
Defined.

Example no_credentials_refused :
  (FirebaseServer.get_messages "s3cret" None (admin_request None) (Firebase.empty, [])).1
  = unauthorized.
Proof. reflexivity. Qed.

(** C10.  With valid credentials and a store that holds no records (and a
    read that does not fail), the listing endpoints of each of the three
    servers answer 200 with the empty array. *)
Theorem empty_store_lists_empty_array apiKey req :
  req_auth req = Some {| cred_name := "admin"; cred_pass := apiKey |} ->
  status (res_json (JArr [])) = 200 /\
  (forall d,
     (Sqlite.subscribers d = [] ->
      (SqliteServer.get_subscribers apiKey None req d).1 = res_json (JArr [])) /\
     (Sqlite.messages d = [] ->
      (SqliteServer.get_messages apiKey None req d).1 = res_json (JArr []))) /\
  (forall d outbox,
     (Sqlite.subscribers d = [] ->
      (SqliteMailServer.get_subscribers apiKey None req (d, outbox)).1 = res_json (JArr [])) /\
     (Sqlite.messages d = [] ->
      (SqliteMailServer.get_messages apiKey None req (d, outbox)).1 = res_json (JArr []))) /\
  (forall d outbox,
     (Firebase.subscribers d = [] ->
      (FirebaseServer.get_subscribers apiKey None req (d, outbox)).1 = res_json (JArr [])) /\
     (Firebase.messages d = [] ->
      (FirebaseServer.get_messages apiKey None req (d, outbox)).1 = res_json (JArr []))).
Proof.
  intros Hauth. split; [done |].
  unfold SqliteServer.get_subscribers, SqliteServer.get_messages,
    SqliteMailServer.get_subscribers, SqliteMailServer.get_messages,
    FirebaseServer.get_subscribers, FirebaseServer.get_messages.
  repeat split; intros Hempty; rewrite authenticate_passes by done.
  - unfold SqliteServer.listSubscribers, Sqlite.select_subscribers. by rewrite Hempty.
  - unfold SqliteServer.listMessages, Sqlite.select_messages. by rewrite Hempty.
  - unfold SqliteMailServer.listSubscribers, Sqlite.select_subscribers. simpl.
    by rewrite Hempty.
  - unfold SqliteMailServer.listMessages, Sqlite.select_messages. simpl.
    by rewrite Hempty.
  - unfold FirebaseServer.listSubscribers. simpl. by rewrite Hempty.
  - unfold FirebaseServer.listMessages. simpl. by rewrite Hempty.
Qed.

Lemma empty_store_lists_empty_array_witness :
  let req := admin_request (Some {| cred_name := "admin"; cred_pass := "s3cret" |}) in
  (SqliteServer.get_subscribers "s3cret" None req Sqlite.empty).1 = res_json (JArr []) /\
  (FirebaseServer.get_messages "s3cret" None req (Firebase.empty, [])).1 = res_json (JArr []).
Proof.
  intros req.
  destruct (empty_store_lists_empty_array "s3cret" req) as (_ & Hs & _ & Hf).
  - reflexivity.
  - split.
    + apply (Hs Sqlite.empty). reflexivity.
    + apply (Hf Firebase.empty []). reflexivity.
Defined.

(** ** The SQLite store *)

Section SqliteStore.

Lemma email_stored_iff email d :
  Sqlite.email_stored email d = true <->
  email ∈ map Sqlite.sub_email (Sqlite.subscribers d).
Proof.
  unfold Sqlite.email_stored. rewrite existsb_exists, list_elem_of_In, in_map_iff.
  split; intros (r & H1 & H2); exists r.
  - apply String.eqb_eq in H2. done.
  - split; [done | by apply String.eqb_eq].
Qed.

Lemma email_stored_false_iff email d :
  Sqlite.email_stored email d = false <->
  email ∉ map Sqlite.sub_email (Sqlite.subscribers d).
Proof.
  rewrite <- email_stored_iff. by destruct (Sqlite.email_stored email d).
Qed.

Lemma includes_unique_failed :
  includes Sqlite.unique_failed "UNIQUE constraint failed" = true.
Proof. reflexivity. Qed.

Lemma insert_subscriber_NoDup fault now email d :
  NoDup (map Sqlite.sub_email (Sqlite.subscribers d)) ->
  match Sqlite.insert_subscriber fault now email d with
  | inl _ => True
  | inr d' => NoDup (map Sqlite.sub_email (Sqlite.subscribers d'))
  end.
Proof.
  intros Hnd. unfold Sqlite.insert_subscriber. destruct fault; [done |].
  destruct (Sqlite.email_stored email d) eqn:Hst; [done |]. simpl.
  rewrite map_app. simpl. apply NoDup_app. repeat split; [done | | ].
  - intros e He. rewrite elem_of_cons, elem_of_nil. intros [-> | []].
    by apply email_stored_false_iff in Hst.
  - apply NoDup_singleton.
Qed.

Lemma subscribe_uniquely_sqlite : subscribes_uniquely SqliteServer.subscribe.
Proof.
  intros now req d email Hvalid. unfold SqliteServer.subscribe. rewrite (proj2 (read_subscribe_Accepted _ _) Hvalid).
  repeat split.
  - intros Hfresh. unfold Sqlite.insert_subscriber. rewrite Hfresh. simpl.
    exists {| Sqlite.sub_id := Sqlite.subscribers_seq d + 1;
              Sqlite.sub_email := email;
              Sqlite.subscribed_at := Sqlite.current_timestamp now |}.
    split; [done |]. split; [done |]. split; [done |].
    unfold Sqlite.email_stored. simpl. rewrite existsb_app. simpl.
    by rewrite String.eqb_refl, orb_true_r.
  - intros Hstored. unfold Sqlite.insert_subscriber. rewrite Hstored.
    by rewrite includes_unique_failed.
  - intros err Herr. simpl. by rewrite Herr.
  - intros fault Hnd.
    pose proof (insert_subscriber_NoDup fault now email d Hnd) as Hins.
    destruct (Sqlite.insert_subscriber fault now email d) as [err | d']; [| done].
    by destruct (includes err "UNIQUE constraint failed").
Qed.

(** The server with mails answers and writes as the one without. *)
Lemma mail_subscribe_refines fault send_error now req d outbox :
  let r := SqliteMailServer.subscribe fault send_error now req (d, outbox) in
  (r.1, r.2.1) = SqliteServer.subscribe fault now req d.
Proof.
  unfold SqliteMailServer.subscribe, SqliteServer.subscribe.
  destruct (read_subscribe (req_body req)) as [r | email]; [done |].
  destruct (Sqlite.insert_subscriber fault now email d) as [err | d']; [| done].
  by destruct (includes err "UNIQUE constraint failed").
Qed.

Lemma mail_contact_refines adminEmail fault send_error now req d outbox :
  let r := SqliteMailServer.contact adminEmail fault send_error now req (d, outbox) in
  (r.1, r.2.1) = SqliteServer.contact fault now req d.
Proof.
  unfold SqliteMailServer.contact, SqliteServer.contact.
  destruct (read_contact (req_body req)) as [r | [[name email] message]]; [done |].
  by destruct (Sqlite.insert_message fault now name email message d).
Qed.

End SqliteStore.

(** C1 (as amended).  On the two servers with the SQLite store a valid
    email that is not stored is, absent an engine error, answered 200 and
    stored as one new row; an email that is stored is answered 409 and
    nothing is written; an engine error other than the constraint is
    answered 500; so no email is stored twice.  The server with the Firebase
    store has no such check: a valid email whose write and mail go through is
    answered 200 and appended as a new child, stored before or not. *)
Theorem subscribe_conflict_per_store :
  subscribes_uniquely SqliteServer.subscribe /\
  (forall send_error outbox,
     subscribes_uniquely
       (fun fault now req d =>
          let r := SqliteMailServer.subscribe fault send_error now req (d, outbox) in
          (r.1, r.2.1))) /\
  (forall now req d outbox email,
     validate_subscribe (req_body req) = Accepted email ->
     let r := FirebaseServer.subscribe None None now req (d, outbox) in
     status r.1 = 200 /\
     Firebase.subscribers r.2.1 =
       Firebase.subscribers d ++
       [(Firebase.next_key d, {| Firebase.email := email; Firebase.subscribed_at := now |})]).
Proof.
  split; [apply subscribe_uniquely_sqlite | split].
  - intros send_error outbox now req d email Hvalid.
    pose proof (subscribe_uniquely_sqlite now req d email Hvalid) as H.
    cbv zeta. setoid_rewrite mail_subscribe_refines. exact H.
  - intros now req d outbox email Hvalid. unfold FirebaseServer.subscribe.
    rewrite (proj2 (read_subscribe_Accepted _ _) Hvalid). done.
Qed.

Lemma subscribe_conflict_per_store_witness :
  let req := post_request None (email_body "a@b.com") in
  let first := SqliteServer.subscribe None 1000 req Sqlite.empty in
  status first.1 = 200 /\
  SqliteServer.subscribe None 2000 req first.2 =
    (res_error 409 "Email already subscribed", first.2).
Proof.
  intros req first.
  destruct subscribe_conflict_per_store as (Hsqlite & _ & _).
  destruct (Hsqlite 1000 req Sqlite.empty "a@b.com") as (Hnew & _); [reflexivity |].
  destruct Hnew as (row & _ & H200 & _ & Hstored); [reflexivity |].
  destruct (Hsqlite 2000 req first.2 "a@b.com") as (_ & Hdup & _); [reflexivity |].
  split; [exact H200 | exact (Hdup Hstored)].
Defined.

(** On the Firebase server the address ["a@b.com"] subscribes twice: both
    requests are answered 200 and the store ends with two children that
    carry it. *)
Lemma firebase_subscribe_twice_stores_twice :
  let req := post_request None (email_body "a@b.com") in
  let first := FirebaseServer.subscribe None None 1000 req (Firebase.empty, []) in
  let second := FirebaseServer.subscribe None None 2000 req first.2 in
  status first.1 = 200 /\
  status second.1 = 200 /\
  status second.1 <> 409 /\
  map (fun child => Firebase.email child.2) (Firebase.subscribers second.2.1) =
    ["a@b.com"; "a@b.com"].
Proof. vm_compute. repeat split. discriminate. Qed.

(** C2 (as amended).  On the SQLite server with mails the send is not
    awaited: the answer and the database are the same whether the send goes
    through or not, and the answer is 200 once the write succeeds.  On the
    Firebase server the send is awaited before the answer: after a write
    that succeeded the answer is 200 when the send goes through and 500 when
    it fails, and the written child stays in both cases. *)
Theorem mail_failure_outcome_per_server adminEmail now req :
  (forall fault e1 e2 s,
     (SqliteMailServer.subscribe fault e1 now req s).1 =
       (SqliteMailServer.subscribe fault e2 now req s).1 /\
     (SqliteMailServer.subscribe fault e1 now req s).2.1 =
       (SqliteMailServer.subscribe fault e2 now req s).2.1 /\
     (SqliteMailServer.contact adminEmail fault e1 now req s).1 =
       (SqliteMailServer.contact adminEmail fault e2 now req s).1 /\
     (SqliteMailServer.contact adminEmail fault e1 now req s).2.1 =
       (SqliteMailServer.contact adminEmail fault e2 now req s).2.1) /\
  (forall send_error d outbox email,
     validate_subscribe (req_body req) = Accepted email ->
     Sqlite.email_stored email d = false ->
     status (SqliteMailServer.subscribe None send_error now req (d, outbox)).1 = 200) /\
  (forall send_error s fields,
     validate_contact (req_body req) = Accepted fields ->
     status (SqliteMailServer.contact adminEmail None send_error now req s).1 = 200) /\
  (forall send_error d outbox email,
     validate_subscribe (req_body req) = Accepted email ->
     let r := FirebaseServer.subscribe None send_error now req (d, outbox) in
     status r.1 = match send_error with Some _ => 500 | None => 200 end /\
     Firebase.subscribers r.2.1 =
       Firebase.subscribers d ++
       [(Firebase.next_key d, {| Firebase.email := email; Firebase.subscribed_at := now |})]) /\
  (forall send_error d outbox name email message,
     validate_contact (req_body req) = Accepted (name, email, message) ->
     let r := FirebaseServer.contact adminEmail None send_error now req (d, outbox) in
     status r.1 = match send_error with Some _ => 500 | None => 200 end /\
     Firebase.messages r.2.1 =
       Firebase.messages d ++
       [(Firebase.next_key d,
         {| Firebase.msg_name := name; Firebase.msg_email := email;
            Firebase.msg_message := message; Firebase.sent_at := now |})]).
Proof.
  repeat split.
  - destruct s as [d outbox].
    pose proof (mail_subscribe_refines fault e1 now req d outbox) as H1.
    pose proof (mail_subscribe_refines fault e2 now req d outbox) as H2.
    cbv zeta in *. congruence.
  - destruct s as [d outbox].
    pose proof (mail_subscribe_refines fault e1 now req d outbox) as H1.
    pose proof (mail_subscribe_refines fault e2 now req d outbox) as H2.
    cbv zeta in *. congruence.
  - destruct s as [d outbox].
    pose proof (mail_contact_refines adminEmail fault e1 now req d outbox) as H1.
    pose proof (mail_contact_refines adminEmail fault e2 now req d outbox) as H2.
    cbv zeta in *. congruence.
  - destruct s as [d outbox].
    pose proof (mail_contact_refines adminEmail fault e1 now req d outbox) as H1.
    pose proof (mail_contact_refines adminEmail fault e2 now req d outbox) as H2.
    cbv zeta in *. congruence.
  - intros send_error d outbox email Hvalid Hfresh.
    unfold SqliteMailServer.subscribe, Sqlite.insert_subscriber.
    by rewrite (proj2 (read_subscribe_Accepted _ _) Hvalid), Hfresh.
  - intros send_error [d outbox] [[name email] message] Hvalid.
    unfold SqliteMailServer.contact, Sqlite.insert_message.
    by rewrite (proj2 (read_contact_Accepted _ _) Hvalid).
  - unfold FirebaseServer.subscribe. rewrite (proj2 (read_subscribe_Accepted _ _) H). by destruct send_error.
  - unfold FirebaseServer.subscribe. rewrite (proj2 (read_subscribe_Accepted _ _) H). by destruct send_error.
  - unfold FirebaseServer.contact. rewrite (proj2 (read_contact_Accepted _ _) H). by destruct send_error.
  - unfold FirebaseServer.contact. rewrite (proj2 (read_contact_Accepted _ _) H). by destruct send_error.
Qed.

Lemma mail_failure_outcome_per_server_witness :
  let req := post_request None (email_body "a@b.com") in
  status (SqliteMailServer.subscribe None (Some "Forbidden") 1000 req
            (Sqlite.empty, [])).1 = 200 /\
  status (FirebaseServer.subscribe None (Some "Forbidden") 1000 req
            (Firebase.empty, [])).1 = 500.
Proof.
  intros req.
  destruct (mail_failure_outcome_per_server "admin@example.com" 1000 req)
    as (_ & Hsqlite & _ & Hfirebase & _).
  split.
  - apply (Hsqlite (Some "Forbidden") Sqlite.empty [] "a@b.com"); reflexivity.
  - apply (Hfirebase (Some "Forbidden") Firebase.empty [] "a@b.com"). reflexivity.
Defined.

(** On the Firebase server a subscription is written, the provider then
    refuses the confirmation mail, and the request is answered 500 although
    the child is in the store. *)
Lemma firebase_send_failure_answers_500 :
  let req := post_request None (email_body "a@b.com") in
  let sent := FirebaseServer.subscribe None None 1000 req (Firebase.empty, []) in
  let refused := FirebaseServer.subscribe None (Some "Forbidden") 1000 req (Firebase.empty, []) in
  status sent.1 = 200 /\
  Firebase.subscribers refused.2.1 = Firebase.subscribers sent.2.1 /\
  Firebase.subscribers refused.2.1 <> [] /\
  status refused.1 = 500.
Proof. vm_compute. repeat split. discriminate. Qed.

(** ** The listings *)

Section Listing.

#[local] Instance newer_subscriber_total : Total Sqlite.newer_subscriber.
Proof. intros a b. unfold Sqlite.newer_subscriber. lia. Qed.

#[local] Instance newer_subscriber_trans : Transitive Sqlite.newer_subscriber.
Proof. intros a b c. unfold Sqlite.newer_subscriber. lia. Qed.

#[local] Instance newer_message_total : Total Sqlite.newer_message.
Proof. intros a b. unfold Sqlite.newer_message. lia. Qed.

#[local] Instance newer_message_trans : Transitive Sqlite.newer_message.
Proof. intros a b c. unfold Sqlite.newer_message. lia. Qed.

Lemma select_subscribers_newest_first d :
  lists_newest_first Sqlite.newer_subscriber Sqlite.subscriber_json
    (Sqlite.subscribers d) (SqliteServer.listSubscribers None d).1.
Proof.
  exists (merge_sort Sqlite.newer_subscriber (Sqlite.subscribers d)).
  split; [done | split].
  - apply merge_sort_Permutation.
  - apply (StronglySorted_merge_sort _).
Qed.

Lemma select_messages_newest_first d :
  lists_newest_first Sqlite.newer_message Sqlite.message_json
    (Sqlite.messages d) (SqliteServer.listMessages None d).1.
Proof.
  exists (merge_sort Sqlite.newer_message (Sqlite.messages d)).
  split; [done | split].
  - apply merge_sort_Permutation.
  - apply (StronglySorted_merge_sort _).
Qed.

Lemma mail_listSubscribers_refines fault d outbox :
  (SqliteMailServer.listSubscribers fault (d, outbox)).1 =
  (SqliteServer.listSubscribers fault d).1.
Proof.
  unfold SqliteMailServer.listSubscribers, SqliteServer.listSubscribers. simpl.
  by destruct (Sqlite.select_subscribers fault d).
Qed.

Lemma mail_listMessages_refines fault d outbox :
  (SqliteMailServer.listMessages fault (d, outbox)).1 =
  (SqliteServer.listMessages fault d).1.
Proof.
  unfold SqliteMailServer.listMessages, SqliteServer.listMessages. simpl.
  by destruct (Sqlite.select_messages fault d).
Qed.

Lemma firebase_entries_map {A : Type} (f : Z * A -> jsval) children :
  Firebase.entries f children = JArr (map f children).
Proof. by destruct children. Qed.

End Listing.

(** C3 (as amended).  On the two servers with the SQLite store the
    listings answer with every row of the table, rows with a later timestamp
    before rows with an earlier one.  On the Firebase server they answer with
    every child of the reference in the key order of the snapshot and do not
    order by timestamp. *)
Theorem listing_order_per_store :
  (forall d,
     lists_newest_first Sqlite.newer_subscriber Sqlite.subscriber_json
       (Sqlite.subscribers d) (SqliteServer.listSubscribers None d).1 /\
     lists_newest_first Sqlite.newer_message Sqlite.message_json
       (Sqlite.messages d) (SqliteServer.listMessages None d).1) /\
  (forall d outbox,
     lists_newest_first Sqlite.newer_subscriber Sqlite.subscriber_json
       (Sqlite.subscribers d) (SqliteMailServer.listSubscribers None (d, outbox)).1 /\
     lists_newest_first Sqlite.newer_message Sqlite.message_json
       (Sqlite.messages d) (SqliteMailServer.listMessages None (d, outbox)).1) /\
  (forall d outbox,
     (FirebaseServer.listSubscribers None (d, outbox)).1 =
       res_json (JArr (map Firebase.subscriber_json (Firebase.subscribers d))) /\
     (FirebaseServer.listMessages None (d, outbox)).1 =
       res_json (JArr (map Firebase.message_json (Firebase.messages d)))).
Proof.
  split; [| split].
  - intros d. split;
      [apply select_subscribers_newest_first | apply select_messages_newest_first].
  - intros d outbox.
    rewrite mail_listSubscribers_refines, mail_listMessages_refines. split;
      [apply select_subscribers_newest_first | apply select_messages_newest_first].
  - intros d outbox. unfold FirebaseServer.listSubscribers, FirebaseServer.listMessages.
    simpl. by rewrite !firebase_entries_map.
Qed.

Example sqlite_listing_newest_first :
  let r1 := SqliteServer.subscribe None 1000 (post_request None (email_body "a@b.com"))
              Sqlite.empty in
  let r2 := SqliteServer.subscribe None 5000 (post_request None (email_body "c@d.org")) r1.2 in
  payload (SqliteServer.listSubscribers None r2.2).1 =
    JArr [JObj [("id", JNum 2); ("email", JStr "c@d.org"); ("subscribed_at", JNum 5)];
          JObj [("id", JNum 1); ("email", JStr "a@b.com"); ("subscribed_at", JNum 1)]].
Proof. vm_compute. reflexivity. Qed.

(** On the Firebase server two subscriptions, one second apart, are listed
    with the earlier one first. *)
Lemma firebase_listing_oldest_first :
  let r1 := FirebaseServer.subscribe None None 1000
              (post_request None (email_body "a@b.com")) (Firebase.empty, []) in
  let r2 := FirebaseServer.subscribe None None 2000
              (post_request None (email_body "c@d.org")) r1.2 in
  status r1.1 = 200 /\ status r2.1 = 200 /\
  (FirebaseServer.listSubscribers None r2.2).1 =
    res_json
      (JArr [JObj [("id", JNum 0); ("email", JStr "a@b.com"); ("subscribed_at", JNum 1000)];
             JObj [("id", JNum 1); ("email", JStr "c@d.org"); ("subscribed_at", JNum 2000)]]) /\
  ~ StronglySorted (fun a b : Z * Firebase.subscriber_data =>
                      Firebase.subscribed_at b.2 <= Firebase.subscribed_at a.2)
      (Firebase.subscribers r2.2.1).
Proof.
  vm_compute. repeat split.
  intros H. inversion H as [| a l _ Hall]; subst.
  inversion Hall as [| b l' Hle _]; subst.
  apply Hle. reflexivity.
Qed.

(** ** A session from the specification's examples *)

Example contact_then_listed_first :
  let admin := admin_request (Some {| cred_name := "admin"; cred_pass := "s3cret" |}) in
  let r1 := SqliteServer.contact None 1000
              (post_request None (contact_body "Z" "z@y.org" "earlier")) Sqlite.empty in
  let r2 := SqliteServer.contact None 9000
              (post_request None (contact_body "A" "a@b.com" "hi")) r1.2 in
  status r2.1 = 200 /\
  payload (SqliteServer.get_messages "s3cret" None admin r2.2).1 =
    JArr [JObj [("id", JNum 2); ("name", JStr "A"); ("email", JStr "a@b.com");
                ("message", JStr "hi"); ("sent_at", JNum 9)];
          JObj [("id", JNum 1); ("name", JStr "Z"); ("email", JStr "z@y.org");
                ("message", JStr "earlier"); ("sent_at", JNum 1)]].
Proof. vm_compute. split; reflexivity. Qed.

Example fetch_feed_empty_url :
  status (feed_response (fetch_feed (fun _ => FetchErr "unused") 0 (feed_request (Some "")) ∅))
  = 400.
Proof. reflexivity. Qed.

(** * Further properties of the code *)

(** ** The feed proxy: expiry and isolation of urls *)

Section FeedMore.

Lemma cache_get_stale now key v expires (c : gmap string cache_entry) :
  c !! key = Some {| ce_value := v; ce_expires := expires |} ->
  expires <> 0 ->
  expires < now ->
  cache_get now key c = (JUndefined, delete key c).
Proof.
  intros Hk Hne Hlt. unfold cache_get, stale. rewrite Hk. simpl.
  replace (Z.eqb expires 0) with false by (symmetry; apply Z.eqb_neq; done).
  replace (Z.ltb expires now) with true by (symmetry; apply Z.ltb_lt; done).
  done.
Qed.

Lemma cache_get_other now key k (c : gmap string cache_entry) :
  key <> k -> (cache_get now key c).2 !! k = c !! k.
Proof.
  intros Hne. unfold cache_get. destruct (c !! key) as [e |]; [| done].
  destruct (stale now e); [| done]. simpl. by rewrite lookup_delete_ne.
Qed.

End FeedMore.

(** X1.  Once the time-to-live has passed since a payload arrived, the
    next request for the same url goes to the origin again, with one call: a
    payload that comes back replaces the stale one, and when the fetch fails
    the answer is 500 and the stale entry is gone from the cache. *)
Theorem fetch_feed_refetched_after_ttl net1 net2 t1 t2 req
    (c : gmap string cache_entry) url data arrived :
  req_query_url req = Some url ->
  feed_calls (fetch_feed net1 t1 req c) <> [] ->
  net1 url = FetchOk data arrived ->
  arrived + stdTTL * 1000 <> 0 ->
  arrived + stdTTL * 1000 < t2 ->
  let o1 := fetch_feed net1 t1 req c in
  let o2 := fetch_feed net2 t2 req (feed_cache o1) in
  feed_calls o2 = [axios_get url] /\
  (forall data2 arrived2,
     net2 url = FetchOk data2 arrived2 ->
     feed_response o2 = res_send data2 /\
     feed_cache o2 !! url =
       Some {| ce_value := data2; ce_expires := arrived2 + stdTTL * 1000 |}) /\
  (forall msg,
     net2 url = FetchErr msg ->
     status (feed_response o2) = 500 /\ feed_cache o2 !! url = None).
Proof.
  intros Hurl Hcalls Hnet Hne Hlt o1 o2. subst o2 o1.
  rewrite (fetch_feed_miss _ _ _ _ _ Hurl Hcalls), Hnet. simpl.
  set (c1 := cache_set arrived url data (cache_get t1 url c).2).
  assert (Hk : c1 !! url =
               Some {| ce_value := data; ce_expires := arrived + stdTTL * 1000 |}).
  { unfold c1, cache_set. apply lookup_insert_eq. }
  assert (Hu : truthy (JStr url) = true).
  { destruct (fetch_feed_calls_cases net1 t1 req c) as [? | (u & Hu & Ht & _)]; [done |].
    rewrite Hurl in Hu. by injection Hu as <-. }
  unfold fetch_feed. rewrite Hurl, Hu. simpl.
  rewrite (cache_get_stale _ _ _ _ _ Hk Hne Hlt). simpl.
  split; [by destruct (net2 url) | split].
  - intros data2 arrived2 ->. split; [done |]. simpl.
    unfold cache_set. apply lookup_insert_eq.
  - intros msg ->. split; [done |]. simpl. apply lookup_delete_eq.
Qed.

Lemma fetch_feed_refetched_after_ttl_witness :
  let net := fun _ : string => FetchOk (JStr "<rss></rss>") 1200 in
  let req := feed_request (Some "https://example.com/rss.xml") in
  let o1 := fetch_feed net 1000 req ∅ in
  let o2 := fetch_feed (fun _ => FetchErr "offline") 3601201 req (feed_cache o1) in
  feed_calls o2 = [axios_get "https://example.com/rss.xml"] /\
  status (feed_response o2) = 500 /\
  feed_cache o2 !! "https://example.com/rss.xml" = None.
Proof.
  intros net req o1 o2.
  destruct (fetch_feed_refetched_after_ttl net (fun _ => FetchErr "offline") 1000 3601201
              req ∅ "https://example.com/rss.xml" (JStr "<rss></rss>") 1200)
    as (Hcalls & _ & Herr).
  - reflexivity.
  - vm_compute. discriminate.
  - reflexivity.
  - vm_compute. discriminate.
  - vm_compute. reflexivity.
  - destruct (Herr "offline") as [H500 Hgone]; [reflexivity |].
    split; [exact Hcalls | split; [exact H500 | exact Hgone]].
Defined.

(** X2.  A request touches the cache under its own url only, and the only
    address it ever calls is that url, with the fixed client label. *)
Theorem fetch_feed_confined_to_url net now req (c : gmap string cache_entry) :
  (forall k, req_query_url req <> Some k ->
             feed_cache (fetch_feed net now req c) !! k = c !! k) /\
  (forall call, call ∈ feed_calls (fetch_feed net now req c) ->
                req_query_url req = Some (call_url call) /\
                call_user_agent call = "Mozilla/5.0 (compatible; ClueAnalyticsBot/1.0)").
Proof.
  split.
  - intros k Hk. unfold fetch_feed.
    destruct (req_query_url req) as [url |] eqn:Hurl; [| done].
    assert (Hne : url <> k) by congruence.
    destruct (truthy (JStr url)); simpl; [| done].
    pose proof (cache_get_other now url k c Hne) as Hother.
    destruct (cache_get now url c) as [v c1]. simpl in Hother.
    destruct (truthy v); [done |].
    destruct (net url); simpl; [| done].
    unfold cache_set. by rewrite lookup_insert_ne.
  - intros call Hin.
    destruct (fetch_feed_calls_cases net now req c) as [Hnil | (url & Hurl & _ & _ & Hc)].
    + rewrite Hnil in Hin. by apply elem_of_nil in Hin.
    + rewrite Hc in Hin. apply elem_of_cons in Hin as [-> | Hin]; [done |].
      by apply elem_of_nil in Hin.
Qed.

Lemma fetch_feed_confined_to_url_witness :
  let net := fun _ : string => FetchOk (JStr "<rss></rss>") 1200 in
  let req := feed_request (Some "https://example.com/rss.xml") in
  let c := cache_set 500 "https://other.example/feed" (JStr "kept") ∅ in
  feed_cache (fetch_feed net 1000 req c) !! "https://other.example/feed" =
    c !! "https://other.example/feed".
Proof.
  intros net req c.
  apply (proj1 (fetch_feed_confined_to_url net 1000 req c)).
  discriminate.
Defined.

(** ** Validation: what is accepted *)

Section ValidationMore.

Lemma regex_test_empty : regex_test emailRegex "" = false.
Proof. reflexivity. Qed.

Lemma required_string_JStr s : s <> "" -> required_string (JStr s) = Some s.
Proof.
  intros Hs. unfold required_string. rewrite (truthy_string _ Hs). done.
Qed.

Lemma required_string_iff v s :
  required_string v = Some s <-> v = JStr s /\ s <> "".
Proof.
  split.
  - intros H. pose proof (required_string_Some _ _ H) as ->. split; [done |].
    intros ->. discriminate H.
  - intros [-> Hs]. by apply required_string_JStr.
Qed.

Lemma regex_test_not_empty s : regex_test emailRegex s = true -> s <> "".
Proof. intros H ->. discriminate H. Qed.

End ValidationMore.

(** X3.  The subscribe validation accepts a body exactly when its [email]
    property is a string that passes the pattern, and hands that string on
    unchanged; every rejection is a 400. *)
Theorem validate_subscribe_accepted_iff body :
  (forall email,
     validate_subscribe body = Accepted email <->
     js_get body "email" = JStr email /\ regex_test emailRegex email = true) /\
  (forall r, validate_subscribe body = Rejected r -> status r = 400).
Proof.
  unfold validate_subscribe. split.
  - intros email. split.
    + destruct (required_string (js_get body "email")) as [e |] eqn:He; [| done].
      apply required_string_Some in He.
      destruct (regex_test emailRegex e) eqn:Hre; simpl; [| done].
      intros [= <-]. done.
    + intros [Hget Hre]. rewrite Hget.
      rewrite (required_string_JStr _ (regex_test_not_empty _ Hre)), Hre. done.
  - intros r. destruct (required_string (js_get body "email")) as [e |].
    + destruct (regex_test emailRegex e); simpl; [done |]. by intros [= <-].
    + by intros [= <-].
Qed.

Lemma validate_subscribe_accepted_iff_witness :
  validate_subscribe (email_body "a@b.com") = Accepted "a@b.com" /\
  status (res_error 400 "Invalid email address") = 400.
Proof.
  destruct (validate_subscribe_accepted_iff (email_body "a@b.com")) as [Hacc _].
  destruct (validate_subscribe_accepted_iff (email_body "nope")) as [_ Hrej].
  split.
  - apply Hacc. split; reflexivity.
  - apply Hrej. reflexivity.
Defined.

(** X4.  The contact validation accepts a body exactly when [name], [email]
    and [message] are non-empty strings and the email passes the pattern.
    The checks run in the order name, email, message, pattern, and the first
    that fails names the error: a missing message is reported even when the
    email would fail the pattern. *)
Theorem validate_contact_accepted_iff body :
  (forall name email message,
     validate_contact body = Accepted (name, email, message) <->
     (js_get body "name" = JStr name /\ name <> "") /\
     (js_get body "email" = JStr email /\ regex_test emailRegex email = true) /\
     (js_get body "message" = JStr message /\ message <> "")) /\
  (required_string (js_get body "name") = None ->
   validate_contact body =
     Rejected (res_error 400 "Name is required and must be a string")) /\
  (required_string (js_get body "name") <> None ->
   required_string (js_get body "email") = None ->
   validate_contact body =
     Rejected (res_error 400 "Email is required and must be a string")) /\
  (required_string (js_get body "name") <> None ->
   required_string (js_get body "email") <> None ->
   required_string (js_get body "message") = None ->
   validate_contact body =
     Rejected (res_error 400 "Message is required and must be a string")).
Proof.
  unfold validate_contact. split; [| split; [| split]].
  - intros name email message. split.
    + destruct (required_string (js_get body "name")) as [n |] eqn:Hn; [| done].
      destruct (required_string (js_get body "email")) as [e |] eqn:He; [| done].
      destruct (required_string (js_get body "message")) as [m |] eqn:Hm; [| done].
      destruct (regex_test emailRegex e) eqn:Hre; simpl; [| done].
      intros [= <- <- <-].
      apply required_string_iff in Hn, He, Hm.
      destruct Hn as [Hn ?], He as [He ?], Hm as [Hm ?]. done.
    + intros ([Hn Hn'] & [He Hre] & [Hm Hm']). rewrite Hn, He, Hm.
      rewrite !required_string_JStr by (done || by apply regex_test_not_empty).
      by rewrite Hre.
  - by intros ->.
  - intros Hn ->. by destruct (required_string (js_get body "name")).
  - intros Hn He ->.
    destruct (required_string (js_get body "name")); [| done].
    by destruct (required_string (js_get body "email")).
Qed.

Lemma validate_contact_accepted_iff_witness :
  validate_contact (JObj [("name", JStr "A"); ("email", JStr "not-an-email")]) =
    Rejected (res_error 400 "Message is required and must be a string").
Proof.
  apply (proj2 (proj2 (proj2
    (validate_contact_accepted_iff (JObj [("name", JStr "A"); ("email", JStr "not-an-email")]))))).
  - discriminate.
  - discriminate.
  - reflexivity.
Defined.

(** ** What an accepted address looks like *)

Section AcceptedAddress.

Lemma count_occ_absent (l : list ascii) c :
  c ∉ l -> count_occ ascii_dec l c = 0%nat.
Proof. intros H. apply count_occ_not_In. by rewrite <- list_elem_of_In. Qed.

Lemma chars_length s : length (chars s) = String.length s.
Proof. induction s as [| c s IH]; simpl; [done | by rewrite IH]. Qed.

Lemma length_pos {A : Type} (l : list A) : l <> [] -> (1 <= length l)%nat.
Proof. destruct l; [done | simpl; lia]. Qed.

End AcceptedAddress.

(** X5.  Every address that passes the pattern holds exactly one at-sign
    and no white space, and is at least five characters long. *)
Theorem accepted_email_facts (s : string) :
  regex_test emailRegex s = true ->
  count_occ ascii_dec (chars s) "@"%char = 1%nat /\
  no_space (chars s) /\
  (5 <= String.length s)%nat.
Proof.
  unfold regex_test. rewrite accepts_matches, matches_emailRegex.
  intros (x & a & b & Hs & [Hx Hxall] & [Ha Haall] & [Hb Hball]).
  apply all_in_not_space_or_at in Hxall as [Hxs Hxat].
  apply all_in_not_space_or_at in Haall as [Has Haat].
  apply all_in_not_space_or_at in Hball as [Hbs Hbat].
  rewrite <- chars_length, Hs. repeat split.
  - rewrite count_occ_app, count_occ_cons_eq by done.
    rewrite count_occ_app, count_occ_cons_neq by done.
    rewrite !count_occ_absent by done. done.
  - unfold no_space. rewrite Forall_app, Forall_cons, Forall_app, Forall_cons.
    done.
  - apply length_pos in Hx, Ha, Hb.
    rewrite length_app. simpl. rewrite length_app. simpl. lia.
Qed.

Lemma accepted_email_facts_witness :
  count_occ ascii_dec (chars "a@b.com") "@"%char = 1%nat /\
  no_space (chars "a@b.com") /\
  (5 <= String.length "a@b.com")%nat.
Proof. apply (accepted_email_facts "a@b.com"). reflexivity. Defined.

(** ** The client key: shape and blank entries *)

Section ClientKeyMore.

Lemma trim_start_suffix l :
  exists p, l = p ++ trim_start l /\ Forall (fun c => is_js_space c = true) p.
Proof.
  induction l as [| c l (p & Hl & Hp)]; simpl.
  - exists []. done.
  - destruct (is_js_space c) eqn:Hc.
    + exists (c :: p). split; [simpl; congruence | by constructor].
    + exists []. done.
Qed.

Lemma trim_start_head l c :
  head (trim_start l) = Some c -> is_js_space c = false.
Proof.
  induction l as [| c' l IH]; simpl; [done |].
  destruct (is_js_space c') eqn:Hc; [done |]. simpl. by intros [= <-].
Qed.

Lemma trim_start_elem l c : c ∈ trim_start l -> c ∈ l.
Proof.
  destruct (trim_start_suffix l) as (p & Hl & _). intros Hin.
  rewrite Hl. apply elem_of_app. by right.
Qed.

Lemma trim_start_blank l :
  Forall (fun c => is_js_space c = true) l -> trim_start l = [].
Proof. induction 1 as [| c l Hc _ IH]; simpl; [done | by rewrite Hc]. Qed.

Lemma trim_start_keeps_last l c :
  is_js_space c = false -> exists q, trim_start (l ++ [c]) = q ++ [c].
Proof.
  intros Hc. induction l as [| c' l (q & IH)]; simpl.
  - rewrite Hc. exists []. done.
  - destruct (is_js_space c'); [by exists q |]. by exists (c' :: l).
Qed.

Lemma rev_elem (l : list ascii) c : c ∈ rev l <-> c ∈ l.
Proof. rewrite !list_elem_of_In. symmetry. apply in_rev. Qed.

Lemma rev_last_head (l : list ascii) : last (rev l) = head l.
Proof. destruct l as [| c l]; [done |]. simpl. apply last_snoc. Qed.

Lemma trim_elem l c : c ∈ trim l -> c ∈ l.
Proof.
  unfold trim, trim_end. rewrite rev_elem.
  intros H%trim_start_elem. rewrite rev_elem in H. by apply trim_start_elem.
Qed.

Lemma trim_last l c : last (trim l) = Some c -> is_js_space c = false.
Proof.
  unfold trim, trim_end. rewrite rev_last_head. apply trim_start_head.
Qed.

Lemma trim_head l c : head (trim l) = Some c -> is_js_space c = false.
Proof.
  unfold trim, trim_end.
  destruct (trim_start l) as [| c0 l0] eqn:Hl; [done |].
  assert (Hc0 : is_js_space c0 = false) by (apply (trim_start_head l); by rewrite Hl).
  simpl rev. destruct (trim_start_keeps_last (rev l0) c0 Hc0) as (q & ->).
  rewrite rev_app_distr. simpl. by intros [= <-].
Qed.

Lemma trim_blank l :
  Forall (fun c => is_js_space c = true) l -> trim l = [].
Proof. intros H. unfold trim, trim_end. by rewrite (trim_start_blank l H). Qed.

Lemma hd_split_on_prefix first rest :
  ","%char ∉ first ->
  hd [] (split_on "," (first ++ ","%char :: rest)) = first.
Proof.
  induction first as [| c first IH]; simpl; intros Hnotin; [done |].
  apply not_elem_of_cons in Hnotin as [Hne Hnotin].
  destruct (Ascii.eqb_spec c ","%char) as [-> | _]; [done |].
  specialize (IH Hnotin).
  destruct (split_on ","%char (first ++ ","%char :: rest)); simpl in *; congruence.
Qed.

Lemma chars_of_chars l : chars (of_chars l) = l.
Proof. apply list_ascii_of_string_of_list_ascii. Qed.

Lemma chars_not_empty s : chars s <> [] -> s <> "".
Proof. by intros H ->. Qed.

Lemma space_is_not_comma l :
  Forall (fun c => is_js_space c = true) l -> ","%char ∉ l.
Proof.
  rewrite Forall_forall. intros H Hin. by apply H in Hin.
Qed.

End ClientKeyMore.

(** X6.  With a non-empty x-forwarded-for header the client key holds no
    comma and neither starts nor ends with white space, and the connection
    address plays no part; a header whose first entry is blank gives the
    empty key. *)
Theorem keyGenerator_key_shape req h :
  req_forwarded_for req = Some h ->
  h <> "" ->
  (","%char ∉ chars (keyGenerator req)) /\
  (forall c, head (chars (keyGenerator req)) = Some c -> is_js_space c = false) /\
  (forall c, last (chars (keyGenerator req)) = Some c -> is_js_space c = false) /\
  (forall ip,
     keyGenerator {| req_ip := ip; req_forwarded_for := Some h; req_auth := req_auth req;
                     req_query_url := req_query_url req; req_body := req_body req |}
     = keyGenerator req) /\
  (forall blank rest,
     chars h = blank ++ ","%char :: rest ->
     Forall (fun c => is_js_space c = true) blank ->
     keyGenerator req = "").
Proof.
  intros Hh Hne. unfold keyGenerator. cbn [req_forwarded_for req_ip].
  rewrite Hh, (truthy_string _ Hne).
  rewrite chars_of_chars. repeat split.
  - intros Hin%trim_elem.
    destruct (hd_split_on_first_segment (chars h)) as (rest & _ & Hnotin & _). done.
  - apply trim_head.
  - apply trim_last.
  - intros blank rest Hchars Hblank.
    rewrite Hchars, hd_split_on_prefix by (by apply space_is_not_comma).
    by rewrite trim_blank.
Qed.

Lemma keyGenerator_key_shape_witness :
  keyGenerator (post_request (Some " , 198.51.100.4") (JObj [])) = "".
Proof.
  destruct (keyGenerator_key_shape (post_request (Some " , 198.51.100.4") (JObj []))
              " , 198.51.100.4") as (_ & _ & _ & _ & Hblank).
  - reflexivity.
  - discriminate.
  - apply (Hblank [" "%char] (chars " 198.51.100.4")).
    + reflexivity.
    + repeat constructor.
Defined.

(** ** Start-up *)

Section Startup.

Lemma env_get_string env name s :
  env_get env name = JStr s <-> env !! name = Some s.
Proof.
  unfold env_get. destruct (env !! name); split; intros H; by simplify_eq.
Qed.

Lemma truthy_string_iff s : truthy (JStr s) = true <-> s <> "".
Proof.
  simpl. rewrite negb_true_iff. split.
  - by intros H%String.eqb_neq.
  - by intros H%String.eqb_neq.
Qed.

Lemma credentials_ok_empty_password apiKey name :
  apiKey <> "" ->
  credentials_ok apiKey (Some {| cred_name := name; cred_pass := "" |}) = false.
Proof.
  intros Hne. unfold credentials_ok. destruct apiKey as [| c k]; [done |].
  cbn. apply andb_false_r.
Qed.

End Startup.

(** X7.  The servers with mail start only when API_KEY, SENDGRID_API_KEY
    and ADMIN_EMAIL are all set to non-empty strings, and then run with
    exactly these values; otherwise the process exits with code 1.  On a
    server that started, credentials with an empty password are refused. *)
Theorem startup_mail_started_iff (env : gmap string string) :
  (forall cfg,
     startup_mail env = Started cfg <->
     (env !! "API_KEY" = Some (cfg_apiKey cfg) /\ cfg_apiKey cfg <> "") /\
     (env !! "SENDGRID_API_KEY" = Some (cfg_sendgridApiKey cfg) /\
      cfg_sendgridApiKey cfg <> "") /\
     (env !! "ADMIN_EMAIL" = Some (cfg_adminEmail cfg) /\ cfg_adminEmail cfg <> "") /\
     cfg_PORT cfg = port_or 10000 env) /\
  (forall code, startup_mail env = Exit code -> code = 1) /\
  (forall cfg name fault req (s : Firebase.db * list mail),
     startup_mail env = Started cfg ->
     req_auth req = Some {| cred_name := name; cred_pass := "" |} ->
     FirebaseServer.get_subscribers (cfg_apiKey cfg) fault req s = (unauthorized, s) /\
     FirebaseServer.get_messages (cfg_apiKey cfg) fault req s = (unauthorized, s)).
Proof.
  assert (Hiff : forall cfg,
     startup_mail env = Started cfg <->
     (env !! "API_KEY" = Some (cfg_apiKey cfg) /\ cfg_apiKey cfg <> "") /\
     (env !! "SENDGRID_API_KEY" = Some (cfg_sendgridApiKey cfg) /\
      cfg_sendgridApiKey cfg <> "") /\
     (env !! "ADMIN_EMAIL" = Some (cfg_adminEmail cfg) /\ cfg_adminEmail cfg <> "") /\
     cfg_PORT cfg = port_or 10000 env).
  { intros cfg. unfold startup_mail. split.
    - destruct (env_get env "API_KEY") as [| | | | k | |] eqn:Hk; try done.
      destruct (truthy (JStr k)) eqn:Hkt; [| done]. cbn [negb].
      destruct (env_get env "SENDGRID_API_KEY") as [| | | | g | |] eqn:Hg; try done.
      destruct (truthy (JStr g)) eqn:Hgt; [| done]. cbn [negb].
      destruct (env_get env "ADMIN_EMAIL") as [| | | | a | |] eqn:Ha; try done.
      destruct (truthy (JStr a)) eqn:Hat; [| done]. cbn [negb].
      intros [= <-]. cbn.
      apply env_get_string in Hk, Hg, Ha. apply truthy_string_iff in Hkt, Hgt, Hat.
      done.
    - intros ([Hk Hkt] & [Hg Hgt] & [Ha Hat] & Hport).
      apply env_get_string in Hk, Hg, Ha. apply truthy_string_iff in Hkt, Hgt, Hat.
      rewrite Hk, Hkt, Hg, Hgt, Ha, Hat. cbn [negb]. rewrite <- Hport.
      by destruct cfg. }
  split; [exact Hiff | split].
  - intros code. unfold startup_mail.
    repeat (match goal with
            | |- context [match ?x with _ => _ end] => destruct x
            end; try done); by intros [= <-].
  - intros cfg name fault req s Hstart Hauth.
    apply Hiff in Hstart as ([_ Hne] & _).
    unfold FirebaseServer.get_subscribers, FirebaseServer.get_messages, authenticate.
    rewrite Hauth, (credentials_ok_empty_password _ _ Hne). done.
Qed.

Lemma startup_mail_started_iff_witness :
  let env : gmap string string :=
    {[ "API_KEY" := "s3cret"; "SENDGRID_API_KEY" := "SG.key";
       "ADMIN_EMAIL" := "admin@example.com" ]} in
  let req := admin_request (Some {| cred_name := "admin"; cred_pass := "" |}) in
  FirebaseServer.get_subscribers "s3cret" None req (Firebase.empty, []) =
    (unauthorized, (Firebase.empty, [])).
Proof.
  intros env req.
  apply (proj2 (proj2 (startup_mail_started_iff env))
           {| cfg_apiKey := "s3cret"; cfg_sendgridApiKey := "SG.key";
              cfg_adminEmail := "admin@example.com"; cfg_PORT := JNum 10000 |}
           "admin" None req (Firebase.empty, [])).
  - vm_compute. reflexivity.
  - reflexivity.
Defined.

Example startup_mail_complete :
  startup_mail {[ "API_KEY" := "s3cret"; "SENDGRID_API_KEY" := "SG.key";
                  "ADMIN_EMAIL" := "admin@example.com"; "PORT" := "8080" ]}
  = Started {| cfg_apiKey := "s3cret"; cfg_sendgridApiKey := "SG.key";
               cfg_adminEmail := "admin@example.com"; cfg_PORT := JStr "8080" |}.
Proof. vm_compute. reflexivity. Qed.

Example startup_mail_empty_key :
  startup_mail {[ "API_KEY" := ""; "SENDGRID_API_KEY" := "SG.key";
                  "ADMIN_EMAIL" := "admin@example.com" ]} = Exit 1.
Proof. vm_compute. reflexivity. Qed.

Example startup_sqlite_default_port :
  startup_sqlite {[ "API_KEY" := "s3cret" ]}
  = Started {| sq_apiKey := "s3cret"; sq_PORT := JNum 10000 |}.
Proof. vm_compute. reflexivity. Qed.

(** ** Whole runs of the SQLite server *)

Section SqliteRuns.

Lemma rate_limited_cases {S : Type} l key now req (handler : S -> response * S) store s :
  (exists store',
     rate_limited l key now req handler store s = (too_many_requests l, s, store')) \/
  (exists store',
     rate_limited l key now req handler store s = ((handler s).1, (handler s).2, store')).
Proof.
  unfold rate_limited.
  destruct (limiter_admit l now (key req) store) as [[] store'].
  - right. exists store'. by destruct (handler s).
  - left. by exists store'.
Qed.

Lemma validate_subscribe_Accepted body email :
  validate_subscribe body = Accepted email -> regex_test emailRegex email = true.
Proof.
  unfold validate_subscribe.
  destruct (required_string (js_get body "email")) as [e |]; [| done].
  destruct (regex_test emailRegex e) eqn:Hre; simpl; [| done]. by intros [= <-].
Qed.

Lemma validate_contact_Accepted body name email message :
  validate_contact body = Accepted (name, email, message) ->
  regex_test emailRegex email = true /\ name <> "" /\ message <> "".
Proof.
  unfold validate_contact.
  destruct (required_string (js_get body "name")) as [n |] eqn:Hn; [| done].
  destruct (required_string (js_get body "email")) as [e |] eqn:He; [| done].
  destruct (required_string (js_get body "message")) as [m |] eqn:Hm; [| done].
  destruct (regex_test emailRegex e) eqn:Hre; simpl; [| done].
  intros [= <- <- <-]. apply required_string_iff in Hn, Hm.
  destruct Hn as [_ Hn], Hm as [_ Hm]. done.
Qed.

Lemma validate_subscribe_rejects_400 body r :
  validate_subscribe body = Rejected r -> status r = 400.
Proof.
  unfold validate_subscribe.
  destruct (required_string (js_get body "email")) as [e |].
  - destruct (regex_test emailRegex e); simpl; [done |]. by intros [= <-].
  - by intros [= <-].
Qed.

Lemma validate_contact_rejects_400 body r :
  validate_contact body = Rejected r -> status r = 400.
Proof.
  unfold validate_contact.
  destruct (required_string (js_get body "name")); [| by intros [= <-]].
  destruct (required_string (js_get body "email")) as [e |]; [| by intros [= <-]].
  destruct (required_string (js_get body "message")); [| by intros [= <-]].
  destruct (regex_test emailRegex e); simpl; [done |]. by intros [= <-].
Qed.

(** What one subscribe request does to the database, by its status. *)
Lemma sqlite_subscribe_outcome fault now req d :
  (status (SqliteServer.subscribe fault now req d).1 <> 200 /\
   (SqliteServer.subscribe fault now req d).2 = d) \/
  (status (SqliteServer.subscribe fault now req d).1 = 200 /\
   exists email,
     regex_test emailRegex email = true /\
     Sqlite.insert_subscriber None now email d =
       inr (SqliteServer.subscribe fault now req d).2).
Proof.
  unfold SqliteServer.subscribe.
  destruct (read_subscribe (req_body req)) as [r | email] eqn:Hv.
  - left. simpl. split; [| done].
    destruct (read_subscribe_rejects _ _ Hv) as [-> | ->]; done.
  - destruct (Sqlite.insert_subscriber fault now email d) as [err | d'] eqn:Hins.
    + left. destruct (includes err "UNIQUE constraint failed"); done.
    + right. split; [done |]. exists email.
      split; [by apply read_subscribe_Accepted, validate_subscribe_Accepted in Hv |].
      unfold Sqlite.insert_subscriber in *. by destruct fault.
Qed.

Lemma sqlite_contact_outcome fault now req d :
  (status (SqliteServer.contact fault now req d).1 <> 200 /\
   (SqliteServer.contact fault now req d).2 = d) \/
  (status (SqliteServer.contact fault now req d).1 = 200 /\
   exists name email message,
     (regex_test emailRegex email = true /\ name <> "" /\ message <> "") /\
     Sqlite.insert_message None now name email message d =
       inr (SqliteServer.contact fault now req d).2).
Proof.
  unfold SqliteServer.contact.
  destruct (read_contact (req_body req)) as [r | [[name email] message]] eqn:Hv.
  - left. simpl. split; [| done].
    destruct (read_contact_rejects _ _ Hv) as [-> | ->]; done.
  - destruct (Sqlite.insert_message fault now name email message d) as [err | d'] eqn:Hins.
    + left. done.
    + right. split; [done |]. exists name, email, message.
      split; [by apply read_contact_Accepted, validate_contact_Accepted in Hv |].
      unfold Sqlite.insert_message in *. by destruct fault.
Qed.

Lemma keys_ok_weaken (P Q : Z -> Prop) keys :
  (forall k, P k -> Q k) -> keys_ok P keys -> keys_ok Q keys.
Proof.
  intros HPQ [Hs Hb]. split; [done |]. eapply Forall_impl; eauto.
Qed.

Lemma keys_ok_snoc (P Q : Z -> Prop) keys k' :
  (forall k, P k -> k < k' /\ Q k) -> Q k' ->
  keys_ok P keys -> keys_ok Q (keys ++ [k']).
Proof.
  intros HPQ HQ [Hs Hb]. rewrite Forall_forall in Hb. split.
  - apply StronglySorted_app_2; [| done | repeat constructor].
    intros x1 x2 H1 H2. apply elem_of_cons in H2 as [-> | H2]; [| by apply elem_of_nil in H2].
    by apply HPQ, Hb.
  - apply Forall_app. split; [| by repeat constructor].
    apply Forall_forall. intros k Hk. by apply HPQ, Hb.
Qed.

Lemma insert_subscriber_keeps_ok now email d d' :
  sqlite_db_ok d ->
  regex_test emailRegex email = true ->
  Sqlite.insert_subscriber None now email d = inr d' ->
  sqlite_db_ok d' /\
  Sqlite.messages d' = Sqlite.messages d /\
  exists row, Sqlite.sub_email row = email /\
              Sqlite.subscribers d' = Sqlite.subscribers d ++ [row].
Proof.
  intros (Hsk & Hmk & Hnd & Hse & Hme) Hre Hins.
  pose proof (insert_subscriber_NoDup None now email d Hnd) as Hnd'.
  rewrite Hins in Hnd'.
  unfold Sqlite.insert_subscriber in Hins.
  destruct (Sqlite.email_stored email d); [done |]. injection Hins as <-.
  simpl in *. split; [| split; [done | eexists; split; [| reflexivity]; done]].
  unfold sqlite_db_ok. simpl.
  split; [| split; [exact Hmk | split; [exact Hnd' | split; [| exact Hme]]]].
  - rewrite map_app. simpl.
    apply (keys_ok_snoc (fun id => id <= Sqlite.subscribers_seq d)
             (fun id => id <= Sqlite.subscribers_seq d + 1)); [intros; lia | lia | done].
  - apply Forall_app. split; [done | by repeat constructor].
Qed.

Lemma insert_message_keeps_ok now name email message d d' :
  sqlite_db_ok d ->
  regex_test emailRegex email = true /\ name <> "" /\ message <> "" ->
  Sqlite.insert_message None now name email message d = inr d' ->
  sqlite_db_ok d' /\
  Sqlite.subscribers d' = Sqlite.subscribers d /\
  exists row, Sqlite.messages d' = Sqlite.messages d ++ [row].
Proof.
  intros (Hsk & Hmk & Hnd & Hse & Hme) Hfields [= <-].
  simpl. split; [| split; [done | eexists; reflexivity]].
  unfold sqlite_db_ok. simpl.
  split; [exact Hsk | split; [| split; [exact Hnd | split; [exact Hse |]]]].
  - rewrite map_app. simpl.
    apply (keys_ok_snoc (fun id => id <= Sqlite.messages_seq d)
             (fun id => id <= Sqlite.messages_seq d + 1)); [intros; lia | lia | done].
  - apply Forall_app. split; [done |]. constructor; [exact Hfields | constructor].
Qed.

(** One request, seen from the database: what the three kinds of request
    can do to it. *)
Lemma sqlite_step_db apiKey ev st :
  let r := (SqliteApp.step apiKey ev st).1 in
  let d := st_db st in
  let d' := st_db (SqliteApp.step apiKey ev st).2 in
  match ev with
  | Subscribe _ _ now _ =>
      (status r <> 200 /\ d' = d) \/
      (status r = 200 /\ exists email,
         regex_test emailRegex email = true /\
         Sqlite.insert_subscriber None now email d = inr d')
  | Contact _ _ now _ =>
      (status r <> 200 /\ d' = d) \/
      (status r = 200 /\ exists name email message,
         (regex_test emailRegex email = true /\ name <> "" /\ message <> "") /\
         Sqlite.insert_message None now name email message d = inr d')
  | _ => d' = d
  end.
Proof.
  destruct ev as [net now req | fault se now req | fault se now req | fault req | fault req];
    simpl.
  - done.
  - unfold SqliteServer.post_subscribe.
    destruct (rate_limited_cases subscribeLimiter keyGenerator_sqlite now req
                (SqliteServer.subscribe fault now req) (st_subscribe_hits st) (st_db st))
      as [[hits ->] | [hits ->]]; simpl.
    + left. done.
    + apply sqlite_subscribe_outcome.
  - unfold SqliteServer.post_contact.
    destruct (rate_limited_cases contactLimiter keyGenerator_sqlite now req
                (SqliteServer.contact fault now req) (st_contact_hits st) (st_db st))
      as [[hits ->] | [hits ->]]; simpl.
    + left. done.
    + apply sqlite_contact_outcome.
  - unfold SqliteServer.get_subscribers, authenticate, SqliteServer.listSubscribers.
    destruct (credentials_ok apiKey (req_auth req)); [| done].
    by destruct (Sqlite.select_subscribers fault (st_db st)).
  - unfold SqliteServer.get_messages, authenticate, SqliteServer.listMessages.
    destruct (credentials_ok apiKey (req_auth req)); [| done].
    by destruct (Sqlite.select_messages fault (st_db st)).
Qed.

Lemma sqlite_step_keeps_ok apiKey ev st :
  sqlite_db_ok (st_db st) -> sqlite_db_ok (st_db (SqliteApp.step apiKey ev st).2).
Proof.
  intros Hok. pose proof (sqlite_step_db apiKey ev st) as H. cbv zeta in H.
  destruct ev; try (by rewrite H).
  - destruct H as [[_ ->] | (_ & email & Hre & Hins)]; [done |].
    by destruct (insert_subscriber_keeps_ok _ _ _ _ Hok Hre Hins).
  - destruct H as [[_ ->] | (_ & name & email & message & Hf & Hins)]; [done |].
    by destruct (insert_message_keeps_ok _ _ _ _ _ _ Hok Hf Hins).
Qed.

Lemma sqlite_run_keeps_ok apiKey evs st :
  sqlite_db_ok (st_db st) -> sqlite_db_ok (st_db (SqliteApp.run apiKey evs st).2).
Proof.
  revert st. induction evs as [| ev evs IH]; intros st Hok; [done |].
  simpl. pose proof (sqlite_step_keeps_ok apiKey ev st Hok) as H1.
  destruct (SqliteApp.step apiKey ev st) as [r st1]. simpl in H1.
  specialize (IH st1 H1). by destruct (SqliteApp.run apiKey evs st1).
Qed.

Lemma sqlite_empty_ok : sqlite_db_ok Sqlite.empty.
Proof.
  unfold sqlite_db_ok, keys_ok. simpl.
  repeat split; constructor.
Qed.

Lemma eqb_200_false z : z <> 200 -> Z.eqb z 200 = false.
Proof. by intros H%Z.eqb_neq. Qed.

Lemma sqlite_step_counts apiKey ev st :
  let r := (SqliteApp.step apiKey ev st).1 in
  let d := st_db st in
  let d' := st_db (SqliteApp.step apiKey ev st).2 in
  length (Sqlite.subscribers d') =
    (length (Sqlite.subscribers d) +
     (if is_subscribe ev && Z.eqb (status r) 200 then 1 else 0))%nat /\
  length (Sqlite.messages d') =
    (length (Sqlite.messages d) +
     (if is_contact ev && Z.eqb (status r) 200 then 1 else 0))%nat.
Proof.
  pose proof (sqlite_step_db apiKey ev st) as H. cbv zeta in *. revert H.
  destruct (SqliteApp.step apiKey ev st) as [r st1]. simpl fst. simpl snd.
  destruct ev; simpl is_subscribe; simpl is_contact; cbn [andb]; intros H;
    try (rewrite H; lia).
  - destruct H as [[Hs ->] | (Hs & email & _ & Hins)].
    + rewrite (eqb_200_false _ Hs). lia.
    + rewrite Hs. simpl Z.eqb. cbv iota.
      unfold Sqlite.insert_subscriber in Hins.
      destruct (Sqlite.email_stored email (st_db st)); [done |].
      injection Hins as <-. simpl. rewrite length_app. simpl. lia.
  - destruct H as [[Hs ->] | (Hs & name & email & message & _ & Hins)].
    + rewrite (eqb_200_false _ Hs). lia.
    + rewrite Hs. simpl Z.eqb. cbv iota.
      injection Hins as <-. simpl. rewrite length_app. simpl. lia.
Qed.

End SqliteRuns.

(** ** The mail server of [part_001] against the server without mail *)

Section MailRefines.

Lemma mail_step_refines apiKey adminEmail ev st :
  (SqliteMailApp.step apiKey adminEmail ev st).1 =
    (SqliteApp.step apiKey ev (forget_outbox st)).1 /\
  forget_outbox (SqliteMailApp.step apiKey adminEmail ev st).2 =
    (SqliteApp.step apiKey ev (forget_outbox st)).2.
Proof.
  destruct ev as [net now req | fault se now req | fault se now req | fault req | fault req].
  - done.
  - pose proof (mail_subscribe_refines fault se now req (ms_db st) (ms_outbox st)) as Href.
    cbv zeta in Href.
    unfold SqliteMailApp.step, SqliteApp.step, SqliteMailServer.post_subscribe,
      SqliteServer.post_subscribe, rate_limited.
    cbn -[SqliteMailServer.subscribe SqliteServer.subscribe limiter_admit].
    destruct (limiter_admit subscribeLimiter now (keyGenerator_sqlite req)
                (ms_subscribe_hits st)) as [[] hits]; [| done].
    rewrite <- Href.
    by destruct (SqliteMailServer.subscribe fault se now req (ms_db st, ms_outbox st))
      as [r [d outbox]].
  - pose proof (mail_contact_refines adminEmail fault se now req (ms_db st) (ms_outbox st))
      as Href.
    cbv zeta in Href.
    unfold SqliteMailApp.step, SqliteApp.step, SqliteMailServer.post_contact,
      SqliteServer.post_contact, rate_limited.
    cbn -[SqliteMailServer.contact SqliteServer.contact limiter_admit].
    destruct (limiter_admit contactLimiter now (keyGenerator_sqlite req)
                (ms_contact_hits st)) as [[] hits]; [| done].
    rewrite <- Href.
    by destruct (SqliteMailServer.contact adminEmail fault se now req
                   (ms_db st, ms_outbox st)) as [r [d outbox]].
  - unfold SqliteMailApp.step, SqliteApp.step, SqliteMailServer.get_subscribers,
      SqliteServer.get_subscribers, authenticate,
      SqliteMailServer.listSubscribers, SqliteServer.listSubscribers. simpl.
    destruct (credentials_ok apiKey (req_auth req)); [| done].
    by destruct (Sqlite.select_subscribers fault (ms_db st)).
  - unfold SqliteMailApp.step, SqliteApp.step, SqliteMailServer.get_messages,
      SqliteServer.get_messages, authenticate,
      SqliteMailServer.listMessages, SqliteServer.listMessages. simpl.
    destruct (credentials_ok apiKey (req_auth req)); [| done].
    by destruct (Sqlite.select_messages fault (ms_db st)).
Qed.

Lemma mail_run_refines apiKey adminEmail evs st :
  (SqliteMailApp.run apiKey adminEmail evs st).1 =
    (SqliteApp.run apiKey evs (forget_outbox st)).1 /\
  forget_outbox (SqliteMailApp.run apiKey adminEmail evs st).2 =
    (SqliteApp.run apiKey evs (forget_outbox st)).2.
Proof.
  revert st. induction evs as [| ev evs IH]; intros st; [done |].
  simpl. destruct (mail_step_refines apiKey adminEmail ev st) as [H1 H2].
  destruct (SqliteMailApp.step apiKey adminEmail ev st) as [r st1].
  destruct (SqliteApp.step apiKey ev (forget_outbox st)) as [r' st1'].
  simpl in H1, H2. subst r' st1'.
  destruct (IH st1) as [H3 H4].
  destruct (SqliteMailApp.run apiKey adminEmail evs st1) as [rs st2].
  destruct (SqliteApp.run apiKey evs (forget_outbox st1)) as [rs' st2'].
  simpl in *. by subst.
Qed.

End MailRefines.

(** X8.  Whatever requests arrive and whatever the environment answers, a
    well-formed database stays well formed on both SQLite servers: row ids
    grow along each table and stay within the sequence value, no email is
    subscribed twice, and every stored email, name and message went through
    the validation.  The empty database is well formed. *)
Theorem sqlite_run_keeps_db_ok apiKey adminEmail evs :
  sqlite_db_ok Sqlite.empty /\
  (forall st,
     sqlite_db_ok (st_db st) ->
     sqlite_db_ok (st_db (SqliteApp.run apiKey evs st).2)) /\
  (forall st,
     sqlite_db_ok (ms_db st) ->
     sqlite_db_ok (ms_db (SqliteMailApp.run apiKey adminEmail evs st).2)).
Proof.
  split; [apply sqlite_empty_ok | split].
  - intros st. apply sqlite_run_keeps_ok.
  - intros st Hok.
    destruct (mail_run_refines apiKey adminEmail evs st) as [_ H].
    change (ms_db (SqliteMailApp.run apiKey adminEmail evs st).2)
      with (st_db (forget_outbox (SqliteMailApp.run apiKey adminEmail evs st).2)).
    rewrite H. by apply sqlite_run_keeps_ok.
Qed.

Lemma sqlite_run_keeps_db_ok_witness :
  let evs := [Subscribe None None 1000 (post_request None (email_body "a@b.com"));
              Subscribe None None 2000 (post_request None (email_body "a@b.com"));
              Contact None None 3000 (post_request None (contact_body "A" "a@b.com" "hi"))] in
  sqlite_db_ok (st_db (SqliteApp.run "s3cret" evs initial_state).2).
Proof.
  intros evs.
  apply (proj1 (proj2 (sqlite_run_keeps_db_ok "s3cret" "admin@example.com" evs))).
  apply (proj1 (sqlite_run_keeps_db_ok "s3cret" "admin@example.com" evs)).
Defined.

(** X9.  On the server of [part_000] the rows account for the answers: over
    any run the subscribers table grows by exactly the number of subscribe
    requests answered 200, and the messages table by exactly the number of
    contact requests answered 200. *)
Theorem sqlite_rows_match_answers apiKey evs st :
  let rs := (SqliteApp.run apiKey evs st).1 in
  let d := st_db st in
  let d' := st_db (SqliteApp.run apiKey evs st).2 in
  length (Sqlite.subscribers d') =
    (length (Sqlite.subscribers d) + answered is_subscribe 200 evs rs)%nat /\
  length (Sqlite.messages d') =
    (length (Sqlite.messages d) + answered is_contact 200 evs rs)%nat.
Proof.
  revert st. induction evs as [| ev evs IH]; intros st; cbv zeta; simpl.
  - lia.
  - pose proof (sqlite_step_counts apiKey ev st) as H1. cbv zeta in H1.
    destruct (SqliteApp.step apiKey ev st) as [r st1]. simpl in H1.
    specialize (IH st1). cbv zeta in IH.
    destruct (SqliteApp.run apiKey evs st1) as [rs st2]. simpl in *. lia.
Qed.

Example sqlite_rows_match_answers_run :
  let evs := [Subscribe None None 1000 (post_request None (email_body "a@b.com"));
              Subscribe None None 2000 (post_request None (email_body "a@b.com"));
              Subscribe None None 3000 (post_request None (email_body "nope"));
              Subscribe (Some "SQLITE_BUSY: database is locked") None 4000
                (post_request None (email_body "c@d.org"))] in
  map status (SqliteApp.run "s3cret" evs initial_state).1 = [200; 409; 400; 500] /\
  length (Sqlite.subscribers (st_db (SqliteApp.run "s3cret" evs initial_state).2)) = 1%nat.
Proof. vm_compute. split; reflexivity. Qed.

(** X10.  The server of [part_001] answers every run of requests exactly as
    the server of [part_000] does and leaves the same cache, database and
    limiter stores, whatever the mail provider answers: the mails change
    nothing but the outbox. *)
Theorem mail_server_refines_plain apiKey adminEmail evs st :
  let out := SqliteMailApp.run apiKey adminEmail evs st in
  (out.1, forget_outbox out.2) = SqliteApp.run apiKey evs (forget_outbox st).
Proof.
  cbv zeta. destruct (mail_run_refines apiKey adminEmail evs st) as [H1 H2].
  destruct (SqliteApp.run apiKey evs (forget_outbox st)) as [rs st'].
  simpl in H1, H2. by rewrite H1, H2.
Qed.

(** ** Whole runs of the Firebase server *)

Section FirebaseRuns.

(** What one subscribe request does to the store and the outbox. *)
Lemma firebase_subscribe_outcome fault se now req d outbox :
  let res := FirebaseServer.subscribe fault se now req (d, outbox) in
  (status res.1 <> 200 /\ res.2.2 = outbox /\
   (res.2.1 = d \/
    exists email, regex_test emailRegex email = true /\
      Firebase.push_subscriber None
        {| Firebase.email := email; Firebase.subscribed_at := now |} d = inr res.2.1)) \/
  (status res.1 = 200 /\
   exists email, regex_test emailRegex email = true /\
     Firebase.push_subscriber None
       {| Firebase.email := email; Firebase.subscribed_at := now |} d = inr res.2.1 /\
     res.2.2 = outbox ++ [subscriberMsg email]).
Proof.
  cbv zeta. unfold FirebaseServer.subscribe.
  destruct (read_subscribe (req_body req)) as [r | email] eqn:Hv.
  - left. simpl. destruct (read_subscribe_rejects _ _ Hv) as [-> | ->]; auto.
  - apply read_subscribe_Accepted, validate_subscribe_Accepted in Hv.
    destruct fault as [err |]; simpl; [left; auto |].
    destruct se as [err |]; simpl.
    + left. split; [done |]. split; [done |]. right. eauto.
    + right. split; [done |]. eauto.
Qed.

Lemma firebase_contact_outcome adminEmail fault se now req d outbox :
  let res := FirebaseServer.contact adminEmail fault se now req (d, outbox) in
  (status res.1 <> 200 /\ res.2.2 = outbox /\
   (res.2.1 = d \/
    exists name email message,
      (regex_test emailRegex email = true /\ name <> "" /\ message <> "") /\
      Firebase.push_message None
        {| Firebase.msg_name := name; Firebase.msg_email := email;
           Firebase.msg_message := message; Firebase.sent_at := now |} d = inr res.2.1)) \/
  (status res.1 = 200 /\
   exists name email message,
     (regex_test emailRegex email = true /\ name <> "" /\ message <> "") /\
     Firebase.push_message None
       {| Firebase.msg_name := name; Firebase.msg_email := email;
          Firebase.msg_message := message; Firebase.sent_at := now |} d = inr res.2.1 /\
     res.2.2 = outbox ++ [adminMsg adminEmail]).
Proof.
  cbv zeta. unfold FirebaseServer.contact.
  destruct (read_contact (req_body req)) as [r | [[name email] message]] eqn:Hv.
  - left. simpl. destruct (read_contact_rejects _ _ Hv) as [-> | ->]; auto.
  - apply read_contact_Accepted, validate_contact_Accepted in Hv.
    destruct fault as [err |]; simpl; [left; auto |].
    destruct se as [err |]; simpl.
    + left. split; [done |]. split; [done |]. right. eauto 10.
    + right. split; [done |]. eauto 10.
Qed.

(** One request, seen from the store and the outbox. *)
Lemma firebase_step_db apiKey adminEmail ev st :
  let r := (FirebaseApp.step apiKey adminEmail ev st).1 in
  let d := ms_db st in
  let d' := ms_db (FirebaseApp.step apiKey adminEmail ev st).2 in
  let o := ms_outbox st in
  let o' := ms_outbox (FirebaseApp.step apiKey adminEmail ev st).2 in
  match ev with
  | Subscribe _ _ now _ =>
      (status r <> 200 /\ o' = o /\
       (d' = d \/
        exists email, regex_test emailRegex email = true /\
          Firebase.push_subscriber None
            {| Firebase.email := email; Firebase.subscribed_at := now |} d = inr d')) \/
      (status r = 200 /\
       exists email, regex_test emailRegex email = true /\
         Firebase.push_subscriber None
           {| Firebase.email := email; Firebase.subscribed_at := now |} d = inr d' /\
         o' = o ++ [subscriberMsg email])
  | Contact _ _ now _ =>
      (status r <> 200 /\ o' = o /\
       (d' = d \/
        exists name email message,
          (regex_test emailRegex email = true /\ name <> "" /\ message <> "") /\
          Firebase.push_message None
            {| Firebase.msg_name := name; Firebase.msg_email := email;
               Firebase.msg_message := message; Firebase.sent_at := now |} d = inr d')) \/
      (status r = 200 /\
       exists name email message,
         (regex_test emailRegex email = true /\ name <> "" /\ message <> "") /\
         Firebase.push_message None
           {| Firebase.msg_name := name; Firebase.msg_email := email;
              Firebase.msg_message := message; Firebase.sent_at := now |} d = inr d' /\
         o' = o ++ [adminMsg adminEmail])
  | _ => d' = d /\ o' = o
  end.
Proof.
  destruct ev as [net now req | fault se now req | fault se now req | fault req | fault req].
  - done.
  - pose proof (firebase_subscribe_outcome fault se now req (ms_db st) (ms_outbox st)) as H.
    cbv zeta in H.
    unfold FirebaseApp.step, FirebaseServer.post_subscribe.
    destruct (rate_limited_cases subscribeLimiter keyGenerator now req
                (FirebaseServer.subscribe fault se now req) (ms_subscribe_hits st)
                (ms_db st, ms_outbox st)) as [[hits ->] | [hits ->]].
    + left. cbn. auto.
    + destruct (FirebaseServer.subscribe fault se now req (ms_db st, ms_outbox st))
        as [r [d outbox]]. exact H.
  - pose proof (firebase_contact_outcome adminEmail fault se now req (ms_db st) (ms_outbox st))
      as H.
    cbv zeta in H.
    unfold FirebaseApp.step, FirebaseServer.post_contact.
    destruct (rate_limited_cases contactLimiter keyGenerator now req
                (FirebaseServer.contact adminEmail fault se now req) (ms_contact_hits st)
                (ms_db st, ms_outbox st)) as [[hits ->] | [hits ->]].
    + left. cbn. auto.
    + destruct (FirebaseServer.contact adminEmail fault se now req (ms_db st, ms_outbox st))
        as [r [d outbox]]. exact H.
  - unfold FirebaseApp.step, FirebaseServer.get_subscribers, authenticate,
      FirebaseServer.listSubscribers.
    destruct (credentials_ok apiKey (req_auth req)); [| done]. by destruct fault.
  - unfold FirebaseApp.step, FirebaseServer.get_messages, authenticate,
      FirebaseServer.listMessages.
    destruct (credentials_ok apiKey (req_auth req)); [| done]. by destruct fault.
Qed.

Lemma push_subscriber_keeps_ok data d d' :
  firebase_fields_ok d ->
  regex_test emailRegex (Firebase.email data) = true ->
  Firebase.push_subscriber None data d = inr d' ->
  firebase_fields_ok d'.
Proof.
  intros (Hse & Hme) Hre [= <-]. unfold firebase_fields_ok. simpl.
  split; [| exact Hme].
  apply Forall_app. split; [done |]. constructor; [done | constructor].
Qed.

Lemma push_message_keeps_ok data d d' :
  firebase_fields_ok d ->
  regex_test emailRegex (Firebase.msg_email data) = true /\
    Firebase.msg_name data <> "" /\ Firebase.msg_message data <> "" ->
  Firebase.push_message None data d = inr d' ->
  firebase_fields_ok d'.
Proof.
  intros (Hse & Hme) Hf [= <-]. unfold firebase_fields_ok. simpl.
  split; [exact Hse |].
  apply Forall_app. split; [done |]. constructor; [done | constructor].
Qed.

Lemma firebase_step_keeps_ok apiKey adminEmail ev st :
  firebase_fields_ok (ms_db st) ->
  firebase_fields_ok (ms_db (FirebaseApp.step apiKey adminEmail ev st).2).
Proof.
  intros Hok. pose proof (firebase_step_db apiKey adminEmail ev st) as H. cbv zeta in H.
  destruct ev.
  - by destruct H as [-> _].
  - destruct H as [(_ & _ & [-> | (email & Hre & Hp)]) | (_ & email & Hre & Hp & _)];
      [done | |]; by apply (push_subscriber_keeps_ok _ _ _ Hok) in Hp.
  - destruct H as [(_ & _ & [-> | (n & e & m & Hf & Hp)]) | (_ & n & e & m & Hf & Hp & _)];
      [done | |]; by apply (push_message_keeps_ok _ _ _ Hok) in Hp.
  - by destruct H as [-> _].
  - by destruct H as [-> _].
Qed.

Lemma firebase_run_keeps_ok apiKey adminEmail evs st :
  firebase_fields_ok (ms_db st) ->
  firebase_fields_ok (ms_db (FirebaseApp.run apiKey adminEmail evs st).2).
Proof.
  revert st. induction evs as [| ev evs IH]; intros st Hok; [done |].
  simpl. pose proof (firebase_step_keeps_ok apiKey adminEmail ev st Hok) as H1.
  destruct (FirebaseApp.step apiKey adminEmail ev st) as [r st1]. simpl in H1.
  specialize (IH st1 H1). by destruct (FirebaseApp.run apiKey adminEmail evs st1).
Qed.

Lemma firebase_empty_ok : firebase_fields_ok Firebase.empty.
Proof. unfold firebase_fields_ok. simpl. split; constructor. Qed.

Lemma firebase_step_counts apiKey adminEmail ev st :
  let r := (FirebaseApp.step apiKey adminEmail ev st).1 in
  let st' := (FirebaseApp.step apiKey adminEmail ev st).2 in
  length (ms_outbox st') =
    (length (ms_outbox st) +
     (if is_subscribe ev && Z.eqb (status r) 200 then 1 else 0) +
     (if is_contact ev && Z.eqb (status r) 200 then 1 else 0))%nat /\
  (length (Firebase.subscribers (ms_db st)) +
   (if is_subscribe ev && Z.eqb (status r) 200 then 1 else 0)
   <= length (Firebase.subscribers (ms_db st')))%nat /\
  (length (Firebase.messages (ms_db st)) +
   (if is_contact ev && Z.eqb (status r) 200 then 1 else 0)
   <= length (Firebase.messages (ms_db st')))%nat.
Proof.
  pose proof (firebase_step_db apiKey adminEmail ev st) as H. cbv zeta in *. revert H.
  destruct (FirebaseApp.step apiKey adminEmail ev st) as [r st1]. simpl fst. simpl snd.
  destruct ev; simpl is_subscribe; simpl is_contact; cbn [andb]; intros H.
  - destruct H as [-> ->]. lia.
  - destruct H as [(Hs & -> & [-> | (email & _ & [= <-])])
                  | (Hs & email & _ & [= <-] & ->)];
      rewrite ?(eqb_200_false _ Hs), ?Hs; simpl; rewrite ?length_app; simpl; lia.
  - destruct H as [(Hs & -> & [-> | (n & e & m & _ & [= <-])])
                  | (Hs & n & e & m & _ & [= <-] & ->)];
      rewrite ?(eqb_200_false _ Hs), ?Hs; simpl; rewrite ?length_app; simpl; lia.
  - destruct H as [-> ->]. lia.
  - destruct H as [-> ->]. lia.
Qed.

End FirebaseRuns.

(** X11.  Whatever requests arrive and whatever the environment answers,
    the Firebase server stores validated fields only: when every stored
    email passes the pattern and no stored name or message is empty, the
    same holds after any run, also for the children whose mail failed.  The
    empty store is such a store. *)
Theorem firebase_run_keeps_fields_ok apiKey adminEmail evs :
  firebase_fields_ok Firebase.empty /\
  (forall st,
     firebase_fields_ok (ms_db st) ->
     firebase_fields_ok (ms_db (FirebaseApp.run apiKey adminEmail evs st).2)).
Proof.
  split; [apply firebase_empty_ok |]. intros st. apply firebase_run_keeps_ok.
Qed.

Lemma firebase_run_keeps_fields_ok_witness :
  let evs := [Subscribe None None 1000 (post_request None (email_body "a@b.com"));
              Subscribe None (Some "Forbidden") 2000 (post_request None (email_body "a@b.com"));
              Contact None None 3000 (post_request None (contact_body "A" "a@b.com" "hi"))] in
  firebase_fields_ok
    (ms_db (FirebaseApp.run "s3cret" "admin@example.com" evs
              (initial_mail_state Firebase.empty)).2).
Proof.
  intros evs.
  apply (proj2 (firebase_run_keeps_fields_ok "s3cret" "admin@example.com" evs)).
  apply (proj1 (firebase_run_keeps_fields_ok "s3cret" "admin@example.com" evs)).
Defined.

(** X12.  On the Firebase server an answer of 200 means that the mail went
    out: over any run the outbox grows by exactly the number of subscribe and
    contact requests answered 200.  The store can hold more than was
    answered 200: each reference grows by at least the number of its requests
    answered 200. *)
Theorem firebase_mails_match_answers apiKey adminEmail evs st :
  let rs := (FirebaseApp.run apiKey adminEmail evs st).1 in
  let st' := (FirebaseApp.run apiKey adminEmail evs st).2 in
  length (ms_outbox st') =
    (length (ms_outbox st) + answered is_subscribe 200 evs rs
     + answered is_contact 200 evs rs)%nat /\
  (length (Firebase.subscribers (ms_db st)) + answered is_subscribe 200 evs rs
   <= length (Firebase.subscribers (ms_db st')))%nat /\
  (length (Firebase.messages (ms_db st)) + answered is_contact 200 evs rs
   <= length (Firebase.messages (ms_db st')))%nat.
Proof.
  revert st. induction evs as [| ev evs IH]; intros st; cbv zeta; simpl.
  - lia.
  - pose proof (firebase_step_counts apiKey adminEmail ev st) as H1. cbv zeta in H1.
    destruct (FirebaseApp.step apiKey adminEmail ev st) as [r st1]. simpl in H1.
    specialize (IH st1). cbv zeta in IH.
    destruct (FirebaseApp.run apiKey adminEmail evs st1) as [rs st2]. simpl in *. lia.
Qed.

Example firebase_mails_match_answers_run :
  let evs := [Subscribe None None 1000 (post_request None (email_body "a@b.com"));
              Subscribe None (Some "Forbidden") 2000 (post_request None (email_body "c@d.org"));
              Subscribe (Some "PERMISSION_DENIED") None 3000
                (post_request None (email_body "e@f.net"))] in
  let out := FirebaseApp.run "s3cret" "admin@example.com" evs
               (initial_mail_state Firebase.empty) in
  map status out.1 = [200; 500; 500] /\
  length (ms_outbox out.2) = 1%nat /\
  length (Firebase.subscribers (ms_db out.2)) = 2%nat.
Proof. vm_compute. repeat split. Qed.

(** ** The Firebase listing along the clock *)

Section FirebaseClock.

Lemma times_ok_mono clock clock' times :
  clock <= clock' -> times_ok clock times -> times_ok clock' times.
Proof.
  intros Hle [Hs Hb]. split; [done |].
  eapply Forall_impl; [exact Hb |]. simpl. intros. lia.
Qed.

Lemma times_ok_snoc clock now times :
  clock <= now -> times_ok clock times -> times_ok now (times ++ [now]).
Proof.
  intros Hle [Hs Hb]. rewrite Forall_forall in Hb. split.
  - apply StronglySorted_app_2; [| done | repeat constructor].
    intros x1 x2 H1 H2. apply elem_of_cons in H2 as [-> | H2]; [| by apply elem_of_nil in H2].
    apply Hb in H1. lia.
  - apply Forall_app. split.
    + apply Forall_forall. intros t Ht. apply Hb in Ht. lia.
    + constructor; [lia | constructor].
Qed.

Lemma firebase_run_times_ok apiKey adminEmail evs clock st :
  clock_ordered clock evs ->
  firebase_times_ok clock (ms_db st) ->
  exists clock',
    firebase_times_ok clock' (ms_db (FirebaseApp.run apiKey adminEmail evs st).2).
Proof.
  revert clock st. induction evs as [| ev evs IH]; intros clock st Hord Hok.
  - by exists clock.
  - simpl.
    pose proof (firebase_step_db apiKey adminEmail ev st) as H. cbv zeta in H. revert H.
    destruct (FirebaseApp.step apiKey adminEmail ev st) as [r st1]. simpl fst. simpl snd.
    intros H.
    assert (Hnext : exists clock1, clock_ordered clock1 evs /\
                                   firebase_times_ok clock1 (ms_db st1)).
    { destruct Hok as [Hsub Hmsg].
      destruct ev as [net now req | fault se now req | fault se now req | fault req | fault req];
        simpl in Hord.
      - destruct Hord as [Hle Hord], H as [-> _]. exists now.
        split; [done |]. split; by apply (times_ok_mono clock).
      - destruct Hord as [Hle Hord]. exists now. split; [done |].
        assert (Hpush : ms_db st1 = ms_db st \/
                        exists email, Firebase.push_subscriber None
                          {| Firebase.email := email; Firebase.subscribed_at := now |}
                          (ms_db st) = inr (ms_db st1)).
        { destruct H as [(_ & _ & [-> | (email & _ & Hp)]) | (_ & email & _ & Hp & _)]; eauto. }
        destruct Hpush as [-> | (email & [= <-])].
        + split; by apply (times_ok_mono clock).
        + split; simpl; [| by apply (times_ok_mono clock)].
          rewrite map_app. simpl. by apply (times_ok_snoc clock).
      - destruct Hord as [Hle Hord]. exists now. split; [done |].
        assert (Hpush : ms_db st1 = ms_db st \/
                        exists n e m, Firebase.push_message None
                          {| Firebase.msg_name := n; Firebase.msg_email := e;
                             Firebase.msg_message := m; Firebase.sent_at := now |}
                          (ms_db st) = inr (ms_db st1)).
        { destruct H as [(_ & _ & [-> | (n & e & m & _ & Hp)])
                        | (_ & n & e & m & _ & Hp & _)]; eauto 10. }
        destruct Hpush as [-> | (n & e & m & [= <-])].
        + split; by apply (times_ok_mono clock).
        + split; simpl; [by apply (times_ok_mono clock) |].
          rewrite map_app. simpl. by apply (times_ok_snoc clock).
      - destruct H as [-> _]. exists clock. done.
      - destruct H as [-> _]. exists clock. done. }
    destruct Hnext as (clock1 & Hord1 & Hok1).
    destruct (IH clock1 st1 Hord1 Hok1) as (clock' & Hfinal).
    exists clock'. by destruct (FirebaseApp.run apiKey adminEmail evs st1).
Qed.

End FirebaseClock.

(** X13.  When the clock never goes back between requests, the Firebase
    server lists both collections oldest first: starting from a store whose
    children are in the order of their timestamps, after any run the listing
    of the subscribers and of the messages is in ascending order of
    timestamp. *)
Theorem firebase_listing_ascending apiKey adminEmail evs clock st :
  clock_ordered clock evs ->
  firebase_times_ok clock (ms_db st) ->
  let st' := (FirebaseApp.run apiKey adminEmail evs st).2 in
  (FirebaseServer.listSubscribers None (ms_db st', ms_outbox st')).1 =
    res_json (JArr (map Firebase.subscriber_json (Firebase.subscribers (ms_db st')))) /\
  StronglySorted Z.le
    (map (fun c => Firebase.subscribed_at c.2) (Firebase.subscribers (ms_db st'))) /\
  (FirebaseServer.listMessages None (ms_db st', ms_outbox st')).1 =
    res_json (JArr (map Firebase.message_json (Firebase.messages (ms_db st')))) /\
  StronglySorted Z.le
    (map (fun c => Firebase.sent_at c.2) (Firebase.messages (ms_db st'))).
Proof.
  intros Hord Hok st'.
  destruct (firebase_run_times_ok apiKey adminEmail evs clock st Hord Hok)
    as (clock' & [Hs _] & [Hm _]).
  unfold FirebaseServer.listSubscribers, FirebaseServer.listMessages. simpl.
  rewrite !firebase_entries_map. done.
Qed.

Lemma firebase_listing_ascending_witness :
  let evs := [Subscribe None None 1000 (post_request None (email_body "a@b.com"));
              Contact None None 1500 (post_request None (contact_body "A" "a@b.com" "hi"));
              Subscribe None None 2000 (post_request None (email_body "c@d.org"))] in
  let st' := (FirebaseApp.run "s3cret" "admin@example.com" evs
                (initial_mail_state Firebase.empty)).2 in
  StronglySorted Z.le
    (map (fun c => Firebase.subscribed_at c.2) (Firebase.subscribers (ms_db st'))).
Proof.
  intros evs st'.
  destruct (firebase_listing_ascending "s3cret" "admin@example.com" evs 0
              (initial_mail_state Firebase.empty)) as (_ & H & _).
  - simpl. lia.
  - split; split; constructor.
  - exact H.
Defined.

(** ** Where the mails go *)

Section Mails.

Lemma mails_accounted_mono adminEmail emails emails' outbox :
  (forall e, e ∈ emails -> e ∈ emails') ->
  mails_accounted adminEmail emails outbox ->
  mails_accounted adminEmail emails' outbox.
Proof.
  intros Hsub Hacc. unfold mails_accounted. eapply Forall_impl; [exact Hacc |].
  intros m [-> | (email & Hin & ->)]; [by left | right; eauto].
Qed.

Lemma mails_accounted_snoc_admin adminEmail emails outbox :
  mails_accounted adminEmail emails outbox ->
  mails_accounted adminEmail emails (outbox ++ [adminMsg adminEmail]).
Proof.
  intros H. apply Forall_app. split; [done |]. constructor; [by left | constructor].
Qed.

Lemma mails_accounted_snoc_subscriber adminEmail emails email outbox :
  mails_accounted adminEmail emails outbox ->
  mails_accounted adminEmail (emails ++ [email]) (outbox ++ [subscriberMsg email]).
Proof.
  intros H. apply Forall_app. split.
  - apply (mails_accounted_mono _ emails); [| done].
    intros e He. apply elem_of_app. by left.
  - constructor; [| constructor]. right. exists email. split; [| done].
    apply elem_of_app. right. apply elem_of_cons. by left.
Qed.

Lemma firebase_step_mails apiKey adminEmail ev st :
  mails_accounted adminEmail (firebase_emails (ms_db st)) (ms_outbox st) ->
  mails_accounted adminEmail
    (firebase_emails (ms_db (FirebaseApp.step apiKey adminEmail ev st).2))
    (ms_outbox (FirebaseApp.step apiKey adminEmail ev st).2).
Proof.
  intros Hacc.
  pose proof (firebase_step_db apiKey adminEmail ev st) as H. cbv zeta in H. revert H.
  destruct (FirebaseApp.step apiKey adminEmail ev st) as [r st1]. simpl fst. simpl snd.
  unfold firebase_emails in *.
  destruct ev; intros H.
  - by destruct H as [-> ->].
  - destruct H as [(_ & -> & [-> | (email & _ & [= <-])]) | (_ & email & _ & [= <-] & ->)];
      simpl; rewrite ?map_app; simpl.
    + done.
    + apply (mails_accounted_mono _ _ _ _ (fun e He => proj2 (elem_of_app _ _ e) (or_introl He))).
      done.
    + by apply mails_accounted_snoc_subscriber.
  - destruct H as [(_ & -> & [-> | (n & e & m & _ & [= <-])])
                  | (_ & n & e & m & _ & [= <-] & ->)]; simpl.
    + done.
    + done.
    + by apply mails_accounted_snoc_admin.
  - by destruct H as [-> ->].
  - by destruct H as [-> ->].
Qed.

Lemma firebase_run_mails apiKey adminEmail evs st :
  mails_accounted adminEmail (firebase_emails (ms_db st)) (ms_outbox st) ->
  mails_accounted adminEmail
    (firebase_emails (ms_db (FirebaseApp.run apiKey adminEmail evs st).2))
    (ms_outbox (FirebaseApp.run apiKey adminEmail evs st).2).
Proof.
  revert st. induction evs as [| ev evs IH]; intros st Hacc; [done |].
  simpl. pose proof (firebase_step_mails apiKey adminEmail ev st Hacc) as H1.
  destruct (FirebaseApp.step apiKey adminEmail ev st) as [r st1]. simpl in H1.
  specialize (IH st1 H1). by destruct (FirebaseApp.run apiKey adminEmail evs st1).
Qed.

(** One request to the mail server of [part_001], seen from the database
    and the outbox. *)
Lemma sqlite_mail_step_db apiKey adminEmail ev st :
  let d := ms_db st in
  let d' := ms_db (SqliteMailApp.step apiKey adminEmail ev st).2 in
  let o := ms_outbox st in
  let o' := ms_outbox (SqliteMailApp.step apiKey adminEmail ev st).2 in
  match ev with
  | Subscribe _ _ now _ =>
      (d' = d /\ o' = o) \/
      (exists email,
         Sqlite.insert_subscriber None now email d = inr d' /\
         (o' = o \/ o' = o ++ [subscriberMsg email]))
  | Contact _ _ now _ =>
      (o' = o \/ o' = o ++ [adminMsg adminEmail]) /\
      Sqlite.subscribers d' = Sqlite.subscribers d
  | _ => d' = d /\ o' = o
  end.
Proof.
  destruct ev as [net now req | fault se now req | fault se now req | fault req | fault req].
  - done.
  - unfold SqliteMailApp.step, SqliteMailServer.post_subscribe.
    destruct (rate_limited_cases subscribeLimiter keyGenerator_sqlite now req
                (SqliteMailServer.subscribe fault se now req) (ms_subscribe_hits st)
                (ms_db st, ms_outbox st)) as [[hits ->] | [hits ->]].
    + left. done.
    + unfold SqliteMailServer.subscribe.
      destruct (read_subscribe (req_body req)) as [r | email]; [by left |].
      destruct (Sqlite.insert_subscriber fault now email (ms_db st)) as [err | d'] eqn:Hins.
      * left. by destruct (includes err "UNIQUE constraint failed").
      * right. exists email. cbn. split.
        -- unfold Sqlite.insert_subscriber in *. by destruct fault.
        -- destruct se; cbn; auto.
  - unfold SqliteMailApp.step, SqliteMailServer.post_contact.
    destruct (rate_limited_cases contactLimiter keyGenerator_sqlite now req
                (SqliteMailServer.contact adminEmail fault se now req) (ms_contact_hits st)
                (ms_db st, ms_outbox st)) as [[hits ->] | [hits ->]].
    + cbn. auto.
    + unfold SqliteMailServer.contact.
      destruct (read_contact (req_body req)) as [r | [[name email] message]];
        [cbn; auto |].
      destruct (Sqlite.insert_message fault now name email message (ms_db st))
        as [err | d'] eqn:Hins; [cbn; auto |].
      unfold Sqlite.insert_message in Hins. destruct fault; [done |].
      injection Hins as <-. destruct se; cbn; auto.
  - unfold SqliteMailApp.step, SqliteMailServer.get_subscribers, authenticate,
      SqliteMailServer.listSubscribers.
    destruct (credentials_ok apiKey (req_auth req)); [| done].
    cbn. by destruct (Sqlite.select_subscribers fault (ms_db st)).
  - unfold SqliteMailApp.step, SqliteMailServer.get_messages, authenticate,
      SqliteMailServer.listMessages.
    destruct (credentials_ok apiKey (req_auth req)); [| done].
    cbn. by destruct (Sqlite.select_messages fault (ms_db st)).
Qed.

Lemma sqlite_mail_step_mails apiKey adminEmail ev st :
  mails_accounted adminEmail (sqlite_emails (ms_db st)) (ms_outbox st) ->
  mails_accounted adminEmail
    (sqlite_emails (ms_db (SqliteMailApp.step apiKey adminEmail ev st).2))
    (ms_outbox (SqliteMailApp.step apiKey adminEmail ev st).2).
Proof.
  intros Hacc.
  pose proof (sqlite_mail_step_db apiKey adminEmail ev st) as H. cbv zeta in H. revert H.
  destruct (SqliteMailApp.step apiKey adminEmail ev st) as [r st1]. simpl fst. simpl snd.
  unfold sqlite_emails in *.
  destruct ev; intros H.
  - by destruct H as [-> ->].
  - destruct H as [[-> ->] | (email & Hins & Ho)]; [done |].
    unfold Sqlite.insert_subscriber in Hins.
    destruct (Sqlite.email_stored email (ms_db st)); [done |]. injection Hins as <-.
    simpl. rewrite map_app. simpl. destruct Ho as [-> | ->].
    + apply (mails_accounted_mono _ _ _ _ (fun e He => proj2 (elem_of_app _ _ e) (or_introl He))).
      done.
    + by apply mails_accounted_snoc_subscriber.
  - destruct H as [[-> | ->] ->]; [done |]. by apply mails_accounted_snoc_admin.
  - by destruct H as [-> ->].
  - by destruct H as [-> ->].
Qed.

Lemma sqlite_mail_run_mails apiKey adminEmail evs st :
  mails_accounted adminEmail (sqlite_emails (ms_db st)) (ms_outbox st) ->
  mails_accounted adminEmail
    (sqlite_emails (ms_db (SqliteMailApp.run apiKey adminEmail evs st).2))
    (ms_outbox (SqliteMailApp.run apiKey adminEmail evs st).2).
Proof.
  revert st. induction evs as [| ev evs IH]; intros st Hacc; [done |].
  simpl. pose proof (sqlite_mail_step_mails apiKey adminEmail ev st Hacc) as H1.
  destruct (SqliteMailApp.step apiKey adminEmail ev st) as [r st1]. simpl in H1.
  specialize (IH st1 H1). by destruct (SqliteMailApp.run apiKey adminEmail evs st1).
Qed.

End Mails.

(** X14.  On both servers that send mail, no mail goes anywhere but to a
    stored subscriber or to the admin address: if every mail in the outbox is
    the confirmation of a stored subscriber address or the notice to the
    configured admin address, the same holds after any run. *)
Theorem mails_go_to_subscribers_or_admin apiKey adminEmail evs :
  (forall st,
     mails_accounted adminEmail (sqlite_emails (ms_db st)) (ms_outbox st) ->
     mails_accounted adminEmail
       (sqlite_emails (ms_db (SqliteMailApp.run apiKey adminEmail evs st).2))
       (ms_outbox (SqliteMailApp.run apiKey adminEmail evs st).2)) /\
  (forall st,
     mails_accounted adminEmail (firebase_emails (ms_db st)) (ms_outbox st) ->
     mails_accounted adminEmail
       (firebase_emails (ms_db (FirebaseApp.run apiKey adminEmail evs st).2))
       (ms_outbox (FirebaseApp.run apiKey adminEmail evs st).2)).
Proof.
  split; intros st; [apply sqlite_mail_run_mails | apply firebase_run_mails].
Qed.

Lemma mails_go_to_subscribers_or_admin_witness :
  let evs := [Subscribe None None 1000 (post_request None (email_body "a@b.com"));
              Contact None None 2000 (post_request None (contact_body "A" "x@y.org" "hi"))] in
  let st' := (FirebaseApp.run "s3cret" "admin@example.com" evs
                (initial_mail_state Firebase.empty)).2 in
  mails_accounted "admin@example.com" (firebase_emails (ms_db st')) (ms_outbox st').
Proof.
  intros evs st'.
  apply (proj2 (mails_go_to_subscribers_or_admin "s3cret" "admin@example.com" evs)).
  constructor.
Defined.

Example contact_mail_goes_to_admin :
  let evs := [Contact None None 2000 (post_request None (contact_body "A" "x@y.org" "hi"))] in
  map mail_to
    (ms_outbox (FirebaseApp.run "s3cret" "admin@example.com" evs
                  (initial_mail_state Firebase.empty)).2) = ["admin@example.com"].
Proof. vm_compute. reflexivity. Qed.

(** ** Status codes and CORS headers *)

Section Statuses.


Lemma sqlite_subscribe_status fault now req d :
  status (SqliteServer.subscribe fault now req d).1 = 200 \/
  status (SqliteServer.subscribe fault now req d).1 = 400 \/
  status (SqliteServer.subscribe fault now req d).1 = 409 \/
  status (SqliteServer.subscribe fault now req d).1 = 500.
Proof.
  unfold SqliteServer.subscribe.
  destruct (read_subscribe (req_body req)) as [r | email] eqn:Hv.
  - simpl. destruct (read_subscribe_rejects _ _ Hv) as [-> | ->]; auto.
  - destruct (Sqlite.insert_subscriber fault now email d) as [err |]; [| auto].
    destruct (includes err "UNIQUE constraint failed"); auto.
Qed.

Lemma sqlite_contact_status fault now req d :
  status (SqliteServer.contact fault now req d).1 = 200 \/
  status (SqliteServer.contact fault now req d).1 = 400 \/
  status (SqliteServer.contact fault now req d).1 = 500.
Proof.
  unfold SqliteServer.contact.
  destruct (read_contact (req_body req)) as [r | [[name email] message]] eqn:Hv.
  - simpl. destruct (read_contact_rejects _ _ Hv) as [-> | ->]; auto.
  - destruct (Sqlite.insert_message fault now name email message d); auto.
Qed.

Lemma firebase_subscribe_status fault se now req s :
  status (FirebaseServer.subscribe fault se now req s).1 = 200 \/
  status (FirebaseServer.subscribe fault se now req s).1 = 400 \/
  status (FirebaseServer.subscribe fault se now req s).1 = 500.
Proof.
  unfold FirebaseServer.subscribe. destruct s as [d outbox].
  destruct (read_subscribe (req_body req)) as [r | email] eqn:Hv.
  - simpl. destruct (read_subscribe_rejects _ _ Hv) as [-> | ->]; auto.
  - destruct fault; simpl; [auto |]. destruct se; auto.
Qed.

Lemma firebase_contact_status adminEmail fault se now req s :
  status (FirebaseServer.contact adminEmail fault se now req s).1 = 200 \/
  status (FirebaseServer.contact adminEmail fault se now req s).1 = 400 \/
  status (FirebaseServer.contact adminEmail fault se now req s).1 = 500.
Proof.
  unfold FirebaseServer.contact. destruct s as [d outbox].
  destruct (read_contact (req_body req)) as [r | [[name email] message]] eqn:Hv.
  - simpl. destruct (read_contact_rejects _ _ Hv) as [-> | ->]; auto.
  - destruct fault; simpl; [auto |]. destruct se; auto.
Qed.







End Statuses.


Example unauthorized_keeps_challenge_header :
  headers (SqliteApp.step "s3cret" (ListSubscribers None (admin_request None)) initial_state).1
  = cors_headers ++ headers unauthorized.
Proof. reflexivity. Qed.

(** ** The limiters over whole runs *)

Section Throttling.

Lemma rate_limited_hits {S : Type} l key now req (handler : S -> response * S) store s k :
  status (handler s).1 <> 429 ->
  hits_of (rate_limited l key now req handler store s).2 k =
    if String.eqb (key req) k &&
       negb (Z.eqb (status (rate_limited l key now req handler store s).1.1) 429)
    then now :: hits_of store k
    else hits_of store k.
Proof.
  intros Hs. unfold rate_limited.
  pose proof (limiter_admit_hits l now (key req) k store) as Hh.
  destruct (limiter_admit l now (key req) store) as [[] store']; simpl in Hh.
  - destruct (handler s) as [r s']. simpl in *. rewrite Hh.
    replace (Z.eqb (status r) 429) with false by (symmetry; by apply Z.eqb_neq).
    by rewrite andb_true_r.
  - simpl. rewrite Hh. by rewrite andb_false_r.
Qed.

Lemma rate_limited_ok {S : Type} l key now req (handler : S -> response * S) store s :
  (forall k, window_ok l (hits_of store k)) ->
  forall k, window_ok l (hits_of (rate_limited l key now req handler store s).2 k).
Proof.
  intros Hok. pose proof (limiter_admit_ok l now (key req) store Hok) as H.
  unfold rate_limited.
  destruct (limiter_admit l now (key req) store) as [[] store']; simpl in *; [| done].
  by destruct (handler s).
Qed.

Lemma let_through_cons want key_of key ev evs r rs :
  let_through want key_of key (ev :: evs) (r :: rs) =
  let_through want key_of key [ev] [r] ++ let_through want key_of key evs rs.
Proof.
  destruct ev as [net now req | fault se now req | fault se now req | fault req | fault req];
    simpl; try done;
    by destruct (want _ && String.eqb (key_of req) key && negb (Z.eqb (status r) 429)).
Qed.

Lemma not_429 z : z = 200 \/ z = 400 \/ z = 409 \/ z = 500 -> z <> 429.
Proof. lia. Qed.

(** One request, seen from the stores of the limiters. *)
Lemma sqlite_step_hits apiKey ev st k :
  let r := (SqliteApp.step apiKey ev st).1 in
  let st' := (SqliteApp.step apiKey ev st).2 in
  hits_of (st_subscribe_hits st') k =
    let_through is_subscribe keyGenerator_sqlite k [ev] [r] ++
    hits_of (st_subscribe_hits st) k /\
  hits_of (st_contact_hits st') k =
    let_through is_contact keyGenerator_sqlite k [ev] [r] ++
    hits_of (st_contact_hits st) k /\
  (hits_ok (st_subscribe_hits st) (st_contact_hits st) ->
   hits_ok (st_subscribe_hits st') (st_contact_hits st')).
Proof.
  cbv zeta.
  destruct ev as [net now req | fault se now req | fault se now req | fault req | fault req].
  - done.
  - assert (Hs : status (SqliteServer.subscribe fault now req (st_db st)).1 <> 429).
    { apply not_429.
      destruct (sqlite_subscribe_status fault now req (st_db st)) as [? | [? | [? | ?]]];
        tauto. }
    pose proof (rate_limited_hits subscribeLimiter keyGenerator_sqlite now req
                  (SqliteServer.subscribe fault now req) (st_subscribe_hits st) (st_db st)
                  k Hs) as Hh.
    pose proof (rate_limited_ok subscribeLimiter keyGenerator_sqlite now req
                  (SqliteServer.subscribe fault now req) (st_subscribe_hits st) (st_db st))
      as Hok.
    unfold SqliteApp.step, SqliteServer.post_subscribe.
    destruct (rate_limited subscribeLimiter keyGenerator_sqlite now req
                (SqliteServer.subscribe fault now req) (st_subscribe_hits st) (st_db st))
      as [[r d] hits].
    cbn [fst snd] in Hh, Hok.
    cbn [fst snd st_subscribe_hits st_contact_hits ms_subscribe_hits ms_contact_hits
         let_through is_subscribe is_contact status cors andb].
    rewrite Hh.
    split; [| split; [done |]].
    + by destruct (String.eqb (keyGenerator_sqlite req) k && negb (Z.eqb (status r) 429)).
    + intros [H1 H2]. split; [by apply Hok | done].
  - assert (Hs : status (SqliteServer.contact fault now req (st_db st)).1 <> 429).
    { apply not_429.
      destruct (sqlite_contact_status fault now req (st_db st)) as [? | [? | ?]]; tauto. }
    pose proof (rate_limited_hits contactLimiter keyGenerator_sqlite now req
                  (SqliteServer.contact fault now req) (st_contact_hits st) (st_db st)
                  k Hs) as Hh.
    pose proof (rate_limited_ok contactLimiter keyGenerator_sqlite now req
                  (SqliteServer.contact fault now req) (st_contact_hits st) (st_db st))
      as Hok.
    unfold SqliteApp.step, SqliteServer.post_contact.
    destruct (rate_limited contactLimiter keyGenerator_sqlite now req
                (SqliteServer.contact fault now req) (st_contact_hits st) (st_db st))
      as [[r d] hits].
    cbn [fst snd] in Hh, Hok.
    cbn [fst snd st_subscribe_hits st_contact_hits ms_subscribe_hits ms_contact_hits
         let_through is_subscribe is_contact status cors andb].
    rewrite Hh.
    split; [done | split].
    + by destruct (String.eqb (keyGenerator_sqlite req) k && negb (Z.eqb (status r) 429)).
    + intros [H1 H2]. split; [done | by apply Hok].
  - unfold SqliteApp.step.
    by destruct (SqliteServer.get_subscribers apiKey fault req (st_db st)).
  - unfold SqliteApp.step.
    by destruct (SqliteServer.get_messages apiKey fault req (st_db st)).
Qed.

Lemma sqlite_run_hits apiKey evs st k :
  let rs := (SqliteApp.run apiKey evs st).1 in
  let st' := (SqliteApp.run apiKey evs st).2 in
  hits_of (st_subscribe_hits st') k ≡ₚ
    let_through is_subscribe keyGenerator_sqlite k evs rs ++
    hits_of (st_subscribe_hits st) k /\
  hits_of (st_contact_hits st') k ≡ₚ
    let_through is_contact keyGenerator_sqlite k evs rs ++
    hits_of (st_contact_hits st) k /\
  (hits_ok (st_subscribe_hits st) (st_contact_hits st) ->
   hits_ok (st_subscribe_hits st') (st_contact_hits st')).
Proof.
  cbv zeta. revert st. induction evs as [| ev evs IH]; intros st; [done |].
  cbn [SqliteApp.run].
  pose proof (sqlite_step_hits apiKey ev st k) as (H1 & H2 & H3).
  destruct (SqliteApp.step apiKey ev st) as [r st1].
  destruct (IH st1) as (I1 & I2 & I3).
  destruct (SqliteApp.run apiKey evs st1) as [rs st2].
  cbn [fst snd] in *. rewrite (let_through_cons is_subscribe _ _ ev evs r rs),
    (let_through_cons is_contact _ _ ev evs r rs).
  split; [| split].
  - rewrite I1, H1. rewrite !(assoc app). apply Permutation_app_tail, Permutation_app_comm.
  - rewrite I2, H2. rewrite !(assoc app). apply Permutation_app_tail, Permutation_app_comm.
  - intros H. by apply I3, H3.
Qed.

Lemma firebase_step_hits apiKey adminEmail ev st k :
  let r := (FirebaseApp.step apiKey adminEmail ev st).1 in
  let st' := (FirebaseApp.step apiKey adminEmail ev st).2 in
  hits_of (ms_subscribe_hits st') k =
    let_through is_subscribe keyGenerator k [ev] [r] ++ hits_of (ms_subscribe_hits st) k /\
  hits_of (ms_contact_hits st') k =
    let_through is_contact keyGenerator k [ev] [r] ++ hits_of (ms_contact_hits st) k /\
  (hits_ok (ms_subscribe_hits st) (ms_contact_hits st) ->
   hits_ok (ms_subscribe_hits st') (ms_contact_hits st')).
Proof.
  cbv zeta.
  destruct ev as [net now req | fault se now req | fault se now req | fault req | fault req].
  - done.
  - assert (Hs : status (FirebaseServer.subscribe fault se now req
                           (ms_db st, ms_outbox st)).1 <> 429).
    { apply not_429.
      destruct (firebase_subscribe_status fault se now req (ms_db st, ms_outbox st))
        as [? | [? | ?]]; tauto. }
    pose proof (rate_limited_hits subscribeLimiter keyGenerator now req
                  (FirebaseServer.subscribe fault se now req) (ms_subscribe_hits st)
                  (ms_db st, ms_outbox st) k Hs) as Hh.
    pose proof (rate_limited_ok subscribeLimiter keyGenerator now req
                  (FirebaseServer.subscribe fault se now req) (ms_subscribe_hits st)
                  (ms_db st, ms_outbox st)) as Hok.
    unfold FirebaseApp.step, FirebaseServer.post_subscribe.
    destruct (rate_limited subscribeLimiter keyGenerator now req
                (FirebaseServer.subscribe fault se now req) (ms_subscribe_hits st)
                (ms_db st, ms_outbox st)) as [[r [d outbox]] hits].
    cbn [fst snd] in Hh, Hok.
    cbn [fst snd st_subscribe_hits st_contact_hits ms_subscribe_hits ms_contact_hits
         let_through is_subscribe is_contact status cors andb].
    rewrite Hh.
    split; [| split; [done |]].
    + by destruct (String.eqb (keyGenerator req) k && negb (Z.eqb (status r) 429)).
    + intros [H1 H2]. split; [by apply Hok | done].
  - assert (Hs : status (FirebaseServer.contact adminEmail fault se now req
                           (ms_db st, ms_outbox st)).1 <> 429).
    { apply not_429.
      destruct (firebase_contact_status adminEmail fault se now req (ms_db st, ms_outbox st))
        as [? | [? | ?]]; tauto. }
    pose proof (rate_limited_hits contactLimiter keyGenerator now req
                  (FirebaseServer.contact adminEmail fault se now req) (ms_contact_hits st)
                  (ms_db st, ms_outbox st) k Hs) as Hh.
    pose proof (rate_limited_ok contactLimiter keyGenerator now req
                  (FirebaseServer.contact adminEmail fault se now req) (ms_contact_hits st)
                  (ms_db st, ms_outbox st)) as Hok.
    unfold FirebaseApp.step, FirebaseServer.post_contact.
    destruct (rate_limited contactLimiter keyGenerator now req
                (FirebaseServer.contact adminEmail fault se now req) (ms_contact_hits st)
                (ms_db st, ms_outbox st)) as [[r [d outbox]] hits].
    cbn [fst snd] in Hh, Hok.
    cbn [fst snd st_subscribe_hits st_contact_hits ms_subscribe_hits ms_contact_hits
         let_through is_subscribe is_contact status cors andb].
    rewrite Hh.
    split; [done | split].
    + by destruct (String.eqb (keyGenerator req) k && negb (Z.eqb (status r) 429)).
    + intros [H1 H2]. split; [done | by apply Hok].
  - unfold FirebaseApp.step.
    by destruct (FirebaseServer.get_subscribers apiKey fault req (ms_db st, ms_outbox st))
      as [r [d outbox]].
  - unfold FirebaseApp.step.
    by destruct (FirebaseServer.get_messages apiKey fault req (ms_db st, ms_outbox st))
      as [r [d outbox]].
Qed.

Lemma firebase_run_hits apiKey adminEmail evs st k :
  let rs := (FirebaseApp.run apiKey adminEmail evs st).1 in
  let st' := (FirebaseApp.run apiKey adminEmail evs st).2 in
  hits_of (ms_subscribe_hits st') k ≡ₚ
    let_through is_subscribe keyGenerator k evs rs ++ hits_of (ms_subscribe_hits st) k /\
  hits_of (ms_contact_hits st') k ≡ₚ
    let_through is_contact keyGenerator k evs rs ++ hits_of (ms_contact_hits st) k /\
  (hits_ok (ms_subscribe_hits st) (ms_contact_hits st) ->
   hits_ok (ms_subscribe_hits st') (ms_contact_hits st')).
Proof.
  cbv zeta. revert st. induction evs as [| ev evs IH]; intros st; [done |].
  cbn [FirebaseApp.run].
  pose proof (firebase_step_hits apiKey adminEmail ev st k) as (H1 & H2 & H3).
  destruct (FirebaseApp.step apiKey adminEmail ev st) as [r st1].
  destruct (IH st1) as (I1 & I2 & I3).
  destruct (FirebaseApp.run apiKey adminEmail evs st1) as [rs st2].
  cbn [fst snd] in *. rewrite (let_through_cons is_subscribe _ _ ev evs r rs),
    (let_through_cons is_contact _ _ ev evs r rs).
  split; [| split].
  - rewrite I1, H1. rewrite !(assoc app). apply Permutation_app_tail, Permutation_app_comm.
  - rewrite I2, H2. rewrite !(assoc app). apply Permutation_app_tail, Permutation_app_comm.
  - intros H. by apply I3, H3.
Qed.

Lemma hits_ok_empty : hits_ok ∅ ∅.
Proof.
  split; intros k w; unfold hits_of, count_from; rewrite lookup_empty; done.
Qed.

Lemma hits_of_empty k : hits_of ∅ k = [].
Proof. unfold hits_of. by rewrite lookup_empty. Qed.

Lemma count_from_perm l w hits hits' :
  hits ≡ₚ hits' -> count_from l w hits = count_from l w hits'.
Proof. intros H. unfold count_from. by rewrite H. Qed.

(** From limiter stores that are empty, as they are when the process
    starts, no window holds more than the limit of requests let through. *)
Lemma sqlite_run_throttled apiKey evs st key w :
  st_subscribe_hits st = ∅ -> st_contact_hits st = ∅ ->
  count_from subscribeLimiter w
    (let_through is_subscribe keyGenerator_sqlite key evs (SqliteApp.run apiKey evs st).1)
    <= 10 /\
  count_from contactLimiter w
    (let_through is_contact keyGenerator_sqlite key evs (SqliteApp.run apiKey evs st).1)
    <= 5.
Proof.
  intros Hs Hc.
  destruct (sqlite_run_hits apiKey evs st key) as (H1 & H2 & H3).
  destruct H3 as [Ok1 Ok2]; [rewrite Hs, Hc; apply hits_ok_empty |].
  rewrite Hs, hits_of_empty, app_nil_r in H1.
  rewrite Hc, hits_of_empty, app_nil_r in H2.
  split.
  - rewrite <- (count_from_perm _ _ _ _ H1). apply (Ok1 key w).
  - rewrite <- (count_from_perm _ _ _ _ H2). apply (Ok2 key w).
Qed.

Lemma firebase_run_throttled apiKey adminEmail evs st key w :
  ms_subscribe_hits st = ∅ -> ms_contact_hits st = ∅ ->
  count_from subscribeLimiter w
    (let_through is_subscribe keyGenerator key evs
       (FirebaseApp.run apiKey adminEmail evs st).1) <= 10 /\
  count_from contactLimiter w
    (let_through is_contact keyGenerator key evs
       (FirebaseApp.run apiKey adminEmail evs st).1) <= 5.
Proof.
  intros Hs Hc.
  destruct (firebase_run_hits apiKey adminEmail evs st key) as (H1 & H2 & H3).
  destruct H3 as [Ok1 Ok2]; [rewrite Hs, Hc; apply hits_ok_empty |].
  rewrite Hs, hits_of_empty, app_nil_r in H1.
  rewrite Hc, hits_of_empty, app_nil_r in H2.
  split.
  - rewrite <- (count_from_perm _ _ _ _ H1). apply (Ok1 key w).
  - rewrite <- (count_from_perm _ _ _ _ H2). apply (Ok2 key w).
Qed.

End Throttling.

(** C9.  Measured against the sliding window of the specification: in any
    15-minute window at most 10 subscription requests and at most 5 contact
    requests of one client key are let through, by the limiter run on its
    own and by the routes of each of the three servers over any sequence of
    requests since the start of the process; a request of a key that has
    used up its window is answered 429 with the fixed message of its route
    whatever its body holds, and nothing is written; the key is the trimmed
    first comma-separated entry of the x-forwarded-for header when there is
    one, and the connection address otherwise. *)
Theorem rate_limit_per_client_key :
  (windowMs subscribeLimiter = 15 * 60 * 1000 /\
   windowMs contactLimiter = 15 * 60 * 1000) /\
  (forall reqs key w,
     count_from subscribeLimiter w
       (admitted_at key reqs (limiter_run subscribeLimiter reqs ∅).1) <= 10 /\
     count_from contactLimiter w
       (admitted_at key reqs (limiter_run contactLimiter reqs ∅).1) <= 5) /\
  (forall fault send_error adminEmail,
     throttled_route subscribeLimiter keyGenerator_sqlite
       (SqliteServer.post_subscribe fault) /\
     throttled_route contactLimiter keyGenerator_sqlite
       (SqliteServer.post_contact fault) /\
     throttled_route subscribeLimiter keyGenerator_sqlite
       (SqliteMailServer.post_subscribe fault send_error) /\
     throttled_route contactLimiter keyGenerator_sqlite
       (SqliteMailServer.post_contact adminEmail fault send_error) /\
     throttled_route subscribeLimiter keyGenerator
       (FirebaseServer.post_subscribe fault send_error) /\
     throttled_route contactLimiter keyGenerator
       (FirebaseServer.post_contact adminEmail fault send_error)) /\
  (status (too_many_requests subscribeLimiter) = 429 /\
   payload (too_many_requests subscribeLimiter) =
     JStr "Too many subscription attempts from this IP, please try again later." /\
   status (too_many_requests contactLimiter) = 429 /\
   payload (too_many_requests contactLimiter) =
     JStr "Too many contact messages from this IP, please try again later.") /\
  (forall req,
     keyGenerator_sqlite req = keyGenerator req /\
     (req_forwarded_for req = None -> keyGenerator req = req_ip req) /\
     (forall h, req_forwarded_for req = Some h -> h <> "" ->
        exists first, first_segment (chars h) first /\
                      keyGenerator req = of_chars (trim first))) /\
  (forall apiKey adminEmail evs key w,
     (forall st,
        st_subscribe_hits st = ∅ -> st_contact_hits st = ∅ ->
        let rs := (SqliteApp.run apiKey evs st).1 in
        count_from subscribeLimiter w
          (let_through is_subscribe keyGenerator_sqlite key evs rs) <= 10 /\
        count_from contactLimiter w
          (let_through is_contact keyGenerator_sqlite key evs rs) <= 5) /\
     (forall st,
        ms_subscribe_hits st = ∅ -> ms_contact_hits st = ∅ ->
        let rs := (SqliteMailApp.run apiKey adminEmail evs st).1 in
        count_from subscribeLimiter w
          (let_through is_subscribe keyGenerator_sqlite key evs rs) <= 10 /\
        count_from contactLimiter w
          (let_through is_contact keyGenerator_sqlite key evs rs) <= 5) /\
     (forall st,
        ms_subscribe_hits st = ∅ -> ms_contact_hits st = ∅ ->
        let rs := (FirebaseApp.run apiKey adminEmail evs st).1 in
        count_from subscribeLimiter w
          (let_through is_subscribe keyGenerator key evs rs) <= 10 /\
        count_from contactLimiter w
          (let_through is_contact keyGenerator key evs rs) <= 5)).
Proof.
  split; [done |]. split; [| split; [| split; [done |]]]; [| | split]; [| | | split; [| split]].
  - intros reqs key w. split.
    + by apply (limiter_run_window subscribeLimiter).
    + by apply (limiter_run_window contactLimiter).
  - intros fault send_error adminEmail.
    repeat split; intros now req store s Hover; by apply rate_limited_over_limit.
  - intros req. split; [apply keyGenerator_sqlite_agrees | split].
    + unfold keyGenerator. by intros ->.
    + intros h Hh Hne. unfold keyGenerator. rewrite Hh, (truthy_string _ Hne).
      eexists. split; [apply hd_split_on_first_segment | done].
  - intros st Hs Hc. by apply sqlite_run_throttled.
  - intros st Hs Hc. cbv zeta.
    rewrite (proj1 (mail_run_refines apiKey adminEmail evs st)).
    by apply sqlite_run_throttled.
  - intros st Hs Hc. by apply firebase_run_throttled.
Qed.

(** Eleven subscription requests of one client with the same address, one
    second apart: the first is stored, the nine that follow meet the unique
    constraint, and the eleventh is turned away by the limiter. *)
Example eleventh_subscription_of_a_run :
  map status
    (SqliteApp.run "s3cret"
       (map (fun i => Subscribe None None (i * 1000)
                        (post_request (Some "198.51.100.4") (email_body "a@b.com")))
            [0; 1; 2; 3; 4; 5; 6; 7; 8; 9; 10])
       initial_state).1
  = [200; 409; 409; 409; 409; 409; 409; 409; 409; 409; 429].
Proof. vm_compute. reflexivity. Qed.


(** A client that has used up its window is answered 429 for a body that
    would pass the validation and for one that would not; over eleven
    requests of that client since the start, no more than ten were let
    through. *)
Lemma rate_limit_per_client_key_witness :
  let store : gmap string (list Z) :=
    {[ "198.51.100.4" := [9000; 8000; 7000; 6000; 5000; 4000; 3000; 2000; 1000; 0] ]} in
  let good := post_request (Some "198.51.100.4") (email_body "a@b.com") in
  let bad := post_request (Some "198.51.100.4") (JObj []) in
  let evs := map (fun i => Subscribe None None (i * 1000) good)
               [0; 1; 2; 3; 4; 5; 6; 7; 8; 9; 10] in
  SqliteServer.post_subscribe None 10000 good store Sqlite.empty =
    (too_many_requests subscribeLimiter, Sqlite.empty, store) /\
  SqliteServer.post_subscribe None 10000 bad store Sqlite.empty =
    (too_many_requests subscribeLimiter, Sqlite.empty, store) /\
  keyGenerator good = "198.51.100.4" /\
  count_from subscribeLimiter 0
    (let_through is_subscribe keyGenerator_sqlite "198.51.100.4" evs
       (SqliteApp.run "s3cret" evs initial_state).1) <= 10.
Proof.
  intros store good bad evs.
  destruct rate_limit_per_client_key as (_ & _ & Hroutes & _ & Hkey & Hruns).
  destruct (Hroutes None None "") as (Hsub & _).
  split; [| split; [| split]].
  - apply Hsub. vm_compute. discriminate.
  - apply Hsub. vm_compute. discriminate.
  - destruct (Hkey good) as (_ & _ & Hfirst).
    destruct (Hfirst "198.51.100.4") as (first & _ & _); [reflexivity | discriminate |].
    reflexivity.
  - destruct (Hruns "s3cret" "" evs "198.51.100.4" 0) as (Hsqlite & _).
    destruct (Hsqlite initial_state) as (H10 & _); [reflexivity | reflexivity |].
    exact H10.
Defined.

(** ** The newest message comes first *)

(** X16.  On the SQLite server, after a contact request that is stored with
    a timestamp later than that of every message already there, the listing
    of the messages starts with the new message. *)
Theorem newest_contact_listed_first now req d name email message :
  validate_contact (req_body req) = Accepted (name, email, message) ->
  Forall (fun r => Sqlite.sent_at r < Sqlite.current_timestamp now) (Sqlite.messages d) ->
  let d' := (SqliteServer.contact None now req d).2 in
  status (SqliteServer.contact None now req d).1 = 200 /\
  exists rest,
    payload (SqliteServer.listMessages None d').1 =
    JArr (Sqlite.message_json
            {| Sqlite.msg_id := Sqlite.messages_seq d + 1; Sqlite.msg_name := name;
               Sqlite.msg_email := email; Sqlite.msg_message := message;
               Sqlite.sent_at := Sqlite.current_timestamp now |} :: rest).
Proof.
  intros Hv Hold d'. subst d'.
  set (new := {| Sqlite.msg_id := Sqlite.messages_seq d + 1; Sqlite.msg_name := name;
                 Sqlite.msg_email := email; Sqlite.msg_message := message;
                 Sqlite.sent_at := Sqlite.current_timestamp now |}).
  set (d' := {| Sqlite.subscribers := Sqlite.subscribers d;
                Sqlite.subscribers_seq := Sqlite.subscribers_seq d;
                Sqlite.messages := Sqlite.messages d ++ [new];
                Sqlite.messages_seq := Sqlite.messages_seq d + 1 |}).
  assert (Hc : SqliteServer.contact None now req d =
               (res_message "Message sent successfully!", d')).
  { unfold SqliteServer.contact. by rewrite (proj2 (read_contact_Accepted _ _) Hv). }
  rewrite Hc. cbn [fst snd]. split; [done |].
  destruct (select_messages_newest_first d') as (rows & Hans & Hperm & Hsorted).
  rewrite Hans. cbn [Sqlite.messages d'] in Hperm. unfold payload. cbn [body res_json].
  rewrite Forall_forall in Hold.
  destruct rows as [| h t].
  { apply Permutation_nil in Hperm. by destruct (Sqlite.messages d). }
  assert (Hnew : new ∈ h :: t).
  { rewrite Hperm. apply elem_of_app. right. apply elem_of_cons. by left. }
  assert (Hh : h ∈ Sqlite.messages d ++ [new]).
  { rewrite <- Hperm. apply elem_of_cons. by left. }
  apply elem_of_app in Hh as [Hh | Hh].
  - exfalso. apply Hold in Hh.
    apply elem_of_cons in Hnew as [Heq | Hin].
    + subst h. simpl in Hh. lia.
    + apply StronglySorted_cons in Hsorted as [Hall _].
      rewrite Forall_forall in Hall. apply Hall in Hin.
      unfold Sqlite.newer_message in Hin. simpl in Hin. lia.
  - apply elem_of_cons in Hh as [-> | Hh]; [| by apply elem_of_nil in Hh].
    by exists (map Sqlite.message_json t).
Qed.

Lemma newest_contact_listed_first_witness :
  let r1 := SqliteServer.contact None 1000
              (post_request None (contact_body "Z" "z@y.org" "earlier")) Sqlite.empty in
  let req := post_request None (contact_body "A" "a@b.com" "hi") in
  exists rest,
    payload (SqliteServer.listMessages None (SqliteServer.contact None 9000 req r1.2).2).1 =
    JArr (Sqlite.message_json
            {| Sqlite.msg_id := 2; Sqlite.msg_name := "A"; Sqlite.msg_email := "a@b.com";
               Sqlite.msg_message := "hi"; Sqlite.sent_at := 9 |} :: rest).
Proof.
  intros r1 req.
  destruct (newest_contact_listed_first 9000 req r1.2 "A" "a@b.com" "hi") as [_ H].
  - reflexivity.
  - vm_compute. repeat constructor.
  - exact H.
Defined.

(** ** Nothing stored is ever removed or changed *)

Section Growth.

Lemma prefix_snoc {A : Type} (l : list A) x : l `prefix_of` l ++ [x].
Proof. by exists [x]. Qed.

Lemma sqlite_step_grows apiKey ev st :
  Sqlite.subscribers (st_db st) `prefix_of`
    Sqlite.subscribers (st_db (SqliteApp.step apiKey ev st).2) /\
  Sqlite.messages (st_db st) `prefix_of`
    Sqlite.messages (st_db (SqliteApp.step apiKey ev st).2).
Proof.
  pose proof (sqlite_step_db apiKey ev st) as H. cbv zeta in H. revert H.
  destruct (SqliteApp.step apiKey ev st) as [r st1]. simpl fst. simpl snd.
  destruct ev; intros H; try (by rewrite H).
  - destruct H as [[_ ->] | (_ & email & _ & Hins)]; [done |].
    unfold Sqlite.insert_subscriber in Hins.
    destruct (Sqlite.email_stored email (st_db st)); [done |]. injection Hins as <-.
    simpl. split; [apply prefix_snoc | done].
  - destruct H as [[_ ->] | (_ & n & e & m & _ & [= <-])]; [done |].
    simpl. split; [done | apply prefix_snoc].
Qed.

Lemma sqlite_run_grows apiKey evs st :
  Sqlite.subscribers (st_db st) `prefix_of`
    Sqlite.subscribers (st_db (SqliteApp.run apiKey evs st).2) /\
  Sqlite.messages (st_db st) `prefix_of`
    Sqlite.messages (st_db (SqliteApp.run apiKey evs st).2).
Proof.
  revert st. induction evs as [| ev evs IH]; intros st; [done |].
  simpl. destruct (sqlite_step_grows apiKey ev st) as [H1 H2].
  destruct (SqliteApp.step apiKey ev st) as [r st1]. simpl in H1, H2.
  destruct (IH st1) as [H3 H4].
  destruct (SqliteApp.run apiKey evs st1) as [rs st2]. simpl in *.
  split; etrans; done.
Qed.

Lemma sqlite_mail_run_outbox_grows apiKey adminEmail evs st :
  ms_outbox st `prefix_of` ms_outbox (SqliteMailApp.run apiKey adminEmail evs st).2.
Proof.
  revert st. induction evs as [| ev evs IH]; intros st; [done |].
  simpl. pose proof (sqlite_mail_step_db apiKey adminEmail ev st) as H. cbv zeta in H.
  revert H. destruct (SqliteMailApp.step apiKey adminEmail ev st) as [r st1].
  simpl fst. simpl snd. intros H. specialize (IH st1).
  destruct (SqliteMailApp.run apiKey adminEmail evs st1) as [rs st2]. simpl in *.
  etrans; [| exact IH].
  destruct ev.
  - by destruct H as [_ ->].
  - destruct H as [[_ ->] | (email & _ & [-> | ->])]; [done | done | apply prefix_snoc].
  - destruct H as [[-> | ->] _]; [done | apply prefix_snoc].
  - by destruct H as [_ ->].
  - by destruct H as [_ ->].
Qed.

Lemma firebase_step_grows apiKey adminEmail ev st :
  let st' := (FirebaseApp.step apiKey adminEmail ev st).2 in
  Firebase.subscribers (ms_db st) `prefix_of` Firebase.subscribers (ms_db st') /\
  Firebase.messages (ms_db st) `prefix_of` Firebase.messages (ms_db st') /\
  ms_outbox st `prefix_of` ms_outbox st'.
Proof.
  pose proof (firebase_step_db apiKey adminEmail ev st) as H. cbv zeta in *. revert H.
  destruct (FirebaseApp.step apiKey adminEmail ev st) as [r st1]. simpl fst. simpl snd.
  destruct ev; intros H.
  - by destruct H as [-> ->].
  - destruct H as [(_ & -> & [-> | (email & _ & [= <-])]) | (_ & email & _ & [= <-] & ->)];
      simpl; repeat split; done || apply prefix_snoc.
  - destruct H as [(_ & -> & [-> | (n & e & m & _ & [= <-])])
                  | (_ & n & e & m & _ & [= <-] & ->)];
      simpl; repeat split; done || apply prefix_snoc.
  - by destruct H as [-> ->].
  - by destruct H as [-> ->].
Qed.

Lemma firebase_run_grows apiKey adminEmail evs st :
  let st' := (FirebaseApp.run apiKey adminEmail evs st).2 in
  Firebase.subscribers (ms_db st) `prefix_of` Firebase.subscribers (ms_db st') /\
  Firebase.messages (ms_db st) `prefix_of` Firebase.messages (ms_db st') /\
  ms_outbox st `prefix_of` ms_outbox st'.
Proof.
  revert st. induction evs as [| ev evs IH]; intros st; [done |].
  cbv zeta in *. simpl.
  destruct (firebase_step_grows apiKey adminEmail ev st) as (H1 & H2 & H3).
  destruct (FirebaseApp.step apiKey adminEmail ev st) as [r st1]. simpl in H1, H2, H3.
  destruct (IH st1) as (H4 & H5 & H6).
  destruct (FirebaseApp.run apiKey adminEmail evs st1) as [rs st2]. simpl in *.
  repeat split; etrans; done.
Qed.

End Growth.

(** X17.  No request removes or alters what is stored.  Over any run of the
    two servers with the SQLite store the rows present at the start are
    still there, unchanged and in place, at the head of both tables.  Over
    any run of the Firebase server the children present at the start are
    still there with their keys and values, in the same order among
    themselves.  The mails of the outbox stay at its head. *)
Theorem stores_only_grow apiKey adminEmail evs :
  (forall st,
     let st' := (SqliteApp.run apiKey evs st).2 in
     Sqlite.subscribers (st_db st) `prefix_of` Sqlite.subscribers (st_db st') /\
     Sqlite.messages (st_db st) `prefix_of` Sqlite.messages (st_db st')) /\
  (forall st,
     let st' := (SqliteMailApp.run apiKey adminEmail evs st).2 in
     Sqlite.subscribers (ms_db st) `prefix_of` Sqlite.subscribers (ms_db st') /\
     Sqlite.messages (ms_db st) `prefix_of` Sqlite.messages (ms_db st') /\
     ms_outbox st `prefix_of` ms_outbox st') /\
  (forall st,
     let st' := (FirebaseApp.run apiKey adminEmail evs st).2 in
     Firebase.subscribers (ms_db st) `sublist_of` Firebase.subscribers (ms_db st') /\
     Firebase.messages (ms_db st) `sublist_of` Firebase.messages (ms_db st') /\
     ms_outbox st `prefix_of` ms_outbox st').
Proof.
  split; [| split].
  - intros st. apply sqlite_run_grows.
  - intros st st'. subst st'.
    destruct (mail_run_refines apiKey adminEmail evs st) as [_ H].
    destruct (sqlite_run_grows apiKey evs (forget_outbox st)) as [H1 H2].
    rewrite <- H in H1, H2. simpl in H1, H2.
    split; [done | split; [done |]]. apply sqlite_mail_run_outbox_grows.
  - intros st st'. subst st'.
    destruct (firebase_run_grows apiKey adminEmail evs st) as ([k1 ->] & [k2 ->] & Ho).
    split; [by apply sublist_inserts_r | split; [by apply sublist_inserts_r | done]].
Qed.

(** ** A subscriber who was answered 200 is on the list *)

Section Listed.

Lemma validate_subscribe_Accepted_get body email :
  validate_subscribe body = Accepted email -> js_get body "email" = JStr email.
Proof.
  unfold validate_subscribe.
  destruct (required_string (js_get body "email")) as [e |] eqn:He; [| done].
  apply required_string_Some in He.
  destruct (regex_test emailRegex e); simpl; [| done]. by intros [= <-].
Qed.

Lemma sqlite_subscribe_200 fault now req d :
  status (SqliteServer.subscribe fault now req d).1 = 200 ->
  exists email,
    js_get (req_body req) "email" = JStr email /\
    email ∈ sqlite_emails (SqliteServer.subscribe fault now req d).2.
Proof.
  unfold SqliteServer.subscribe, sqlite_emails.
  destruct (read_subscribe (req_body req)) as [r | email] eqn:Hv.
  - simpl. destruct (read_subscribe_rejects _ _ Hv) as [-> | ->]; done.
  - destruct (Sqlite.insert_subscriber fault now email d) as [err | d'] eqn:Hins.
    + by destruct (includes err "UNIQUE constraint failed").
    + intros _. exists email. split; [by apply validate_subscribe_Accepted_get, read_subscribe_Accepted |].
      unfold Sqlite.insert_subscriber in Hins. destruct fault; [done |].
      destruct (Sqlite.email_stored email d); [done |]. injection Hins as <-.
      simpl. rewrite map_app. apply elem_of_app. right. apply elem_of_cons. by left.
Qed.

Lemma firebase_subscribe_200 fault se now req s :
  status (FirebaseServer.subscribe fault se now req s).1 = 200 ->
  exists email,
    js_get (req_body req) "email" = JStr email /\
    email ∈ firebase_emails (FirebaseServer.subscribe fault se now req s).2.1.
Proof.
  unfold FirebaseServer.subscribe, firebase_emails. destruct s as [d outbox].
  destruct (read_subscribe (req_body req)) as [r | email] eqn:Hv.
  - simpl. destruct (read_subscribe_rejects _ _ Hv) as [-> | ->]; done.
  - destruct fault; simpl; [done |]. destruct se; simpl; [done |].
    intros _. exists email. split; [by apply validate_subscribe_Accepted_get, read_subscribe_Accepted |].
    rewrite map_app. apply elem_of_app. right. apply elem_of_cons. by left.
Qed.

Lemma prefix_elem_of_map {A B : Type} (f : A -> B) (l k : list A) x :
  l `prefix_of` k -> x ∈ map f l -> x ∈ map f k.
Proof.
  intros [t ->] Hin. rewrite map_app. apply elem_of_app. by left.
Qed.

Lemma sqlite_step_subscribe_200 apiKey fault se now req st :
  status (SqliteApp.step apiKey (Subscribe fault se now req) st).1 = 200 ->
  exists email,
    js_get (req_body req) "email" = JStr email /\
    email ∈ sqlite_emails (st_db (SqliteApp.step apiKey (Subscribe fault se now req) st).2).
Proof.
  unfold SqliteApp.step, SqliteServer.post_subscribe.
  destruct (rate_limited_cases subscribeLimiter keyGenerator_sqlite now req
              (SqliteServer.subscribe fault now req) (st_subscribe_hits st) (st_db st))
    as [[hits ->] | [hits ->]]; cbn [fst snd st_db]; [done |].
  apply sqlite_subscribe_200.
Qed.

Lemma firebase_step_subscribe_200 apiKey adminEmail fault se now req st :
  status (FirebaseApp.step apiKey adminEmail (Subscribe fault se now req) st).1 = 200 ->
  exists email,
    js_get (req_body req) "email" = JStr email /\
    email ∈ firebase_emails
      (ms_db (FirebaseApp.step apiKey adminEmail (Subscribe fault se now req) st).2).
Proof.
  unfold FirebaseApp.step, FirebaseServer.post_subscribe.
  destruct (rate_limited_cases subscribeLimiter keyGenerator now req
              (FirebaseServer.subscribe fault se now req) (ms_subscribe_hits st)
              (ms_db st, ms_outbox st))
    as [[hits ->] | [hits ->]]; [done |].
  pose proof (firebase_subscribe_200 fault se now req (ms_db st, ms_outbox st)) as H.
  destruct (FirebaseServer.subscribe fault se now req (ms_db st, ms_outbox st))
    as [r [d outbox]]. exact H.
Qed.

End Listed.

(** X18.  A subscribe request that is answered 200 is on the list from then
    on: whatever requests follow, the listing of the subscribers (with a read
    that does not fail) holds a record with the email string of that request,
    on the SQLite server and on the Firebase server. *)
Theorem subscribed_then_listed apiKey adminEmail fault se now req evs :
  (forall st,
     let first := SqliteApp.step apiKey (Subscribe fault se now req) st in
     let st' := (SqliteApp.run apiKey evs first.2).2 in
     status first.1 = 200 ->
     exists email rows,
       js_get (req_body req) "email" = JStr email /\
       payload (SqliteServer.listSubscribers None (st_db st')).1 =
         JArr (map Sqlite.subscriber_json rows) /\
       email ∈ map Sqlite.sub_email rows) /\
  (forall st,
     let first := FirebaseApp.step apiKey adminEmail (Subscribe fault se now req) st in
     let st' := (FirebaseApp.run apiKey adminEmail evs first.2).2 in
     status first.1 = 200 ->
     exists email children,
       js_get (req_body req) "email" = JStr email /\
       payload (FirebaseServer.listSubscribers None (ms_db st', ms_outbox st')).1 =
         JArr (map Firebase.subscriber_json children) /\
       email ∈ map (fun c => Firebase.email c.2) children).
Proof.
  split; intros st first st' H200; subst first st'.
  - destruct (sqlite_step_subscribe_200 _ _ _ _ _ _ H200) as (email & Hget & Hin).
    set (st1 := (SqliteApp.step apiKey (Subscribe fault se now req) st).2) in *.
    destruct (sqlite_run_grows apiKey evs st1) as [Hpre _].
    destruct (select_subscribers_newest_first (st_db (SqliteApp.run apiKey evs st1).2))
      as (rows & Hans & Hperm & _).
    exists email, rows. split; [done |]. rewrite Hans. split; [done |].
    rewrite Hperm. by apply (prefix_elem_of_map _ _ _ _ Hpre).
  - destruct (firebase_step_subscribe_200 _ _ _ _ _ _ _ H200) as (email & Hget & Hin).
    set (st1 := (FirebaseApp.step apiKey adminEmail (Subscribe fault se now req) st).2) in *.
    destruct (firebase_run_grows apiKey adminEmail evs st1) as (Hpre & _).
    exists email, (Firebase.subscribers (ms_db (FirebaseApp.run apiKey adminEmail evs st1).2)).
    split; [done |]. split.
    + unfold FirebaseServer.listSubscribers, payload. cbn [fst snd body res_json].
      by rewrite firebase_entries_map.
    + by apply (prefix_elem_of_map _ _ _ _ Hpre).
Qed.

Lemma subscribed_then_listed_witness :
  let req := post_request None (email_body "a@b.com") in
  let evs := [Subscribe None None 2000 (post_request None (email_body "c@d.org"));
              Contact None None 3000 (post_request None (contact_body "A" "x@y.org" "hi"))] in
  let first := SqliteApp.step "s3cret" (Subscribe None None 1000 req) initial_state in
  let st' := (SqliteApp.run "s3cret" evs first.2).2 in
  exists email rows,
    js_get (req_body req) "email" = JStr email /\
    payload (SqliteServer.listSubscribers None (st_db st')).1 =
      JArr (map Sqlite.subscriber_json rows) /\
    email ∈ map Sqlite.sub_email rows.
Proof.
  intros req evs first st'.
  apply (proj1 (subscribed_then_listed "s3cret" "admin@example.com" None None 1000 req evs)
           initial_state).
  reflexivity.
Defined.
